(** * Drawpile: layer list model, layer dock and text recording writer

    A shallow embedding of the parts of Drawpile that build layer commands
    on the client (src/libclient/canvas/layerlist.{h,cpp},
    src/desktop/docks/layerlistdock.cpp), of the text form of the message
    codec (libmsg/dpmsg/text_writer.c) and of the endpoint constants of the
    TCP client (libclient/dpclient/tcp_socket_client.h); further of the
    pixel brush masks (src/libclient/brushes/pixelbrushpainter.cpp), of the
    runnable that saves the canvas
    (src/libclient/export/canvassaverrunnable.cpp) and of the file names
    that the main window saves under (src/client/mainwindow.cpp).

    Conventions.  C and C++ integers are [Z]; where a conversion narrows a
    value the mask is written out.  A [QString] or a C string is a
    [list ascii].  A [QVector] is a [list].  Signals emitted by a slot are
    returned as the list of emitted values, next to the state the slot
    leaves behind. *)

From Stdlib Require Import ZArith List Bool Ascii String Lia Permutation.
From Stdlib Require QArith.
Import ListNotations.
Local Open Scope Z_scope.


(** ** Qt containers and strings *)

Module Qt.

Definition QString := list ascii.

(** A string literal as a [QString]. *)
Definition qs (s : string) : QString := list_ascii_of_string s.

(** The list without its element at position [n]. *)
Definition remove_at {A} (n : nat) (v : list A) : list A :=
  firstn n v ++ skipn (S n) v.

(** [QVector<T>::move(from, to)]: the item at index [from] is taken out
    and put back at index [to]; nothing happens when [from == to].  Qt
    asserts that both indices are in range; out of range the vector is
    returned as it is. *)
Definition QVector_move {A} (v : list A) (from to : nat) : list A :=
  if Nat.eqb from to then v
  else match nth_error v from with
       | Some x =>
           if Nat.ltb to (List.length v)
           then firstn to (remove_at from v) ++ x :: skipn to (remove_at from v)
           else v
       | None => v
       end.

(** [QList<int>::contains]. *)
Definition contains (l : list Z) (x : Z) : bool :=
  existsb (Z.eqb x) l.

(** A [QModelIndex]: the default-constructed, invalid index, or the
    result of [createIndex(row, column, internalId)]. *)
Inductive QModelIndex :=
| Invalid
| createIndex (row column internalId : Z).

Definition isValid (i : QModelIndex) : bool :=
  match i with
  | Invalid => false
  | createIndex r c _ => (0 <=? r) && (0 <=? c)
  end.

Definition row_of (i : QModelIndex) : Z :=
  match i with Invalid => -1 | createIndex r _ _ => r end.

(** [QVector<T>::at(i)]; [None] stands for the failed range assertion. *)
Definition at_ {A} (v : list A) (i : Z) : option A :=
  if i <? 0 then None else nth_error v (Z.to_nat i).

(** [qMax] on [int]. *)
Definition qMax (a b : Z) : Z := if a <? b then b else a.

(** Two's complement wrap-around of a 32-bit [int]. *)
Definition INT_MAX : Z := 2147483647.
Definition wrap_int (x : Z) : Z := (x + 2 ^ 31) mod 2 ^ 32 - 2 ^ 31.

Definition code (c : ascii) : Z := Z.of_N (N_of_ascii c).

(** An ASCII decimal digit: what [\d] matches in a [QRegularExpression]
    that does not set [UseUnicodePropertiesOption]. *)
Definition isDigit (c : ascii) : bool := (48 <=? code c) && (code c <=? 57).

(** [QChar::isSpace] on the Latin-1 range. *)
Definition isSpace (c : ascii) : bool :=
  (code c =? 32) || ((9 <=? code c) && (code c <=? 13))
  || (code c =? 133) || (code c =? 160).

Fixpoint takeWhile {A} (p : A -> bool) (l : list A) : list A :=
  match l with
  | [] => []
  | x :: l' => if p x then x :: takeWhile p l' else []
  end.

Fixpoint dropWhile {A} (p : A -> bool) (l : list A) : list A :=
  match l with
  | [] => []
  | x :: l' => if p x then dropWhile p l' else l
  end.

(** The longest run of decimal digits that ends the string. *)
Definition trailing_digits (s : QString) : QString :=
  rev (takeWhile isDigit (rev s)).

(** The subject with the line feed that ends it, if any, taken off. *)
Definition chop_final_newline (s : QString) : QString :=
  match rev s with
  | c :: r => if code c =? 10 then rev r else s
  | [] => s
  end.

(** [QRegularExpression("(\\d+)$").match(s)]: [None] when there is no
    match, else [capturedStart()] and [captured(1)].  The leftmost match
    is the whole run of digits that ends the subject; [$] also holds just
    before a line feed that is the last character of the subject. *)
Definition suffixNumRe_match (s : QString) : option (nat * QString) :=
  let body := chop_final_newline s in
  match trailing_digits body with
  | [] => None
  | digits => Some ((List.length body - List.length digits)%nat, digits)
  end.

(** [QString::mid(0, n)]. *)
Definition mid0 (s : QString) (n : nat) : QString := firstn n s.

(** [QString::trimmed]. *)
Definition trimmed (s : QString) : QString :=
  rev (dropWhile isSpace (rev (dropWhile isSpace s))).

(** [QString::startsWith], case sensitive. *)
Fixpoint startsWith (s p : QString) : bool :=
  match p, s with
  | [], _ => true
  | _ :: _, [] => false
  | a :: p', b :: s' => Ascii.eqb a b && startsWith s' p'
  end.

(** The value of a string of decimal digits, read left to right. *)
Definition digits_value (s : QString) : Z :=
  fold_left (fun acc c => 10 * acc + (code c - 48)) s 0.

(** [QString::toInt()] on a string of decimal digits: the value, or [0]
    when the conversion fails because the value does not fit an [int]
    (or the string is not a number). *)
Definition toInt (s : QString) : Z :=
  match s with
  | [] => 0
  | _ => if forallb isDigit s
         then (if digits_value s <=? INT_MAX then digits_value s else 0)
         else 0
  end.

Definition digit_char (d : Z) : ascii := ascii_of_N (Z.to_N (48 + d)).

(** Decimal digits of a non-negative number, most significant first. *)
Fixpoint digits_of (fuel : nat) (n : Z) (acc : QString) : QString :=
  match fuel with
  | O => acc
  | S f =>
      let acc' := digit_char (n mod 10) :: acc in
      if n <? 10 then acc' else digits_of f (n / 10) acc'
  end.

(** [QString::number(n)], base 10.  A number has at most
    [log2 n + 1] decimal digits. *)
Definition number (n : Z) : QString :=
  if n <? 0
  then "-"%char :: digits_of (S (Z.to_nat (Z.log2 (- n)))) (- n) []
  else digits_of (S (Z.to_nat (Z.log2 n))) n [].

End Qt.

(** ** libclient/canvas/layerlist.{h,cpp} *)

Module LayerList.
Import Qt.

(** A C [float], kept as its 32-bit pattern; no claim looks inside. *)
Inductive float := Float32 (bits : Z).

(** [struct LayerListItem] (layerlist.h:40). *)
Record LayerListItem := {
  id : Z;               (* uint16_t *)
  title : QString;
  opacity : float;
  blend : Z;            (* rustpile::Blendmode : uint8_t *)
  hidden : bool;
  censored : bool;
  fixed : bool;
  isolated : bool;
  group : bool;
  children : Z;         (* uint16_t *)
  relIndex : Z;         (* uint16_t *)
  left : Z;             (* int *)
  right : Z             (* int *)
}.

(** [uint8_t creatorId() const { return uint8_t((id & 0xff00) >> 8); }] *)
Definition creatorId (item : LayerListItem) : Z :=
  Z.land (Z.shiftr (Z.land (id item) 0xff00) 8) 0xff.

(** The part of [AclState] (acl.h, not among the sources) that the layer
    list and the dock call: the local user's number, a [uint8_t], and the
    per-layer lock query. *)
Record AclState := {
  localUserId : Z;
  isLayerLocked : Z -> bool
}.

(** The members of [LayerListModel] (layerlist.h:179-184).  [m_aclstate]
    is a pointer the handlers assert to be set. *)
Record LayerListModel := {
  m_items : list LayerListItem;
  m_aclstate : AclState;
  m_rootLayerCount : Z;
  m_defaultLayer : Z;
  m_autoselectAny : bool
}.

(** The envelope built by [rustpile::write_layerorder(eb, user, ids, n)]
    and carried by the [layerCommand] signal. *)
Inductive Envelope :=
| write_layerorder (ctx : Z) (layers : list Z).

(** The vector built in [handleMoveLayer] (layerlist.cpp:114-119):
    [li.id] then [0], for each item in display order. *)
Definition id_pairs (items : list LayerListItem) : list Z :=
  flat_map (fun li => [id li; 0]) items.

(** [LayerListModel::handleMoveLayer] (layerlist.cpp:97-138).  Returns
    the model after the call and the emitted [layerCommand] signals. *)
Definition handleMoveLayer (m : LayerListModel) (oldIdx newIdx : Z)
  : LayerListModel * list Envelope :=
  let count := Z.of_nat (List.length (m_items m)) in
  if count <? 2 then (m, [])
  else
    let adjustedNewIdx := if newIdx >? oldIdx then newIdx - 1 else newIdx in
    if (oldIdx <? 0) || (oldIdx >=? count)
       || (adjustedNewIdx <? 0) || (adjustedNewIdx >=? count)
    then (m, [])
    else
      let layers := id_pairs (m_items m) in
      let layers := QVector_move layers (Z.to_nat (2 * oldIdx))
                                 (Z.to_nat (2 * adjustedNewIdx)) in
      let layers := QVector_move layers (Z.to_nat (2 * oldIdx + 1))
                                 (Z.to_nat (2 * adjustedNewIdx + 1)) in
      let layers := rev layers in
      (m, [write_layerorder (localUserId (m_aclstate m)) layers]).

(** The loop [for(int i=0;i<256;++i)] of [getAvailableLayerId], entered
    at [i] with [n] iterations left. *)
Fixpoint first_free (prefix : Z) (takenIds : list Z) (n : nat) (i : Z) : Z :=
  match n with
  | O => 0
  | S n' =>
      let id := Z.lor prefix i in
      if negb (contains takenIds id) then id
      else first_free prefix takenIds n' (i + 1)
  end.

(** [LayerListModel::getAvailableLayerId] (layerlist.cpp:334-352). *)
Definition getAvailableLayerId (m : LayerListModel) : Z :=
  let prefix := Z.shiftl (localUserId (m_aclstate m)) 8 in
  let takenIds :=
    map id (filter (fun item => Z.land (id item) 0xff00 =? prefix) (m_items m)) in
  first_free prefix takenIds 256 0.

(** The loop of [getAvailableLayerName] over [m_items]
    (layerlist.cpp:370-378). *)
Definition biggest_suffix (basename : QString) (items : list LayerListItem) : Z :=
  fold_left
    (fun suffix l =>
       match suffixNumRe_match (title l) with
       | Some (_, captured1) =>
           if startsWith (title l) basename
           then qMax suffix (toInt captured1)
           else suffix
       | None => suffix
       end)
    items 0.

(** The number that this loop reads off one layer, if it reads one. *)
Definition counted_suffix (basename : QString) (l : LayerListItem) : option Z :=
  match suffixNumRe_match (title l) with
  | Some (_, captured1) =>
      if startsWith (title l) basename then Some (toInt captured1) else None
  | None => None
  end.

(** The first block of [getAvailableLayerName] (layerlist.cpp:361-367):
    the basename without its suffix number. *)
Definition strip_suffix_number (basename : QString) : QString :=
  match suffixNumRe_match basename with
  | Some (capturedStart, _) => trimmed (mid0 basename capturedStart)
  | None => basename
  end.

(** [LayerListModel::getAvailableLayerName] (layerlist.cpp:354-382).
    [QString("%2 %1").arg(suffix+1).arg(basename)] puts the number in
    place of [%1], then the basename in place of [%2]. *)
Definition getAvailableLayerName (m : LayerListModel) (basename : QString)
  : QString :=
  let basename := strip_suffix_number basename in
  let suffix := biggest_suffix basename (m_items m) in
  basename ++ " "%char :: number (wrap_int (suffix + 1)).

(** [LayerListModel::parent], the loop [while(--seek >= 0)] entered with
    [seek] not yet decremented (layerlist.cpp:180-184). *)
Fixpoint parent_seek (items : list LayerListItem) (right_ : Z) (seek : nat)
  : option QModelIndex :=
  match seek with
  | O => Some Invalid
  | S seek' =>
      match nth_error items seek' with
      | None => None
      | Some it =>
          if right it >? right_
          then Some (createIndex (relIndex it) 0 (Z.of_nat seek'))
          else parent_seek items right_ seek'
      end
  end.

(** [LayerListModel::parent] (layerlist.cpp:172-187). *)
Definition parent (m : LayerListModel) (index : QModelIndex)
  : option QModelIndex :=
  match index with
  | Invalid => Some Invalid
  | createIndex _ _ seek =>
      if negb (isValid index) then Some Invalid
      else match at_ (m_items m) seek with
           | None => None
           | Some it => parent_seek (m_items m) (right it) (Z.to_nat seek)
           end
  end.

(** The inner loop of [LayerListModel::index] (layerlist.cpp:214-215)
    over the items from [cursor] on. *)
Fixpoint skip_left (rest : list LayerListItem) (next cursor : Z) : Z :=
  match rest with
  | [] => cursor
  | it :: rest' =>
      if left it <? next then skip_left rest' next (cursor + 1) else cursor
  end.

(** The loop [while(i < row)] of [LayerListModel::index]
    (layerlist.cpp:213-222) with [rows] iterations left.  [Some None] is
    the early [return QModelIndex()]. *)
Fixpoint index_rows (items : list LayerListItem) (rows : nat) (cursor next : Z)
  : option (option Z) :=
  match rows with
  | O => Some (Some cursor)
  | S rows' =>
      let cursor := skip_left (skipn (Z.to_nat cursor) items) next cursor in
      if cursor =? Z.of_nat (List.length items) then Some None
      else match at_ items cursor with
           | None => None
           | Some it =>
               if left it >? next then Some None
               else index_rows items rows' cursor (right it + 1)
           end
  end.

(** [LayerListModel::index] (layerlist.cpp:189-236).  [None] stands for
    a failed assertion ([QVector::at] out of range, or the [Q_ASSERT]
    on [relIndex]). *)
Definition index (m : LayerListModel) (row column : Z) (parent : QModelIndex)
  : option QModelIndex :=
  let items := m_items m in
  match items with
  | [] => Some Invalid
  | _ =>
      if (row <? 0) || negb (column =? 0) then Some Invalid
      else
        let first :=
          match parent with
          | createIndex _ _ cursor =>
              if isValid parent
              then match at_ items cursor with
                   | None => None
                   | Some p => if row >=? children p then Some None
                               else Some (Some (cursor + 1))
                   end
              else if row >=? m_rootLayerCount m then Some None
                   else Some (Some 0)
          | Invalid =>
              if row >=? m_rootLayerCount m then Some None else Some (Some 0)
          end in
        match first with
        | None => None
        | Some None => Some Invalid
        | Some (Some cursor) =>
            match at_ items cursor with
            | None => None
            | Some it =>
                match index_rows items (Z.to_nat row) cursor (right it + 1) with
                | None => None
                | Some None => Some Invalid
                | Some (Some cursor) =>
                    match at_ items cursor with
                    | None => None
                    | Some it' =>
                        if relIndex it' =? row
                        then Some (createIndex row column cursor)
                        else None
                    end
                end
            end
        end
  end.

(** [QModelIndex::sibling(row, column)], which for another row is
    [index(row, column, parent(idx))] of the model. *)
Definition sibling (m : LayerListModel) (idx : QModelIndex) (row column : Z)
  : option QModelIndex :=
  match idx with
  | Invalid => Some Invalid
  | createIndex r c _ =>
      if (r =? row) && (c =? column) then Some idx
      else match parent m idx with
           | None => None
           | Some p => index m row column p
           end
  end.

(** [enum LayerListRoles] (layerlist.h:102-108) with the two Qt roles that
    [data] answers.  [IsGroupRole] is the role that layerlistdock.cpp asks
    for (lines 298 and 343); the enumeration of this revision does not
    declare it and the [switch] of [data] has no case for it. *)
Inductive LayerListRoles :=
| DisplayRole | EditRole
| IdRole | TitleRole | IsDefaultRole | IsLockedRole | IsFixedRole
| IsGroupRole.

(** The [QVariant]s that [data] returns. *)
Inductive QVariant :=
| QVariant_null
| QVariant_item (item : LayerListItem)
| QVariant_string (s : QString)
| QVariant_int (n : Z)
| QVariant_bool (b : bool).

Definition toBool (v : QVariant) : bool :=
  match v with
  | QVariant_bool b => b
  | QVariant_int n => negb (n =? 0)
  | _ => false
  end.

Definition variant_toInt (v : QVariant) : Z :=
  match v with
  | QVariant_int n => n
  | QVariant_bool b => if b then 1 else 0
  | _ => 0
  end.

(** A value-initialised [LayerListItem], the result of
    [value<LayerListItem>()] on a variant that holds no item. *)
Definition LayerListItem_default : LayerListItem :=
  {| id := 0; title := []; opacity := Float32 0; blend := 0;
     hidden := false; censored := false; fixed := false; isolated := false;
     group := false; children := 0; relIndex := 0; left := 0; right := 0 |}.

Definition value_item (v : QVariant) : LayerListItem :=
  match v with QVariant_item i => i | _ => LayerListItem_default end.

(** [LayerListModel::data] (layerlist.cpp:37-55); [None] stands for
    [QVector::at] out of range.  A role that the [switch] does not list
    falls through to the final [return QVariant()]. *)
Definition data (m : LayerListModel) (index : QModelIndex) (role : LayerListRoles)
  : option QVariant :=
  match index with
  | Invalid => Some QVariant_null
  | createIndex _ _ internalId =>
      if negb (isValid index) then Some QVariant_null
      else match at_ (m_items m) internalId with
           | None => None
           | Some item =>
               Some match role with
                    | DisplayRole => QVariant_item item
                    | TitleRole | EditRole => QVariant_string (title item)
                    | IdRole => QVariant_int (id item)
                    | IsDefaultRole => QVariant_bool (id item =? m_defaultLayer m)
                    | IsLockedRole =>
                        QVariant_bool (isLayerLocked (m_aclstate m) (id item))
                    | IsFixedRole => QVariant_bool (fixed item)
                    | IsGroupRole => QVariant_null
                    end
           end
  end.

(** [LayerListItem::attributeFlags] (layerlist.cpp:384-390), over the
    three flag constants of [rustpile::LayerAttributesMessage], which are
    declared outside the sources; the result is a [uint8_t]. *)
Definition attributeFlags (FLAGS_CENSOR FLAGS_FIXED FLAGS_ISOLATED : Z)
           (item : LayerListItem) : Z :=
  Z.land
    (Z.lor (Z.lor (if censored item then FLAGS_CENSOR else 0)
                  (if fixed item then FLAGS_FIXED else 0))
           (if isolated item then FLAGS_ISOLATED else 0))
    0xff.

End LayerList.


(** ** desktop/docks/layerlistdock.cpp *)

Module LayerDock.
Import Qt LayerList.

(** Modelled from the spec: utils/changeflags.h, which declares the
    [ChangeFlags<T>] helper, is not among the sources.  A flag change is
    "a read-modify-write of a bitfield, never a blind overwrite": [set]
    records a flag in the mask and its new value in the changes, and
    [update] replaces in the old flags the masked bits alone. *)
Record ChangeFlags := {
  m_mask : Z;
  m_changes : Z
}.

(** Modelled from the spec: the constructor [ChangeFlags<uint8_t>()],
    with nothing to change. *)
Definition ChangeFlags_new : ChangeFlags := {| m_mask := 0; m_changes := 0 |}.

(** Modelled from the spec: [set(flag, value)] asks for the bits of [flag]
    to become [value]. *)
Definition set (cf : ChangeFlags) (flag : Z) (value : bool) : ChangeFlags :=
  {| m_mask := Z.land (Z.lor (m_mask cf) flag) 0xff;
     m_changes :=
       Z.land (if value then Z.lor (m_changes cf) flag
               else Z.land (m_changes cf) (Z.lnot flag)) 0xff |}.

(** Modelled from the spec: [update(oldFlags)] is the read-modify-write,
    the old flags with the masked bits replaced by the changes. *)
Definition update (cf : ChangeFlags) (oldFlags : Z) : Z :=
  Z.land (Z.lor (Z.land oldFlags (Z.lnot (m_mask cf))) (m_changes cf)) 0xff.

(** The messages the dock builds with the [drawdance::Message::make...]
    factories. *)
Inductive Message :=
| makeUndoPoint (contextId : Z)
| makeLayerDelete (contextId id mergeTo : Z)
| makeLayerAttributes (contextId id sublayer flags opacity blend : Z).

(** What the dock reads of [canvas::CanvasModel]. *)
Record CanvasModel := {
  layerlist : LayerListModel;
  aclState : AclState;
  canvas_localUserId : Z          (* uint8_t localUserId() *)
}.

(** The dock: its canvas and the selection of its tree view,
    [m_view->selectionModel()->selectedIndexes()]. *)
Record LayerListDock := {
  m_canvas : CanvasModel;
  selectedIndexes : list QModelIndex
}.

(** [LayerList::currentSelection] (layerlistdock.cpp:470-476). *)
Definition currentSelection (d : LayerListDock) : QModelIndex :=
  match selectedIndexes d with
  | [] => Invalid
  | first :: _ => first
  end.

(** [LayerList::canMergeCurrent] (layerlistdock.cpp:337-346). *)
Definition canMergeCurrent (d : LayerListDock) : option bool :=
  let layers := layerlist (m_canvas d) in
  let index := currentSelection d in
  match sibling layers index (row_of index + 1) 0 with
  | None => None
  | Some below =>
      if negb (isValid index) then Some false
      else if negb (isValid below) then Some false
      else match data layers below IsGroupRole with
           | None => None
           | Some isGroup =>
               if toBool isGroup then Some false
               else match data layers below IdRole with
                    | None => None
                    | Some belowId =>
                        Some (negb (isLayerLocked (aclState (m_canvas d))
                                                  (variant_toInt belowId)))
                    end
           end
  end.

(** [LayerList::mergeSelected] (layerlistdock.cpp:363-381): the emitted
    [layerCommands] signals, each with its array of messages. *)
Definition mergeSelected (d : LayerListDock) : option (list (list Message)) :=
  let layers := layerlist (m_canvas d) in
  let index := currentSelection d in
  if negb (isValid index) then Some []
  else match sibling layers index (row_of index + 1) 0 with
       | None => None
       | Some below =>
           if negb (isValid below) then Some []
           else
             let contextId := canvas_localUserId (m_canvas d) in
             match data layers index IdRole, data layers below IdRole with
             | Some indexId, Some belowId =>
                 Some [[makeUndoPoint contextId;
                        makeLayerDelete contextId
                          (Z.land (variant_toInt indexId) 0xffff)
                          (Z.land (variant_toInt belowId) 0xffff)]]
             | _, _ => None
             end
       end.

Section Attributes.

(** The flag constants of [rustpile::LayerAttributesMessage] and of
    [DP_MSG_LAYER_ATTRIBUTES], and the conversion of
    [layer.opacity * 255] to the [uint8_t] argument; all of them are
    declared outside the sources. *)
Variables FLAGS_CENSOR FLAGS_FIXED FLAGS_ISOLATED : Z.
Variable DP_MSG_LAYER_ATTRIBUTES_FLAGS_CENSOR : Z.
Variable opacity_times_255 : float -> Z.

(** [LayerList::censorSelected] (layerlistdock.cpp:237-249). *)
Definition censorSelected (d : LayerListDock) (censor : bool)
  : option (list (list Message)) :=
  let index := currentSelection d in
  if isValid index then
    match data (layerlist (m_canvas d)) index DisplayRole with
    | None => None
    | Some v =>
        let layer := value_item v in
        let flags :=
          update (set ChangeFlags_new DP_MSG_LAYER_ATTRIBUTES_FLAGS_CENSOR censor)
                 (attributeFlags FLAGS_CENSOR FLAGS_FIXED FLAGS_ISOLATED layer) in
        Some [[makeLayerAttributes (canvas_localUserId (m_canvas d))
                 (id layer) 0 flags (opacity_times_255 (opacity layer))
                 (blend layer)]]
    end
  else Some [].

End Attributes.

End LayerDock.

(** ** libmsg/dpmsg/text_writer.c *)

Module TextWriter.

Definition cstr (s : string) : list ascii := list_ascii_of_string s.

(** A [DP_Output] (dpcommon/output.h, not among the sources): the bytes
    written so far, and whether a write to it succeeds. *)
Record DP_Output := {
  written : list ascii;
  writable : bool
}.

(** [struct DP_TextWriter] (text_writer.c:36-41).  [multiline_buffer] and
    [multiline_size] point into [multiline_output] once it exists: they
    are its bytes and their number. *)
Record DP_TextWriter := {
  output : DP_Output;
  multiline_output : option DP_Output
}.

(** What the writer reads of a [DP_Message]. *)
Record DP_Message := {
  DP_message_context_id : Z;
  DP_message_type : Z
}.

(** [DP_output_write(output, buffer, size)]. *)
Definition DP_output_write (o : DP_Output) (buffer : list ascii) (size : nat)
  : bool * DP_Output :=
  if writable o
  then (true, {| written := written o ++ firstn size buffer;
                 writable := true |})
  else (false, o).

(** [DP_output_print] and a [DP_output_format] whose formatted text is
    [text]. *)
Definition DP_output_print (o : DP_Output) (text : list ascii)
  : bool * DP_Output :=
  DP_output_write o text (List.length text).

(** [DP_output_clear] on a memory output. *)
Definition DP_output_clear (o : DP_Output) : bool * DP_Output :=
  (true, {| written := []; writable := writable o |}).

(** [DP_mem_output_new]: an empty memory output. *)
Definition DP_mem_output_new : DP_Output :=
  {| written := []; writable := true |}.

(** A step of the writer: its [bool] result and the writer it leaves. *)
Definition step := DP_TextWriter -> bool * DP_TextWriter.

(** [a && b] on steps. *)
Definition and_then (a b : step) : step :=
  fun w => let (ok, w') := a w in if ok then b w' else (false, w').

Infix "&&>" := and_then (at level 41, right associativity).

Definition on_output (f : DP_Output -> bool * DP_Output) : step :=
  fun w => let (ok, o) := f (output w) in
           (ok, {| output := o; multiline_output := multiline_output w |}).

(** A write to [writer->multiline_output]; the callers have created it. *)
Definition on_multiline (f : DP_Output -> bool * DP_Output) : step :=
  fun w => match multiline_output w with
           | Some mo => let (ok, mo') := f mo in
                        (ok, {| output := output w; multiline_output := Some mo' |})
           | None => (false, w)
           end.

(** [*multiline_size], when [multiline_size] is set. *)
Definition multiline_size (w : DP_TextWriter) : option nat :=
  match multiline_output w with
  | Some mo => Some (List.length (written mo))
  | None => None
  end.

Definition multiline_buffer (w : DP_TextWriter) : list ascii :=
  match multiline_output w with
  | Some mo => written mo
  | None => []
  end.

Section Messages.

(** The [DP_MSG_UNDO_POINT] enumerator (dpmsg/messages.h, not among the
    sources). *)
Variable DP_MSG_UNDO_POINT : Z.

(** [DP_text_writer_finish_message] (text_writer.c:129-145). *)
Definition DP_text_writer_finish_message (writer : DP_TextWriter)
           (msg : DP_Message) : bool * DP_TextWriter :=
  let add_newline := DP_message_type msg =? DP_MSG_UNDO_POINT in
  match multiline_size writer with
  | Some (S _ as size) =>
      (on_output (fun o => DP_output_write o (cstr " {") 2)
       &&> on_output (fun o => DP_output_write o (multiline_buffer writer) size)
       &&> on_output (fun o => DP_output_write o
                                 [ "010"; "}"; "010"; "010" ]%char
                                 (if add_newline then 4 else 3)%nat)
       &&> on_multiline DP_output_clear) writer
  | _ =>
      on_output (fun o => DP_output_write o [ "010"; "010" ]%char
                            (if add_newline then 2 else 1)%nat) writer
  end.

End Messages.

(** [format_argument] (text_writer.c:151-158), given the formatted text. *)
Definition format_argument (text : list ascii) : step :=
  on_output (fun o => DP_output_print o text).

(** [buffer_line] (text_writer.c:202-207): [length] bytes of [value]. *)
Definition buffer_line (key value : list ascii) (length : nat) : step :=
  on_multiline (fun o => DP_output_print o ("010" :: "009" :: key ++ ["="])%char)
  &&> on_multiline (fun o => DP_output_write o value length).

(** The loop of [buffer_wrapped_argument] (text_writer.c:290-304), with
    [remaining = value_length - end]; after a line that is not the last
    one, [start = end]. *)
Fixpoint wrapped_loop (key value : list ascii) (line_width : nat)
         (remaining start end_ : nat) : step :=
  match remaining with
  | O => buffer_line key (skipn start value) (end_ - start)
  | S remaining' =>
      if Nat.eqb (end_ - start) line_width
      then buffer_line key (skipn start value) (end_ - start)
           &&> wrapped_loop key value line_width remaining' end_ (S end_)
      else wrapped_loop key value line_width remaining' start (S end_)
  end.

(** [buffer_wrapped_argument] (text_writer.c:278-307). *)
Definition buffer_wrapped_argument (key value : list ascii)
           (value_length line_width : nat) : step :=
  fun writer =>
    let writer :=
      match multiline_output writer with
      | Some _ => writer
      | None => {| output := output writer;
                   multiline_output := Some DP_mem_output_new |}
      end in
    wrapped_loop key value line_width value_length 0 0 writer.

Definition BASE64_LINE_WIDTH : nat := 70.

Section Base64.

(** [DP_base64_encode(value, length, &base64_length)]
    (dpcommon/base64.h, not among the sources): the encoded text. *)
Variable DP_base64_encode : list ascii -> nat -> list ascii.

(** [DP_text_writer_write_base64] (text_writer.c:309-330). *)
Definition DP_text_writer_write_base64 (key value : list ascii) (length : Z)
  : step :=
  if length <=? 0
  then format_argument (" " :: key ++ ["="])%char
  else
    let base64 := DP_base64_encode value (Z.to_nat length) in
    let base64_length := List.length base64 in
    if Nat.leb base64_length BASE64_LINE_WIDTH
    then format_argument (" " :: key ++ "=" :: base64)%char
    else buffer_wrapped_argument key base64 base64_length BASE64_LINE_WIDTH.

End Base64.

(** The writer after [text] is added to its output. *)
Definition put (w : DP_TextWriter) (text : list ascii) : DP_TextWriter :=
  {| output := {| written := written (output w) ++ text; writable := true |};
     multiline_output := multiline_output w |}.

(** The writer after [text] is added to its multi-line buffer. *)
Definition buffered (w : DP_TextWriter) (text : list ascii) : DP_TextWriter :=
  {| output := output w;
     multiline_output :=
       Some {| written := multiline_buffer w ++ text; writable := true |} |}.

Definition line_of (key line : list ascii) : list ascii :=
  ("010" :: "009" :: key ++ "=" :: line)%char.

End TextWriter.

(** ** libclient/dpclient/tcp_socket_client.h *)

Module TcpSocketClient.

Definition DP_TCP_SOCKET_CLIENT_SCHEME : string := "drawpile".
Definition DP_TCP_SOCKET_CLIENT_DEFAULT_PORT : string := "27750".

End TcpSocketClient.

(** ** The specification's wording, and sample data *)

Module Stated.
Import Qt LayerList.

(** The id list of a reorder as the specification words it: the layers
    in reverse of the display order that the move produces, bottom layer
    first, each id followed by a 0 entry. *)
Definition layer_order (items : list LayerListItem)
           (oldIdx adjustedNewIdx : nat) : list Z :=
  flat_map (fun li => [id li; 0]) (rev (QVector_move items oldIdx adjustedNewIdx)).

(** The largest decimal suffix among the titles that start with the
    basename, each suffix read as the number it spells; 0 when no title
    has one. *)
Definition largest_suffix (basename : QString) (items : list LayerListItem) : Z :=
  fold_left
    (fun largest l =>
       match suffixNumRe_match (title l) with
       | Some (_, digits) =>
           if startsWith (title l) basename
           then Z.max largest (digits_value digits)
           else largest
       | None => largest
       end)
    items 0.

(** The layer name as the specification words it: the basename without
    its suffix, a space, and one more than the largest suffix. *)
Definition layer_name (items : list LayerListItem) (basename : QString) : QString :=
  let basename := strip_suffix_number basename in
  basename ++ " "%char :: number (largest_suffix basename items + 1).

(** What ends a command of the text form as the specification words it:
    a blank line, that is the end of the command's line and an empty
    line, and one newline more after an undo point. *)
Definition terminator (undo_point : bool) : list ascii :=
  [ "010"; "010" ]%char ++ (if undo_point then [ "010"%char ] else []).

End Stated.

Module Sample.
Import Qt LayerList.

(** A root layer that is the [rel]-th of the list, with no children. *)
Definition layer (i : Z) (t : string) (rel : Z) : LayerListItem :=
  {| id := i; title := qs t; opacity := Float32 0x3f800000; blend := 1;
     hidden := false; censored := false; fixed := true; isolated := false;
     group := false; children := 0; relIndex := rel;
     left := 2 * rel + 1; right := 2 * rel + 2 |}.

Definition acl (user : Z) : AclState :=
  {| localUserId := user; isLayerLocked := fun _ => false |}.

Definition model (user : Z) (items : list LayerListItem) : LayerListModel :=
  {| m_items := items; m_aclstate := acl user;
     m_rootLayerCount := Z.of_nat (List.length items);
     m_defaultLayer := 0; m_autoselectAny := true |}.

(** Three layers of user 1, topmost first. *)
Definition abc : LayerListModel :=
  model 1 [layer 0x0101 "A" 0; layer 0x0102 "B" 1; layer 0x0103 "C" 2].

(** A dock on [abc] with the top layer A selected. *)
Definition dock_abc : LayerDock.LayerListDock :=
  {| LayerDock.m_canvas :=
       {| LayerDock.layerlist := abc;
          LayerDock.aclState := acl 1;
          LayerDock.canvas_localUserId := 1 |};
     LayerDock.selectedIndexes := [createIndex 0 0 0] |}.


(** The dock on [abc] when layer B is locked. *)
Definition dock_locked_below : LayerDock.LayerListDock :=
  {| LayerDock.m_canvas :=
       {| LayerDock.layerlist := abc;
          LayerDock.aclState :=
            {| localUserId := 1; isLayerLocked := fun layer => layer =? 0x0102 |};
          LayerDock.canvas_localUserId := 1 |};
     LayerDock.selectedIndexes := [createIndex 0 0 0] |}.

(** The dock on [abc] with the bottom layer C selected. *)
Definition dock_bottom : LayerDock.LayerListDock :=
  {| LayerDock.m_canvas :=
       {| LayerDock.layerlist := abc;
          LayerDock.aclState := acl 1;
          LayerDock.canvas_localUserId := 1 |};
     LayerDock.selectedIndexes := [createIndex 2 0 2] |}.

(** A text writer that has started the command [1 penup]. *)
Definition writer : TextWriter.DP_TextWriter :=
  {| TextWriter.output :=
       {| TextWriter.written := TextWriter.cstr "1 penup";
          TextWriter.writable := true |};
     TextWriter.multiline_output := None |}.

Definition undo_point : Z := 128.

Definition penup : TextWriter.DP_Message :=
  {| TextWriter.DP_message_context_id := 1;
     TextWriter.DP_message_type := 148 |}.

(** An encoder for the samples: it hands back the first [n] bytes. *)
Definition plain (value : list ascii) (n : nat) : list ascii := firstn n value.

(** A layer list whose only title has a suffix beyond the range of
    [int]. *)
Definition huge_suffix : LayerListModel :=
  model 1 [layer 0x0101 "Layer 4294967296" 0].

Definition numbered : LayerListModel :=
  model 1 [layer 0x0101 "Layer 1" 0; layer 0x0102 "Layer 12" 1;
           layer 0x0103 "Sketch 40" 2].

End Sample.

(** ** libclient/canvas/layerlist.cpp, the rest of the model *)

Module LayerModel.
Import Qt LayerList.

(** The loop of [LayerListModel::indexOf] (layerlist.cpp:142-144) over the
    items from index [i] on. *)
Fixpoint indexOf_from (items : list LayerListItem) (id_ i : Z) : Z :=
  match items with
  | [] => -1
  | item :: rest =>
      if id item =? id_ then i else indexOf_from rest id_ (i + 1)
  end.

(** [LayerListModel::indexOf] (layerlist.cpp:140-146). *)
Definition indexOf (m : LayerListModel) (id_ : Z) : Z :=
  indexOf_from (m_items m) id_ 0.

(** [LayerListModel::layerIndex] (layerlist.cpp:148-155). *)
Definition layerIndex (m : LayerListModel) (id_ : Z) : option QModelIndex :=
  let i := indexOf m id_ in
  if i >=? 0
  then match at_ (m_items m) i with
       | None => None
       | Some item => Some (createIndex (relIndex item) 0 i)
       end
  else Some Invalid.

(** [LayerListModel::rowCount] (layerlist.cpp:157-164). *)
Definition rowCount (m : LayerListModel) (parent : QModelIndex) : option Z :=
  match parent with
  | createIndex _ _ internalId =>
      if isValid parent
      then match at_ (m_items m) internalId with
           | None => None
           | Some item => Some (children item)
           end
      else Some (m_rootLayerCount m)
  | Invalid => Some (m_rootLayerCount m)
  end.

(** The inner loop of [setLayers] (layerlist.cpp:250-255): no old item has
    the id of [newItem]. *)
Fixpoint isNew (old : list LayerListItem) (newItem : LayerListItem) : bool :=
  match old with
  | [] => true
  | oldItem :: rest =>
      if id oldItem =? id newItem then false else isNew rest newItem
  end.

(** The outer loop of [setLayers] (layerlist.cpp:246-276); [-1] when it
    ends without a layer to select. *)
Fixpoint autoselect_loop (m : LayerListModel) (localUser : Z)
         (items : list LayerListItem) : Z :=
  match items with
  | [] => -1
  | newItem :: rest =>
      if negb (isNew (m_items m) newItem) then autoselect_loop m localUser rest
      else if (creatorId newItem =? localUser)
              || (m_autoselectAny m
                  && (((m_defaultLayer m >? 0) && (id newItem =? m_defaultLayer m))
                      || (m_defaultLayer m =? 0)))
           then id newItem
           else autoselect_loop m localUser rest
  end.

(** The loop that counts the root layers (layerlist.cpp:284-289). *)
Fixpoint count_roots (rest : list LayerListItem) (next rootLayers : Z) : Z :=
  match rest with
  | [] => rootLayers
  | item :: rest' =>
      if left item =? next
      then count_roots rest' (right item + 1) (rootLayers + 1)
      else count_roots rest' next rootLayers
  end.

(** [LayerListModel::setLayers] (layerlist.cpp:238-299), with
    [m_aclstate] set as the model record has it.  Returns the model after
    the reset and the emitted [autoSelectRequest] signals. *)
Definition setLayers (m : LayerListModel) (items : list LayerListItem)
  : LayerListModel * list Z :=
  let localUser := localUserId (m_aclstate m) in
  let autoselect :=
    if Z.of_nat (List.length (m_items m)) <? Z.of_nat (List.length items)
    then autoselect_loop m localUser items
    else -1 in
  let rootLayers :=
    match items with
    | [] => 0
    | first :: rest => count_roots rest (right first + 1) 1
    end in
  ({| m_items := items; m_aclstate := m_aclstate m;
      m_rootLayerCount := rootLayers;
      m_defaultLayer := m_defaultLayer m;
      m_autoselectAny := m_autoselectAny m |},
   if autoselect >=? 0 then [autoselect] else []).

(** The data of a drop: a [LayerMimeData], with whether its [source()] is
    the model it is dropped on, or any other [QMimeData]. *)
Inductive QMimeData :=
| LayerMimeData (source_is_this : bool) (layerId : Z)
| OtherMimeData.

(** [LayerListModel::mimeData] (layerlist.cpp:74-77) of one index. *)
Definition mimeData (m : LayerListModel) (index : QModelIndex) : option QMimeData :=
  match data m index DisplayRole with
  | None => None
  | Some v => Some (LayerMimeData true (id (value_item v)))
  end.

(** [LayerListModel::dropMimeData] (layerlist.cpp:79-95): its result, the
    model after the call and the emitted [layerCommand] signals. *)
Definition dropMimeData (m : LayerListModel) (data : QMimeData) (row : Z)
  : bool * (LayerListModel * list Envelope) :=
  match data with
  | LayerMimeData true layerId =>
      (false,
       handleMoveLayer m (indexOf m layerId)
                       (if row <? 0 then Z.of_nat (List.length (m_items m)) else row))
  | _ => (false, (m, []))
  end.

(** A list of root layers without children, as the nested-set numbering
    has it: each layer's interval starts right after the one before, and
    [relIndex] counts the layers. *)
Fixpoint flat_from (left_ rel : Z) (items : list LayerListItem) : Prop :=
  match items with
  | [] => True
  | item :: rest =>
      left item = left_ /\ left_ <= right item /\ relIndex item = rel
      /\ flat_from (right item + 1) (rel + 1) rest
  end.

End LayerModel.

(** ** desktop/docks/layerlistdock.cpp, the layer actions *)

Module LayerActions.
Import Qt LayerList LayerModel LayerDock.

(** The two features of [DP_Feature] that the dock asks about, and the
    others. *)
Inductive DP_Feature :=
| DP_FEATURE_EDIT_LAYERS
| DP_FEATURE_OWN_LAYERS
| DP_FEATURE_other (feature : Z).

(** The dock with the rest of what its actions read: the id of the
    selected layer, [canUseFeature] of the canvas's [AclState],
    [isExpanded] of the tree view, and whether the edit actions are set. *)
Record LayerListView := {
  dock : LayerListDock;
  m_selectedId : Z;
  canUseFeature : DP_Feature -> bool;
  isExpanded : QModelIndex -> bool;
  hasEditActions : bool
}.

(** The enabled state of the dock's controls. *)
Record Enabled := {
  addLayerAction : bool;
  addGroupAction : bool;
  lockButton : bool;
  duplicateLayerAction : bool;
  propertiesAction : bool;
  deleteLayerAction : bool;
  mergeLayerAction : bool
}.

(** [LayerList::updateLockedControls] (layerlistdock.cpp:188-213), from the
    state of the controls before the call; [None] when [canMergeCurrent]
    fails. *)
Definition updateLockedControls (v : LayerListView) (before : Enabled)
  : option Enabled :=
  let canEdit := canUseFeature v DP_FEATURE_EDIT_LAYERS in
  let ownLayers := canUseFeature v DP_FEATURE_OWN_LAYERS in
  let canAdd := canEdit || ownLayers in
  let enabled :=
    negb (m_selectedId v =? 0)
    && (canEdit
        || (ownLayers
            && (Z.shiftr (m_selectedId v) 8
                =? canvas_localUserId (m_canvas (dock v))))) in
  if hasEditActions v then
    match (if enabled then canMergeCurrent (dock v) else Some false) with
    | None => None
    | Some merge =>
        Some {| addLayerAction := canAdd; addGroupAction := canAdd;
                lockButton := enabled;
                duplicateLayerAction := enabled; propertiesAction := enabled;
                deleteLayerAction := enabled;
                mergeLayerAction := enabled && merge |}
    end
  else
    Some {| addLayerAction := addLayerAction before;
            addGroupAction := addGroupAction before;
            lockButton := enabled;
            duplicateLayerAction := duplicateLayerAction before;
            propertiesAction := propertiesAction before;
            deleteLayerAction := deleteLayerAction before;
            mergeLayerAction := mergeLayerAction before |}.

(** [LayerList::layerCreatorName] (layerlistdock.cpp:232-235), over
    [UserListModel::getUsername]. *)
Definition layerCreatorName {name : Type} (getUsername : Z -> name) (layerId : Z)
  : name :=
  getUsername (Z.land (Z.shiftr layerId 8) 0xff).

(** The messages of the dock: those of [Message], and two more of the
    [drawdance::Message::make...] factories. *)
Inductive LayerCommand :=
| message (msg : Message)
| makeLayerCreate (contextId id source target fill flags : Z) (title : QString)
| makeLayerAcl (contextId id flags : Z) (exclusive : list Z).

(** [LayerList::deleteSelected] (layerlistdock.cpp:348-361). *)
Definition deleteSelected (v : LayerListView) : option (list (list LayerCommand)) :=
  let index := currentSelection (dock v) in
  if negb (isValid index) then Some []
  else
    let contextId := canvas_localUserId (m_canvas (dock v)) in
    match data (layerlist (m_canvas (dock v))) index DisplayRole with
    | None => None
    | Some item =>
        Some [[message (makeUndoPoint contextId);
               message (makeLayerDelete contextId (id (value_item item)) 0)]]
    end.

Section Create.

(** The flags of [DP_MSG_LAYER_CREATE] and the lock bit of a layer ACL,
    declared outside the sources, and the translations [tr("Group")] and
    [tr("Layer")]. *)
Variables DP_MSG_LAYER_CREATE_FLAGS_GROUP DP_MSG_LAYER_CREATE_FLAGS_INTO : Z.
Variable DP_ACL_ALL_LOCKED_BIT : Z.
Variables tr_Group tr_Layer : QString.

(** [LayerList::addLayerOrGroup] (layerlistdock.cpp:281-311); [addLayer]
    and [addGroup] call it with [false] and [true]. *)
Definition addLayerOrGroup (v : LayerListView) (group : bool)
  : option (list (list LayerCommand)) :=
  let layers := layerlist (m_canvas (dock v)) in
  let id := getAvailableLayerId layers in
  if id =? 0 then Some []
  else
    let contextId := canvas_localUserId (m_canvas (dock v)) in
    match layerIndex layers (Z.land (m_selectedId v) 0xffff) with
    | None => None
    | Some index =>
        let flags := Z.land (if group then DP_MSG_LAYER_CREATE_FLAGS_GROUP else 0) 0xff in
        let target :=
          if isValid index then
            match data layers index IsGroupRole with
            | None => None
            | Some isGroup =>
                Some (Z.land (m_selectedId v) 0xffff,
                      if toBool isGroup && isExpanded v index
                      then Z.land (Z.lor flags DP_MSG_LAYER_CREATE_FLAGS_INTO) 0xff
                      else flags)
            end
          else Some (0, flags) in
        match target with
        | None => None
        | Some (targetId, flags) =>
            Some [[message (makeUndoPoint contextId);
                   makeLayerCreate contextId id 0 targetId 0 flags
                     (getAvailableLayerName layers
                        (if group then tr_Group else tr_Layer))]]
        end
    end.

Definition addLayer (v : LayerListView) := addLayerOrGroup v false.
Definition addGroup (v : LayerListView) := addLayerOrGroup v true.

(** [LayerList::duplicateLayer] (layerlistdock.cpp:313-335). *)
Definition duplicateLayer (v : LayerListView) : option (list (list LayerCommand)) :=
  let layers := layerlist (m_canvas (dock v)) in
  match data layers (currentSelection (dock v)) DisplayRole with
  | None => None
  | Some item =>
      let layer := value_item item in
      let id_ := getAvailableLayerId layers in
      if id_ =? 0 then Some []
      else
        let contextId := canvas_localUserId (m_canvas (dock v)) in
        Some [[message (makeUndoPoint contextId);
               makeLayerCreate contextId id_ (id layer) (id layer) 0 0
                 (getAvailableLayerName layers (title layer))]]
  end.

(** [LayerList::changeLayerAcl] (layerlistdock.cpp:256-266); [tier] is a
    [DP_AccessTier]. *)
Definition changeLayerAcl (v : LayerListView) (lock : bool) (tier : Z)
           (exclusive : list Z) : option (list (list LayerCommand)) :=
  let layers := layerlist (m_canvas (dock v)) in
  let index := currentSelection (dock v) in
  if isValid index then
    match data layers index IdRole with
    | None => None
    | Some layerId =>
        let flags :=
          Z.land (Z.lor (if lock then DP_ACL_ALL_LOCKED_BIT else 0)
                        (Z.land tier 0xff)) 0xff in
        Some [[makeLayerAcl (canvas_localUserId (m_canvas (dock v)))
                 (Z.land (variant_toInt layerId) 0xffff) flags exclusive]]
    end
  else Some [].

End Create.

(** [LayerList::isCurrentLayerLocked] (layerlistdock.cpp:478-493), over
    [PaintEngine::isCensored]. *)
Definition isCurrentLayerLocked (v : LayerListView) (isCensored : bool)
  : option bool :=
  let idx := currentSelection (dock v) in
  if isValid idx then
    match data (layerlist (m_canvas (dock v))) idx DisplayRole with
    | None => None
    | Some var =>
        let item := value_item var in
        Some (hidden item || group item
              || isLayerLocked (aclState (m_canvas (dock v))) (id item)
              || (censored item && isCensored))
    end
  else Some false.

End LayerActions.

(** Sample data for the layer actions. *)

Module ActionSample.
Import Qt LayerList LayerDock LayerActions.

(** A view of a dock with the given selected id and the two layer
    permissions; every group is expanded and the edit actions are set. *)
Definition view (d : LayerListDock) (selected : Z) (edit own : bool)
  : LayerListView :=
  {| dock := d; m_selectedId := selected;
     canUseFeature := fun f => match f with
                               | DP_FEATURE_EDIT_LAYERS => edit
                               | DP_FEATURE_OWN_LAYERS => own
                               | DP_FEATURE_other _ => false
                               end;
     isExpanded := fun _ => true; hasEditActions := true |}.

Definition all_off : Enabled :=
  {| addLayerAction := false; addGroupAction := false; lockButton := false;
     duplicateLayerAction := false; propertiesAction := false;
     deleteLayerAction := false; mergeLayerAction := false |}.

Definition all_on : Enabled :=
  {| addLayerAction := true; addGroupAction := true; lockButton := true;
     duplicateLayerAction := true; propertiesAction := true;
     deleteLayerAction := true; mergeLayerAction := true |}.

(** A dock on [Sample.abc] with nothing selected. *)
Definition dock_unselected : LayerListDock :=
  {| m_canvas := m_canvas Sample.dock_abc; selectedIndexes := [] |}.

End ActionSample.

(** ** libmsg/dpmsg/text_writer.c, the other fields *)

Module TextFields.
Import TextWriter.

(** [isspace] in the C locale. *)
Definition isspace (c : ascii) : bool :=
  (Qt.code c =? 32) || ((9 <=? Qt.code c) && (Qt.code c <=? 13)).

(** [contains_whitespace] (text_writer.c:192-200). *)
Fixpoint contains_whitespace (value : list ascii) : bool :=
  match value with
  | [] => false
  | c :: rest => if isspace c then true else contains_whitespace rest
  end.

Definition is_newline (c : ascii) : bool := Qt.code c =? 10.

(** The loop of [buffer_multiline_argument] (text_writer.c:220-234), at
    [end] with [rest] the characters from [value[end]] on. *)
Fixpoint multiline_loop (key value rest : list ascii) (start end_ : nat) : step :=
  match rest with
  | [] => buffer_line key (skipn start value) (end_ - start)
  | c :: rest' =>
      if is_newline c
      then buffer_line key (skipn start value) (end_ - start)
           &&> multiline_loop key value rest' (S end_) (S end_)
      else multiline_loop key value rest' start (S end_)
  end.

(** [buffer_multiline_argument] (text_writer.c:209-237). *)
Definition buffer_multiline_argument (key value : list ascii) : step :=
  fun writer =>
    let writer :=
      match multiline_output writer with
      | Some _ => writer
      | None => {| output := output writer;
                   multiline_output := Some DP_mem_output_new |}
      end in
    multiline_loop key value value 0 0 writer.

(** [DP_text_writer_write_string] (text_writer.c:239-251). *)
Definition DP_text_writer_write_string (key value : list ascii) : step :=
  if contains_whitespace value
  then buffer_multiline_argument key value
  else format_argument (" " :: key ++ "=" :: value)%char.

(** [DP_text_writer_write_bool] (text_writer.c:161-167). *)
Definition DP_text_writer_write_bool (key : list ascii) (value : bool) : step :=
  format_argument
    (" " :: key ++ "=" :: (if value then cstr "true" else cstr "false"))%char.

(** [DP_text_writer_write_int] (text_writer.c:169-174): [%d] of an
    [int]. *)
Definition DP_text_writer_write_int (key : list ascii) (value : Z) : step :=
  format_argument (" " :: key ++ "=" :: Qt.number value)%char.

(** [(unsigned int)value]. *)
Definition to_unsigned (value : Z) : Z := value mod 2 ^ 32.

(** [DP_text_writer_write_uint] (text_writer.c:176-182): [%u]. *)
Definition DP_text_writer_write_uint (key : list ascii) (value : Z) : step :=
  format_argument (" " :: key ++ "=" :: Qt.number (to_unsigned value))%char.

Definition hex_char (d : Z) : ascii :=
  ascii_of_N (Z.to_N (if d <? 10 then 48 + d else 87 + d)).

(** Hexadecimal digits of a non-negative number, most significant
    first. *)
Fixpoint hex_of (fuel : nat) (n : Z) (acc : list ascii) : list ascii :=
  match fuel with
  | O => acc
  | S f =>
      let acc' := hex_char (n mod 16) :: acc in
      if n <? 16 then acc' else hex_of f (n / 16) acc'
  end.

(** [printf("%0<width>x", n)] of an unsigned [n]: its hexadecimal digits,
    with zeros before them up to [width] characters. *)
Definition printf_0x (width : nat) (n : Z) : list ascii :=
  let digits := hex_of (S (Z.to_nat (Z.log2 n))) n [] in
  repeat "0"%char (width - List.length digits) ++ digits.

Definition ALPHA_MASK : Z := 0xff000000.
Definition RGB_MASK : Z := 0x00ffffff.

(** [DP_text_writer_write_argb_color] (text_writer.c:256-267). *)
Definition DP_text_writer_write_argb_color (key : list ascii) (bgra : Z) : step :=
  if Z.land bgra ALPHA_MASK =? ALPHA_MASK
  then format_argument
         (" " :: key ++ "=" :: "#" :: printf_0x 6 (Z.land bgra RGB_MASK))%char
  else format_argument (" " :: key ++ "=" :: "#" :: printf_0x 8 bgra)%char.

(** [DP_text_writer_write_id] (text_writer.c:361-366): [0x%04x] of an
    [int]. *)
Definition DP_text_writer_write_id (key : list ascii) (value : Z) : step :=
  format_argument
    (" " :: key ++ "=" :: "0" :: "x" :: printf_0x 4 (to_unsigned value))%char.

(** The loop of [DP_text_writer_write_flags] (text_writer.c:344-355) over
    the name and mask arguments that are left, up to the [NULL] name. *)
Fixpoint flags_loop (key : list ascii) (value : Z)
         (args : list (list ascii * Z)) (first : bool) : step :=
  match args with
  | [] => fun w => (true, w)
  | (name, mask) :: rest =>
      if negb (Z.land value mask =? 0)
      then (if first
            then format_argument (" " :: key ++ "=" :: name)%char
            else format_argument ("," :: name)%char)
           &&> flags_loop key value rest false
      else flags_loop key value rest first
  end.

(** [DP_text_writer_write_flags] (text_writer.c:332-359). *)
Definition DP_text_writer_write_flags (key : list ascii) (value : Z)
           (args : list (list ascii * Z)) : step :=
  flags_loop key value args true.

(** The loop of [WRITE_LIST] (text_writer.c:379-382), at [_i] with [n]
    items to go. *)
Fixpoint list_loop (fmt : Z -> list ascii) (value : list Z) (n _i : nat) : step :=
  match n with
  | O => fun w => (true, w)
  | S n' =>
      format_argument ("," :: fmt (nth _i value 0))%char
      &&> list_loop fmt value n' (S _i)
  end.

(** The [WRITE_LIST] macro (text_writer.c:369-385) for a format [fmt]. *)
Definition WRITE_LIST (fmt : Z -> list ascii) (key : list ascii)
           (value : list Z) (count : Z) : step :=
  if count =? 0
  then format_argument (" " :: key ++ ["="])%char
  else format_argument (" " :: key ++ "=" :: fmt (nth 0 value 0))%char
       &&> list_loop fmt value (Z.to_nat (count - 1)) 1.

(** [DP_text_writer_write_id_list] (text_writer.c:387-391). *)
Definition DP_text_writer_write_id_list :=
  WRITE_LIST (fun v => "0" :: "x" :: printf_0x 4 (to_unsigned v))%char.

(** [DP_text_writer_write_uint_list], [..._uint8_list] and
    [..._uint16_list] (text_writer.c:393-409). *)
Definition DP_text_writer_write_uint_list :=
  WRITE_LIST (fun v => Qt.number (to_unsigned v)).

(** [DP_text_writer_raw_write] and [DP_text_writer_raw_print]
    (text_writer.c:412-422); [None] is the [NULL] string. *)
Definition DP_text_writer_raw_write (buffer : list ascii) (size : nat) : step :=
  on_output (fun o => DP_output_write o buffer size).

Definition DP_text_writer_raw_print (str : option (list ascii)) : step :=
  match str with
  | Some s => DP_text_writer_raw_write s (List.length s)
  | None => fun w => (true, w)
  end.

Section Names.

(** [DP_message_name] (dpmsg/message.h, not among the sources). *)
Variable DP_message_name : DP_Message -> list ascii.

(** [DP_text_writer_start_message] (text_writer.c:121-127). *)
Definition DP_text_writer_start_message (msg : DP_Message) : step :=
  on_output (fun o => DP_output_print
                        o (Qt.number (DP_message_context_id msg)
                           ++ " "%char :: DP_message_name msg)).

End Names.

(** A [JSON_Value] of parson by its [json_type], with its numbers in a
    type [double]; the members of an object or array value are not read
    by the writer. *)
Inductive JSON_Value (double : Type) :=
| JSONError
| JSONNull
| JSONString (s : list ascii)
| JSONNumber (n : double)
| JSONObject
| JSONArray
| JSONBoolean (b : bool).

Arguments JSONError {double}.
Arguments JSONNull {double}.
Arguments JSONString {double} s.
Arguments JSONNumber {double} n.
Arguments JSONObject {double}.
Arguments JSONArray {double}.
Arguments JSONBoolean {double} b.

Section Header.

(** The numbers of a header and their text under [%f]. *)
Variable double : Type.
Variable format_f : double -> list ascii.

(** [print_header_field] (text_writer.c:61-81), given the text of the
    value. *)
Definition print_header_field (key text : list ascii) : step :=
  fun w =>
    let (ok, w1) :=
      (on_output (fun o => DP_output_write o [ "!"%char ] 1)
       &&> on_output (fun o => DP_output_print o key)
       &&> on_output (fun o => DP_output_write o [ "="%char ] 1)) w in
    if negb ok then (false, w1)
    else (on_output (fun o => DP_output_print o text)
          &&> on_output (fun o => DP_output_write o [ "010"%char ] 1)) w1.

(** The text of a header value, for the types that have one. *)
Definition header_text (value : JSON_Value double) : option (list ascii) :=
  match value with
  | JSONNull => Some (cstr "null")
  | JSONString s => Some s
  | JSONNumber n => Some (format_f n)
  | JSONBoolean b => Some (if b then cstr "true" else cstr "false")
  | _ => None
  end.

(** [write_header_field] (text_writer.c:83-100); the error message of the
    default case is not kept. *)
Definition write_header_field (key : list ascii) (value : JSON_Value double)
  : step :=
  match header_text value with
  | Some text => print_header_field key text
  | None => fun w => (false, w)
  end.

(** The loop of [DP_text_writer_write_header] (text_writer.c:109-115). *)
Fixpoint header_loop (header : list (list ascii * JSON_Value double)) : step :=
  match header with
  | [] => fun w => (true, w)
  | (key, value) :: rest =>
      fun w =>
        let (ok, w') := write_header_field key value w in
        if ok then header_loop rest w' else (false, w')
  end.

(** [DP_text_writer_write_header] (text_writer.c:102-118), over the
    members of the header object in order. *)
Definition DP_text_writer_write_header
           (header : list (list ascii * JSON_Value double)) : step :=
  fun w =>
    let (ok, w') := header_loop header w in
    if ok then on_output (fun o => DP_output_write o [ "010"%char ] 1) w'
    else (false, w').

End Header.

(** The lines of a text joined by line feeds. *)
Fixpoint join_lines (lines : list (list ascii)) : list ascii :=
  match lines with
  | [] => []
  | [line] => line
  | line :: rest => line ++ "010"%char :: join_lines rest
  end.

(** Texts joined by commas. *)
Fixpoint join_commas (items : list (list ascii)) : list ascii :=
  match items with
  | [] => []
  | [item] => item
  | item :: rest => item ++ ","%char :: join_commas rest
  end.

(** The value of a string of hexadecimal digits. *)
Definition hex_digit_value (c : ascii) : Z :=
  if Qt.code c <? 58 then Qt.code c - 48 else Qt.code c - 87.

Definition hex_value (s : list ascii) : Z :=
  fold_left (fun acc c => 16 * acc + hex_digit_value c) s 0.

Definition is_hex_digit (c : ascii) : bool :=
  ((48 <=? Qt.code c) && (Qt.code c <=? 57))
  || ((97 <=? Qt.code c) && (Qt.code c <=? 102)).

(** A line holds no line feed. *)
Definition no_newline (line : list ascii) : Prop :=
  forallb (fun c => negb (is_newline c)) line = true.

(** The line of one header field, [!key=text] and a line feed, for a
    value that has a text. *)
Definition header_line {double : Type} (format_f : double -> list ascii)
           (field : list ascii * JSON_Value double) : list ascii :=
  match header_text double format_f (snd field) with
  | Some text => ("!" :: fst field ++ "=" :: text ++ [ "010" ])%char
  | None => []
  end.

End TextFields.

(** ** libclient/brushes/pixelbrushpainter.cpp *)

Module PixelBrush.
Import QArith.
Local Open Scope Z_scope.

(** [qreal] is [double]; the values the mask functions compute are
    quarters of integers below 2^33 for a diameter up to 46340, which a
    [double] holds exactly, so the rationals stand for them. *)
Definition qreal := Q.

(** [square<T>] (pixelbrushpainter.cpp:24) at [int] and at [qreal]; the
    product of [int]s is written without wrap-around, which is what it is
    up to 46340. *)
Definition square_int (x : Z) : Z := x * x.
Definition square (x : qreal) : qreal := (x * x)%Q.

(** A [paintcore::BrushMask] (core/brushmask.h, not among the sources),
    by the arguments of its constructor. *)
Record BrushMask := {
  mask_diameter : Z;
  mask_data : list Z
}.

(** [*ptr = value] for a pointer [ptr] places into [data]. *)
Fixpoint poke (ptr : nat) (value : Z) (data : list Z) : list Z :=
  match data, ptr with
  | [], _ => []
  | _ :: rest, O => value :: rest
  | first :: rest, S ptr' => first :: poke ptr' value rest
  end.

(** The values of [i] in [for(int i=0;i<n;++i)]. *)
Definition range (n : Z) : list Z := map Z.of_nat (seq 0 (Z.to_nat n)).

Definition offset : qreal := (1 # 2)%Q.

(** The inner loop of [makeRoundPixelBrushMask]
    (pixelbrushpainter.cpp:37-42) over the values [xs] of [x]. *)
Fixpoint x_loop (xs : list Z) (radius rr yy : qreal) (opacity : Z)
         (ptr : nat) (data : list Z) : nat * list Z :=
  match xs with
  | [] => (ptr, data)
  | x :: xs' =>
      let xx := square (inject_Z x - radius + offset)%Q in
      let data' := if Qle_bool (yy + xx)%Q rr then poke ptr opacity data
                   else data in
      x_loop xs' radius rr yy opacity (S ptr) data'
  end.

(** The outer loop (pixelbrushpainter.cpp:35-43) over the values [ys] of
    [y]. *)
Fixpoint y_loop (ys : list Z) (diameter : Z) (radius rr : qreal) (opacity : Z)
         (ptr : nat) (data : list Z) : nat * list Z :=
  match ys with
  | [] => (ptr, data)
  | y :: ys' =>
      let yy := square (inject_Z y - radius + offset)%Q in
      let (ptr', data') :=
        x_loop (range diameter) radius rr yy opacity ptr data in
      y_loop ys' diameter radius rr opacity ptr' data'
  end.

(** [makeRoundPixelBrushMask] (pixelbrushpainter.cpp:26-45). *)
Definition makeRoundPixelBrushMask (diameter opacity : Z) : BrushMask :=
  let radius := (inject_Z diameter / 2)%Q in
  let rr := square radius in
  let data := repeat 0 (Z.to_nat (square_int diameter)) in
  {| mask_diameter := diameter;
     mask_data := snd (y_loop (range diameter) diameter radius rr opacity
                              0%nat data) |}.

(** [makeSquarePixelBrushMask] (pixelbrushpainter.cpp:47-50). *)
Definition makeSquarePixelBrushMask (diameter opacity : Z) : BrushMask :=
  {| mask_diameter := diameter;
     mask_data := repeat opacity (Z.to_nat (square_int diameter)) |}.

(** The byte of a mask at column [x] of row [y]. *)
Definition pixel (mask : BrushMask) (x y : Z) : Z :=
  nth (Z.to_nat (y * mask_diameter mask + x)) (mask_data mask) 0.

End PixelBrush.

(** ** libclient/export/canvassaverrunnable.cpp *)

Module CanvasSaver.
Import Qt.

(** [DP_SaveResult] (dpengine/save.h, not among the sources): the
    enumerators that [run] names, and any other value. *)
Inductive DP_SaveResult :=
| DP_SAVE_RESULT_SUCCESS
| DP_SAVE_RESULT_BAD_ARGUMENTS
| DP_SAVE_RESULT_NO_EXTENSION
| DP_SAVE_RESULT_UNKNOWN_FORMAT
| DP_SAVE_RESULT_FLATTEN_ERROR
| DP_SAVE_RESULT_OPEN_ERROR
| DP_SAVE_RESULT_WRITE_ERROR
| DP_SAVE_RESULT_other (value : Z).

Definition is_success (result : DP_SaveResult) : bool :=
  match result with
  | DP_SAVE_RESULT_SUCCESS => true
  | _ => false
  end.

(** What [run] does to the files, in order: [DP_save] to a path,
    [QFile::remove] and [QFile::rename]. *)
Inductive FileOp :=
| Save (path : QString)
| Remove (path : QString)
| Rename (oldName newName : QString).

Definition isEmpty (s : QString) : bool :=
  match s with
  | [] => true
  | _ => false
  end.

Section Run.

(** [tr] and [QString::arg] with two arguments. *)
Variable tr : string -> QString.
Variable arg : QString -> QString -> QString -> QString.

(** The result of [save] (canvassaverrunnable.cpp:47-53) at a path, and
    of [QFile::rename]. *)
Variable save : QString -> DP_SaveResult.
Variable rename : QString -> QString -> bool.

(** The message that the [switch] (canvassaverrunnable.cpp:86-111) sends
    with [saveComplete]. *)
Definition result_message (result : DP_SaveResult) : QString :=
  match result with
  | DP_SAVE_RESULT_SUCCESS => []
  | DP_SAVE_RESULT_BAD_ARGUMENTS =>
      tr "Bad arguments, this is probably a bug in Drawpile."
  | DP_SAVE_RESULT_NO_EXTENSION => tr "No file extension given."
  | DP_SAVE_RESULT_UNKNOWN_FORMAT => tr "Unsupported format."
  | DP_SAVE_RESULT_FLATTEN_ERROR =>
      tr "Couldn't merge the canvas into a flat image."
  | DP_SAVE_RESULT_OPEN_ERROR => tr "Couldn't open file for writing."
  | DP_SAVE_RESULT_WRITE_ERROR =>
      tr "Save operation failed, but the file might have been partially written."
  | DP_SAVE_RESULT_other _ => tr "Unknown error."
  end.

(** [CanvasSaverRunnable::run] (canvassaverrunnable.cpp:64-112), given
    the path that [makeTemporaryPath] returned, empty when it could not
    open a temporary file: the file operations in order, and the emitted
    [saveComplete] signals. *)
Definition run (m_filename tempPath : QString) : list FileOp * list QString :=
  if isEmpty tempPath then
    ([Save m_filename], [result_message (save m_filename)])
  else
    let result := save tempPath in
    if negb (is_success result) then
      ([Save tempPath; Remove tempPath], [result_message result])
    else if negb (rename tempPath m_filename) then
      ([Save tempPath; Remove m_filename; Rename tempPath m_filename],
       [arg (tr "Error moving temporary file %1 to %2.") tempPath m_filename])
    else
      ([Save tempPath; Remove m_filename; Rename tempPath m_filename],
       [result_message result]).

(** The two parts of what [run] does. *)
Definition run_files (m_filename tempPath : QString) : list FileOp :=
  fst (run m_filename tempPath).

Definition run_signals (m_filename tempPath : QString) : list QString :=
  snd (run m_filename tempPath).

End Run.

(** The paths an operation names. *)
Definition touches (op : FileOp) (path : QString) : Prop :=
  match op with
  | Save p | Remove p => p = path
  | Rename a b => a = path \/ b = path
  end.

End CanvasSaver.

(** ** client/mainwindow.cpp: the name a document is saved under *)

Module MainWindow.
Import Qt.

Definition size (s : QString) : Z := Z.of_nat (List.length s).

Fixpoint lastIndexOf_from (c : ascii) (s : QString) (i found : Z) : Z :=
  match s with
  | [] => found
  | x :: rest =>
      lastIndexOf_from c rest (i + 1) (if Ascii.eqb x c then i else found)
  end.

(** [QString::lastIndexOf(QChar)]: the place of the last [c], or -1. *)
Definition lastIndexOf (c : ascii) (s : QString) : Z :=
  lastIndexOf_from c s 0 (-1).

(** [QString::left(n)]: the whole string when [n] is negative or not less
    than its size. *)
Definition left (n : Z) (s : QString) : QString :=
  if (n <? 0) || (size s <=? n) then s else firstn (Z.to_nat n) s.

Fixpoint indexOf_str_from (str s : QString) (i : Z) : Z :=
  match s with
  | [] => if startsWith [] str then i else -1
  | _ :: rest => if startsWith s str then i else indexOf_str_from str rest (i + 1)
  end.

(** [QString::indexOf(const QString &)] from the start: the place of the
    first occurrence of [str], or -1. *)
Definition indexOf_str (str s : QString) : Z := indexOf_str_from str s 0.

Fixpoint find_char (c : ascii) (s : QString) (i : Z) : Z :=
  match s with
  | [] => -1
  | x :: rest => if Ascii.eqb x c then i else find_char c rest (i + 1)
  end.

(** [QString::indexOf(QChar, from)]: a negative [from] counts from the
    end. *)
Definition indexOf_char (c : ascii) (from : Z) (s : QString) : Z :=
  let from := if from <? 0 then Z.max (from + size s) 0 else from in
  find_char c (skipn (Z.to_nat from) s) from.

(** [QString::mid(position, n)]. *)
Definition mid (position n : Z) (s : QString) : QString :=
  if position >? size s then []
  else if position <? 0 then
    if (n <? 0) || (n + position >=? size s) then s
    else if n + position <=? 0 then []
    else firstn (Z.to_nat (n + position)) s
  else
    let n := if (n <? 0) || (n >? size s - position) then size s - position
             else n in
    firstn (Z.to_nat n) (skipn (Z.to_nat position) s).

(** [QFileInfo::fileName] and [QFileInfo::suffix]: the part of the path
    after its last slash, and what follows the last dot of that part. *)
Definition fileName (path : QString) : QString :=
  skipn (Z.to_nat (lastIndexOf "/" path + 1)) path.

Definition suffix (path : QString) : QString :=
  let name := fileName path in
  let dot := lastIndexOf "." name in
  if dot <? 0 then [] else skipn (Z.to_nat (dot + 1)) name.

Definition is_empty (s : QString) : bool :=
  match s with
  | [] => true
  | _ => false
  end.

(** The step of [MainWindow::saveas] that sets a missing suffix
    (mainwindow.cpp:723-738), from the name and the filter that the file
    dialog gave; [saveas] takes it for a name that is not empty. *)
Definition saveas_suffix (file selfilter : QString) (needSaveOra : bool)
  : QString :=
  if is_empty (suffix file) then
    if is_empty selfilter then
      if needSaveOra then file ++ qs ".ora" else file ++ qs ".png"
    else
      let i := indexOf_str (qs "*.") selfilter + 1 in
      let i2 := indexOf_char ")" i selfilter in
      file ++ mid i (i2 - i) selfilter
  else file.

(** What the user does with the dialog of [confirmFlatten]. *)
Inductive Choice := Cancel | Flatten | SaveOra.

(** [MainWindow::confirmFlatten] (mainwindow.cpp:652-669): its result and
    the file name it leaves in [file]. *)
Definition confirmFlatten (choice : Choice) (file : QString) : bool * QString :=
  match choice with
  | Cancel => (false, file)
  | Flatten => (true, file)
  | SaveOra => (true, left (lastIndexOf "." file) file ++ qs ".ora")
  end.

End MainWindow.

(** * Properties *)

(** ** Lists, vectors and bits *)

Module QtFacts.
Import Qt.

Lemma remove_at_middle {A} (l1 l2 : list A) (x : A) :
  remove_at (List.length l1) (l1 ++ x :: l2) = l1 ++ l2.
Proof.
  unfold remove_at. induction l1 as [| a l1 IH]; [reflexivity |].
  simpl in *. now rewrite IH.
Qed.

Lemma firstn_length_app {A} (l1 l2 : list A) :
  firstn (List.length l1) (l1 ++ l2) = l1.
Proof.
  rewrite firstn_app, Nat.sub_diag, firstn_all. simpl. apply app_nil_r.
Qed.

Lemma skipn_length_app {A} (l1 l2 : list A) :
  skipn (List.length l1) (l1 ++ l2) = l2.
Proof.
  rewrite skipn_app, skipn_all, Nat.sub_diag. reflexivity.
Qed.

Lemma nth_error_middle {A} (l1 l2 : list A) (x : A) :
  nth_error (l1 ++ x :: l2) (List.length l1) = Some x.
Proof.
  rewrite nth_error_app2 by lia. rewrite Nat.sub_diag. reflexivity.
Qed.

(** Moving an item towards the front: it jumps over the block [l2]. *)
Lemma QVector_move_up {A} (l1 l2 l3 : list A) (x : A) :
  QVector_move (l1 ++ l2 ++ x :: l3)
               (List.length l1 + List.length l2) (List.length l1)
  = l1 ++ x :: l2 ++ l3.
Proof.
  unfold QVector_move.
  destruct (Nat.eqb_spec (List.length l1 + List.length l2) (List.length l1)) as [E | E].
  - destruct l2; [reflexivity | simpl in E; lia].
  - rewrite app_assoc, <- length_app, nth_error_middle, remove_at_middle.
    rewrite <- !app_assoc.
    replace (Nat.ltb _ _) with true.
    + rewrite firstn_length_app, skipn_length_app. reflexivity.
    + symmetry. apply Nat.ltb_lt. rewrite !length_app. simpl. lia.
Qed.

Lemma remove_at_perm {A} (v : list A) (n : nat) (x : A) :
  nth_error v n = Some x -> Permutation v (x :: remove_at n v).
Proof.
  intros H. apply nth_error_split in H as (l1 & l2 & -> & <-).
  rewrite remove_at_middle. symmetry. apply Permutation_middle.
Qed.

(** [QVector::move] reorders: nothing is lost, nothing is added. *)
Lemma QVector_move_perm {A} (v : list A) (from to : nat) :
  Permutation (QVector_move v from to) v.
Proof.
  unfold QVector_move.
  destruct (Nat.eqb from to); [reflexivity |].
  destruct (nth_error v from) as [x |] eqn:E; [| reflexivity].
  destruct (Nat.ltb to (List.length v)); [| reflexivity].
  transitivity (x :: remove_at from v).
  - rewrite <- (firstn_skipn to (remove_at from v)) at 3.
    symmetry. apply Permutation_middle.
  - symmetry. apply remove_at_perm. assumption.
Qed.

(** A number below [2^k] has no bit at position [k] or higher. *)
Lemma testbit_small (a k n : Z) :
  0 <= a < 2 ^ k -> k <= n -> Z.testbit a n = false.
Proof.
  intros [H0 H1] Hn.
  destruct (Z.eq_dec a 0) as [-> | Hz]; [apply Z.bits_0 |].
  apply Z.bits_above_log2; [assumption |].
  assert (Z.log2 a < k) by (apply Z.log2_lt_pow2; lia).
  lia.
Qed.

Lemma testbit_ff00 (n : Z) :
  Z.testbit 0xff00 n = (8 <=? n) && (n <? 16).
Proof.
  change 0xff00 with (Z.shiftl (Z.ones 8) 8).
  destruct (Z.leb_spec 0 n) as [Hn | Hn].
  - rewrite Z.shiftl_spec by assumption.
    rewrite Z.testbit_ones by lia.
    destruct (Z.leb_spec 0 (n - 8)), (Z.leb_spec 8 n),
             (Z.ltb_spec (n - 8) 8), (Z.ltb_spec n 16); simpl; lia.
  - rewrite Z.testbit_neg_r by assumption.
    destruct (Z.leb_spec 8 n); simpl; lia.
Qed.

(** The high byte of [(u << 8) | i] is [u]. *)
Lemma high_byte_of_id (u i : Z) :
  0 <= u < 256 -> 0 <= i < 256 ->
  Z.land (Z.lor (Z.shiftl u 8) i) 0xff00 = Z.shiftl u 8.
Proof.
  intros Hu Hi. apply Z.bits_inj'. intros n Hn.
  rewrite Z.land_spec, Z.lor_spec, testbit_ff00, Z.shiftl_spec by assumption.
  destruct (Z.leb_spec 8 n) as [H8 | H8]; simpl.
  - rewrite (testbit_small i 8 n) by (change (2 ^ 8) with 256; lia).
    rewrite orb_false_r.
    destruct (Z.ltb_spec n 16); [apply andb_true_r |].
    rewrite andb_false_r. symmetry.
    apply (testbit_small u 8); change (2 ^ 8) with 256; lia.
  - rewrite andb_false_r. symmetry. apply Z.testbit_neg_r. lia.
Qed.

Lemma land_ff_small (u : Z) : 0 <= u < 256 -> Z.land u 0xff = u.
Proof.
  intros H. change 0xff with (Z.ones 8).
  rewrite Z.land_ones by lia. apply Z.mod_small. change (2 ^ 8) with 256. lia.
Qed.

(** Whatever [x] is, [(x & 0xff00) >> 8] fits a byte. *)
Lemma masked_high_byte_range (x : Z) :
  0 <= Z.shiftr (Z.land x 0xff00) 8 < 256.
Proof.
  assert (H : Z.shiftr (Z.land x 0xff00) 8 = Z.land (Z.shiftr x 8) 0xff).
  { apply Z.bits_inj'. intros n Hn.
    rewrite Z.shiftr_spec, !Z.land_spec, Z.shiftr_spec, testbit_ff00 by assumption.
    change 0xff with (Z.ones 8). rewrite Z.testbit_ones by lia.
    f_equal.
    destruct (Z.leb_spec 8 (n + 8)), (Z.ltb_spec (n + 8) 16),
             (Z.leb_spec 0 n), (Z.ltb_spec n 8); simpl; lia. }
  rewrite H. change 0xff with (Z.ones 8). rewrite Z.land_ones by lia.
  change (2 ^ 8) with 256. apply Z.mod_pos_bound. lia.
Qed.

Lemma contains_In (l : list Z) (x : Z) : contains l x = true <-> In x l.
Proof.
  unfold contains. rewrite existsb_exists. split.
  - intros (y & Hy & E). apply Z.eqb_eq in E. subst. assumption.
  - intros H. exists x. split; [assumption | apply Z.eqb_refl].
Qed.

End QtFacts.

(** ** The layer list model *)

Module LayerListFacts.
Import Qt LayerList QtFacts.

Lemma id_pairs_app (l1 l2 : list LayerListItem) :
  id_pairs (l1 ++ l2) = id_pairs l1 ++ id_pairs l2.
Proof. apply flat_map_app. Qed.

Lemma id_pairs_length (l : list LayerListItem) :
  List.length (id_pairs l) = (2 * List.length l)%nat.
Proof. induction l; simpl in *; lia. Qed.

(** Reversing the [id, 0] pairs gives [0, id] pairs in reverse order. *)
Lemma rev_id_pairs (l : list LayerListItem) :
  rev (id_pairs l) = flat_map (fun li => [0; id li]) (rev l).
Proof.
  induction l as [| a l IH]; [reflexivity |].
  simpl. rewrite flat_map_app, <- IH. simpl.
  rewrite <- app_assoc. reflexivity.
Qed.

(** The two [move] calls of [handleMoveLayer], when the layer goes
    towards the front of the list: the pair moves as a whole. *)
Lemma move_pair_up (l1 l2 l3 : list LayerListItem) (x : LayerListItem) :
  let old := (List.length l1 + List.length l2)%nat in
  let adj := List.length l1 in
  QVector_move
    (QVector_move (id_pairs (l1 ++ l2 ++ x :: l3)) (2 * old) (2 * adj))
    (2 * old + 1) (2 * adj + 1)
  = id_pairs (l1 ++ x :: l2 ++ l3).
Proof.
  intros old adj. subst old adj.
  rewrite !id_pairs_app. simpl id_pairs at 3.
  replace (2 * (List.length l1 + List.length l2))%nat
    with (List.length (id_pairs l1) + List.length (id_pairs l2))%nat
    by (rewrite !id_pairs_length; lia).
  replace (2 * List.length l1)%nat with (List.length (id_pairs l1))
    by (rewrite id_pairs_length; lia).
  cbn [flat_map app].
  rewrite QVector_move_up.
  replace (id_pairs l1 ++ id x :: id_pairs l2 ++ 0 :: id_pairs l3)
    with ((id_pairs l1 ++ [id x]) ++ id_pairs l2 ++ 0 :: id_pairs l3)
    by (rewrite <- app_assoc; reflexivity).
  replace (List.length (id_pairs l1) + List.length (id_pairs l2) + 1)%nat
    with (List.length (id_pairs l1 ++ [id x]) + List.length (id_pairs l2))%nat
    by (rewrite length_app; simpl; lia).
  replace (List.length (id_pairs l1) + 1)%nat
    with (List.length (id_pairs l1 ++ [id x]))
    by (rewrite length_app; simpl; lia).
  rewrite QVector_move_up.
  change (id_pairs (x :: l2 ++ l3)) with (id x :: 0 :: id_pairs (l2 ++ l3)).
  rewrite id_pairs_app, <- app_assoc. reflexivity.
Qed.

(** A list cut at two positions [adj <= old]. *)
Lemma split_at_two {A} (l : list A) (adj old : nat) :
  (adj <= old < List.length l)%nat ->
  exists l1 l2 x l3,
    l = l1 ++ l2 ++ x :: l3
    /\ List.length l1 = adj /\ (List.length l1 + List.length l2)%nat = old.
Proof.
  intros H.
  destruct (nth_error l old) as [x |] eqn:E;
    [| apply nth_error_None in E; lia].
  apply nth_error_split in E as (l12 & l3 & -> & Hlen).
  exists (firstn adj l12), (skipn adj l12), x, l3.
  rewrite app_assoc, firstn_skipn. split; [reflexivity |].
  rewrite length_firstn, length_skipn. lia.
Qed.

Lemma handleMoveLayer_model (m : LayerListModel) (oldIdx newIdx : Z) :
  fst (handleMoveLayer m oldIdx newIdx) = m.
Proof.
  unfold handleMoveLayer.
  destruct (_ <? 2); [reflexivity |].
  destruct (_ || _); reflexivity.
Qed.

(** C5.  A reorder whose source index is out of range, or a layer list
    with fewer than two layers, makes [handleMoveLayer] emit no command
    and leave the layer list model as it was. *)
Theorem handleMoveLayer_rejects (m : LayerListModel) (oldIdx newIdx : Z) :
  let count := Z.of_nat (List.length (m_items m)) in
  count < 2 \/ oldIdx < 0 \/ count <= oldIdx ->
  handleMoveLayer m oldIdx newIdx = (m, []).
Proof.
  intros count H. unfold handleMoveLayer. fold count.
  destruct (Z.ltb_spec count 2) as [| H2]; [reflexivity |].
  destruct (Z.ltb_spec oldIdx 0) as [| H0]; [reflexivity |].
  destruct (Z.geb_spec oldIdx count) as [| Hc]; [reflexivity | lia].
Qed.

Lemma handleMoveLayer_rejects_witness :
  handleMoveLayer Sample.abc 3 0 = (Sample.abc, []).
Proof.
  apply (handleMoveLayer_rejects Sample.abc 3 0). simpl. lia.
Defined.

(** C1, as the code has it.  With at least two layers and both indices
    in range, [handleMoveLayer] emits exactly one layer-order command,
    and its list is a rearrangement of the [id, 0] pairs of the current
    layers: no id is dropped or duplicated.  When the adjusted new index
    is not above the old one, the list is, bottom layer first, a 0 entry
    followed by the id for each layer of the display order in which the
    moved layer sits at the adjusted new index and the other layers keep
    their order. *)
Theorem handleMoveLayer_order (m : LayerListModel) (oldIdx newIdx : Z) :
  let items := m_items m in
  let count := Z.of_nat (List.length items) in
  let adjustedNewIdx := if newIdx >? oldIdx then newIdx - 1 else newIdx in
  2 <= count -> 0 <= oldIdx < count -> 0 <= adjustedNewIdx < count ->
  exists layers,
    handleMoveLayer m oldIdx newIdx
    = (m, [write_layerorder (localUserId (m_aclstate m)) layers])
    /\ Permutation layers (id_pairs items)
    /\ (adjustedNewIdx <= oldIdx ->
        exists order,
          layers = flat_map (fun li => [0; id li]) (rev order)
          /\ nth_error order (Z.to_nat adjustedNewIdx)
             = nth_error items (Z.to_nat oldIdx)
          /\ remove_at (Z.to_nat adjustedNewIdx) order
             = remove_at (Z.to_nat oldIdx) items
          /\ Permutation order items).
Proof.
  intros items count adj Hcount Hold Hadj.
  unfold handleMoveLayer. fold items count adj.
  destruct (Z.ltb_spec count 2) as [| _]; [lia |].
  destruct (Z.ltb_spec oldIdx 0) as [| _]; [lia |].
  destruct (Z.geb_spec oldIdx count) as [| _]; [lia |].
  destruct (Z.ltb_spec adj 0) as [| _]; [lia |].
  destruct (Z.geb_spec adj count) as [| _]; [lia |].
  cbn [orb]. eexists. split; [reflexivity |]. split.
  - rewrite <- Permutation_rev, !QVector_move_perm. reflexivity.
  - intros Hup.
    destruct (split_at_two items (Z.to_nat adj) (Z.to_nat oldIdx))
      as (l1 & l2 & x & l3 & E & H1 & H2); [subst count; lia |].
    exists (l1 ++ x :: l2 ++ l3).
    replace (Z.to_nat (2 * oldIdx)) with (2 * Z.to_nat oldIdx)%nat by lia.
    replace (Z.to_nat (2 * adj)) with (2 * Z.to_nat adj)%nat by lia.
    replace (Z.to_nat (2 * oldIdx + 1)) with (2 * Z.to_nat oldIdx + 1)%nat by lia.
    replace (Z.to_nat (2 * adj + 1)) with (2 * Z.to_nat adj + 1)%nat by lia.
    rewrite E, <- H1, <- H2, move_pair_up, rev_id_pairs.
    split; [reflexivity |]. split; [| split].
    + rewrite nth_error_middle, app_assoc, <- length_app.
      now rewrite nth_error_middle.
    + rewrite remove_at_middle, <- length_app, (app_assoc l1 l2 (x :: l3)).
      now rewrite remove_at_middle, app_assoc.
    + apply Permutation_app_head. apply Permutation_middle.
Qed.

Lemma handleMoveLayer_order_witness :
  exists layers,
    handleMoveLayer Sample.abc 2 0 = (Sample.abc, [write_layerorder 1 layers])
    /\ Permutation layers (id_pairs (m_items Sample.abc)).
Proof.
  destruct (handleMoveLayer_order Sample.abc 2 0) as (layers & H & P & _);
    [simpl; lia | simpl; lia | simpl; lia |].
  exists layers. split; assumption.
Defined.

(** C1, as stated, fails: moving the bottom layer of A, B, C to the top
    emits 0 then the id for each layer, not the id then 0. *)
Lemma handleMoveLayer_not_id_then_zero :
  snd (handleMoveLayer Sample.abc 2 0)
  <> [write_layerorder 1 (Stated.layer_order (m_items Sample.abc) 2 0)].
Proof. vm_compute. discriminate. Qed.

(** Moving a layer towards the end of the list, here the top layer A to
    the bottom: the second [move] takes the id of the next layer instead
    of the moved layer's 0 entry, and the emitted list is neither the
    order B, C, A nor made of pairs. *)
Example handleMoveLayer_towards_end :
  snd (handleMoveLayer Sample.abc 0 3)
  = [write_layerorder 1 [0x0102; 0; 0x0101; 0x0103; 0; 0]].
Proof. reflexivity. Qed.

Lemma first_free_found (prefix : Z) (takenIds : list Z) (n : nat) (i k : Z) :
  i <= k < i + Z.of_nat n ->
  (forall j, i <= j < k -> contains takenIds (Z.lor prefix j) = true) ->
  contains takenIds (Z.lor prefix k) = false ->
  first_free prefix takenIds n i = Z.lor prefix k.
Proof.
  revert i. induction n as [| n IH]; intros i Hk Hbelow Hfree; [lia |].
  simpl. destruct (Z.eq_dec i k) as [-> | Hne].
  - now rewrite Hfree.
  - rewrite Hbelow by lia. simpl. apply IH; [lia | | assumption].
    intros j Hj. apply Hbelow. lia.
Qed.

Lemma first_free_none (prefix : Z) (takenIds : list Z) (n : nat) (i : Z) :
  (forall j, i <= j < i + Z.of_nat n -> contains takenIds (Z.lor prefix j) = true) ->
  first_free prefix takenIds n i = 0.
Proof.
  revert i. induction n as [| n IH]; intros i H; [reflexivity |].
  simpl. rewrite H by lia. simpl. apply IH. intros j Hj. apply H. lia.
Qed.

Lemma first_free_shape (prefix : Z) (takenIds : list Z) (n : nat) (i : Z) :
  first_free prefix takenIds n i = 0
  \/ exists k, i <= k < i + Z.of_nat n
               /\ first_free prefix takenIds n i = Z.lor prefix k.
Proof.
  revert i. induction n as [| n IH]; intros i; [now left |].
  simpl. destruct (contains takenIds (Z.lor prefix i)); simpl.
  - destruct (IH (i + 1)) as [H | (k & Hk & H)]; [now left |].
    right. exists k. split; [lia | assumption].
  - right. exists i. split; [lia | reflexivity].
Qed.

(** The taken ids of [getAvailableLayerId] hold [(u << 8) | i] exactly
    when a layer has that id. *)
Lemma taken_iff (m : LayerListModel) (i : Z) :
  let u := localUserId (m_aclstate m) in
  let prefix := Z.shiftl u 8 in
  0 <= u < 256 -> 0 <= i < 256 ->
  contains (map id (filter (fun item => Z.land (id item) 0xff00 =? prefix)
                           (m_items m)))
           (Z.lor prefix i) = true
  <-> exists item, In item (m_items m) /\ id item = Z.lor prefix i.
Proof.
  intros u prefix Hu Hi. rewrite contains_In, in_map_iff. split.
  - intros (item & E & Hin). apply filter_In in Hin as [Hin _]. eauto.
  - intros (item & Hin & E). exists item. split; [assumption |].
    apply filter_In. split; [assumption |].
    apply Z.eqb_eq. rewrite E. now apply high_byte_of_id.
Qed.

(** C4.  [getAvailableLayerId] returns [(u << 8) | i] for the smallest
    [i] in 0..255 that no layer has as its id, and 0 when all 256 ids of
    user [u] are taken; a nonzero result has high byte [u]; and
    [creatorId] is the high byte [(id & 0xff00) >> 8] of a layer id, so
    it gives back [u] on every id of [u]'s namespace. *)
Theorem getAvailableLayerId_first_free (m : LayerListModel) :
  let u := localUserId (m_aclstate m) in
  let has_id x := exists item, In item (m_items m) /\ id item = x in
  0 <= u < 256 ->
  (forall i, 0 <= i < 256 ->
             ~ has_id (Z.lor (Z.shiftl u 8) i) ->
             (forall j, 0 <= j < i -> has_id (Z.lor (Z.shiftl u 8) j)) ->
             getAvailableLayerId m = Z.lor (Z.shiftl u 8) i)
  /\ ((forall i, 0 <= i < 256 -> has_id (Z.lor (Z.shiftl u 8) i)) ->
      getAvailableLayerId m = 0)
  /\ (getAvailableLayerId m <> 0 ->
      Z.shiftr (Z.land (getAvailableLayerId m) 0xff00) 8 = u)
  /\ (forall item, creatorId item = Z.shiftr (Z.land (id item) 0xff00) 8)
  /\ (forall item i, 0 <= i < 256 -> id item = Z.lor (Z.shiftl u 8) i ->
                     creatorId item = u).
Proof.
  intros u has_id Hu.
  assert (Hcreator : forall item,
             creatorId item = Z.shiftr (Z.land (id item) 0xff00) 8).
  { intros item. unfold creatorId. apply land_ff_small.
    apply masked_high_byte_range. }
  repeat split.
  - intros i Hi Hfree Hbelow. unfold getAvailableLayerId. fold u.
    apply first_free_found; [simpl; lia | |].
    + intros j Hj. apply (taken_iff m j); [assumption | lia |].
      apply Hbelow. lia.
    + destruct (contains _ _) eqn:E; [| reflexivity].
      exfalso. apply Hfree. now apply (taken_iff m i).
  - intros Hall. unfold getAvailableLayerId. fold u.
    apply first_free_none. intros j Hj.
    apply (taken_iff m j); [assumption | simpl in Hj; lia |].
    apply Hall. simpl in Hj. lia.
  - intros Hnz. unfold getAvailableLayerId in *. fold u in Hnz |- *.
    destruct (first_free_shape (Z.shiftl u 8)
                (map id (filter (fun item => Z.land (id item) 0xff00 =? Z.shiftl u 8)
                                (m_items m))) 256 0)
      as [H | (k & Hk & H)]; [contradiction |].
    rewrite H, high_byte_of_id by (simpl in Hk; lia).
    rewrite Z.shiftr_shiftl_l, Z.sub_diag by lia. apply Z.shiftl_0_r.
  - exact Hcreator.
  - intros item i Hi E. rewrite Hcreator, E, high_byte_of_id by assumption.
    rewrite Z.shiftr_shiftl_l, Z.sub_diag by lia. apply Z.shiftl_0_r.
Qed.

Lemma getAvailableLayerId_first_free_witness :
  getAvailableLayerId Sample.abc = 0x0100.
Proof.
  apply (proj1 (getAvailableLayerId_first_free Sample.abc
                  ltac:(simpl; lia)) 0); [lia | | lia].
  intros (item & Hin & E). simpl in Hin.
  destruct Hin as [<- | [<- | [<- | []]]]; discriminate.
Defined.

End LayerListFacts.

(** ** The layer dock *)

Module LayerDockFacts.
Import Qt LayerList LayerDock QtFacts.

(** On a valid index every role reads the same item. *)
Lemma data_valid (m : LayerListModel) (idx : QModelIndex) (role : LayerListRoles)
      (v : QVariant) :
  isValid idx = true ->
  data m idx role = Some v ->
  exists item,
    data m idx DisplayRole = Some (QVariant_item item)
    /\ data m idx IdRole = Some (QVariant_int (id item))
    /\ data m idx IsGroupRole = Some QVariant_null.
Proof.
  intros Hv H. destruct idx as [| r c i]; [discriminate |].
  unfold data in *. rewrite Hv in *. simpl in *.
  destruct (at_ (m_items m) i) as [item |]; [| discriminate].
  exists item. repeat split.
Qed.

Lemma data_item (m : LayerListModel) (idx : QModelIndex) (item : LayerListItem) :
  data m idx DisplayRole = Some (QVariant_item item) ->
  data m idx IdRole = Some (QVariant_int (id item))
  /\ data m idx IsGroupRole = Some QVariant_null.
Proof.
  intros H. destruct idx as [| r c i]; [discriminate |].
  unfold data in *. destruct (negb (isValid (createIndex r c i))); [discriminate |].
  destruct (at_ (m_items m) i) as [item' |]; [| discriminate].
  injection H as ->. split; reflexivity.
Qed.

(** [canMergeCurrent] answers true exactly when the selection is valid
    and its sibling one row below exists and is not locked: the answer of
    [data] for [IsGroupRole] is the null variant, whose [toBool] is
    false, whatever the sibling is. *)
Lemma canMergeCurrent_answers (d : LayerListDock) :
  let layers := layerlist (m_canvas d) in
  let index := currentSelection d in
  canMergeCurrent d = Some true <->
  exists below item,
    isValid index = true
    /\ sibling layers index (row_of index + 1) 0 = Some below
    /\ isValid below = true
    /\ data layers below DisplayRole = Some (QVariant_item item)
    /\ isLayerLocked (aclState (m_canvas d)) (id item) = false.
Proof.
  intros layers index. split.
  - unfold canMergeCurrent. fold layers index.
    destruct (sibling layers index (row_of index + 1) 0) as [below |];
      [| discriminate].
    destruct (isValid index) eqn:Hi; simpl; [| discriminate].
    destruct (isValid below) eqn:Hb; simpl; [| discriminate].
    destruct (data layers below IsGroupRole) as [g |] eqn:Hg; [| discriminate].
    destruct (data_valid _ _ _ _ Hb Hg) as (item & HD & HI & HG).
    rewrite HI. rewrite HG in Hg. injection Hg as <-. simpl.
    intros H. injection H as H. apply negb_true_iff in H.
    exists below, item. repeat split; assumption.
  - intros (below & item & Hi & Hs & Hb & HD & Hlock).
    unfold canMergeCurrent. fold layers index.
    rewrite Hs, Hi, Hb. simpl.
    destruct (data_item _ _ _ HD) as [HI HG].
    rewrite HG, HI. simpl. now rewrite Hlock.
Qed.

(** [mergeSelected] emits its command, an undo point and a layer delete
    with the below sibling's id as merge target, only when that sibling
    exists, and always then. *)
Lemma mergeSelected_emits (d : LayerListDock) :
  let layers := layerlist (m_canvas d) in
  let index := currentSelection d in
  let user := canvas_localUserId (m_canvas d) in
  (forall signals,
      mergeSelected d = Some signals -> signals <> [] ->
      exists below selected item,
        isValid index = true
        /\ sibling layers index (row_of index + 1) 0 = Some below
        /\ isValid below = true
        /\ data layers index DisplayRole = Some (QVariant_item selected)
        /\ data layers below DisplayRole = Some (QVariant_item item)
        /\ signals = [[makeUndoPoint user;
                       makeLayerDelete user (Z.land (id selected) 0xffff)
                                       (Z.land (id item) 0xffff)]])
  /\ (forall below selected item,
         isValid index = true ->
         sibling layers index (row_of index + 1) 0 = Some below ->
         isValid below = true ->
         data layers index DisplayRole = Some (QVariant_item selected) ->
         data layers below DisplayRole = Some (QVariant_item item) ->
         mergeSelected d
         = Some [[makeUndoPoint user;
                  makeLayerDelete user (Z.land (id selected) 0xffff)
                                  (Z.land (id item) 0xffff)]]).
Proof.
  intros layers index user. split.
  - intros signals H Hne. unfold mergeSelected in H. fold layers index user in H.
    destruct (isValid index) eqn:Hi; simpl in H;
      [| injection H as <-; contradiction].
    destruct (sibling layers index (row_of index + 1) 0) as [below |];
      [| discriminate].
    destruct (isValid below) eqn:Hb; simpl in H;
      [| injection H as <-; contradiction].
    destruct (data layers index IdRole) as [vi |] eqn:Ei; [| discriminate].
    destruct (data layers below IdRole) as [vb |] eqn:Eb; [| discriminate].
    destruct (data_valid _ _ _ _ Hi Ei) as (selected & HDi & HIi & _).
    destruct (data_valid _ _ _ _ Hb Eb) as (item & HDb & HIb & _).
    rewrite HIi in Ei. injection Ei as <-.
    rewrite HIb in Eb. injection Eb as <-.
    injection H as <-.
    exists below, selected, item. repeat split; assumption.
  - intros below selected item Hi Hs Hb HDi HDb.
    unfold mergeSelected. fold layers index user.
    rewrite Hi, Hs, Hb. simpl.
    destruct (data_item _ _ _ HDi) as [-> _].
    destruct (data_item _ _ _ HDb) as [-> _]. reflexivity.
Qed.


(** On the sample dock A is selected, B is below it: a merge is allowed
    and deletes A into B. *)
Example canMergeCurrent_abc :
  canMergeCurrent Sample.dock_abc = Some true
  /\ mergeSelected Sample.dock_abc
     = Some [[makeUndoPoint 1; makeLayerDelete 1 0x0101 0x0102]].
Proof. split; reflexivity. Qed.

(** No merge into a locked layer or below the last layer. *)
Example canMergeCurrent_rejections :
  canMergeCurrent Sample.dock_locked_below = Some false
  /\ canMergeCurrent Sample.dock_bottom = Some false
  /\ mergeSelected Sample.dock_bottom = Some [].
Proof. repeat split; reflexivity. Qed.

Section Flags.

Variables FLAGS_CENSOR FLAGS_FIXED FLAGS_ISOLATED : Z.
Variable DP_CENSOR : Z.
Variable opacity_times_255 : float -> Z.

Lemma testbit_ff (n : Z) : 0 <= n -> Z.testbit 0xff n = (n <? 8).
Proof.
  intros Hn. change 0xff with (Z.ones 8). apply Z.testbit_ones_nonneg; lia.
Qed.

(** [ChangeFlags().set(flag, value).update(old)] replaces the bits of
    [flag] in [old] and nothing else. *)
Lemma set_update (flag old : Z) (value : bool) :
  0 <= flag < 256 ->
  update (set ChangeFlags_new flag value) (Z.land old 0xff)
  = Z.lor (Z.land (Z.land old 0xff) (Z.lnot flag)) (if value then flag else 0).
Proof.
  intros Hf. unfold update, set, ChangeFlags_new. cbn [m_mask m_changes].
  rewrite Z.lor_0_l, Z.land_0_l, (land_ff_small flag Hf).
  replace (Z.land (if value then flag else 0) 0xff)
    with (if value then flag else 0)
    by (destruct value; [now rewrite land_ff_small | reflexivity]).
  apply Z.bits_inj'. intros n Hn.
  rewrite !Z.land_spec, !Z.lor_spec, !Z.land_spec, Z.lnot_spec, testbit_ff
    by assumption.
  destruct (Z.ltb_spec n 8) as [H8 | H8].
  - now rewrite !andb_true_r.
  - rewrite !andb_false_r. simpl.
    assert (Z.testbit flag n = false)
      by (apply (testbit_small flag 8); change (2 ^ 8) with 256; lia).
    destruct value; [now symmetry | symmetry; apply Z.bits_0].
Qed.

(** C6.  The command of [censorSelected] carries the layer's
    [attributeFlags] with the censor bit replaced by the new value:
    the censor bit is set or cleared, and every other bit, the fixed
    and the isolated bit among them, is the layer's current one. *)
Theorem censorSelected_read_modify_write
        (d : LayerListDock) (censor : bool) (layer : LayerListItem) :
  let old := attributeFlags FLAGS_CENSOR FLAGS_FIXED FLAGS_ISOLATED layer in
  0 <= DP_CENSOR < 256 ->
  isValid (currentSelection d) = true ->
  data (layerlist (m_canvas d)) (currentSelection d) DisplayRole
  = Some (QVariant_item layer) ->
  exists flags,
    censorSelected FLAGS_CENSOR FLAGS_FIXED FLAGS_ISOLATED DP_CENSOR
                   opacity_times_255 d censor
    = Some [[makeLayerAttributes (canvas_localUserId (m_canvas d)) (id layer)
               0 flags (opacity_times_255 (opacity layer)) (blend layer)]]
    /\ flags = Z.lor (Z.land old (Z.lnot DP_CENSOR)) (if censor then DP_CENSOR else 0)
    /\ Z.land flags DP_CENSOR = (if censor then DP_CENSOR else 0)
    /\ (forall n, Z.testbit DP_CENSOR n = false ->
                  Z.testbit flags n = Z.testbit old n)
    /\ (Z.land DP_CENSOR FLAGS_FIXED = 0 ->
        Z.land flags FLAGS_FIXED = Z.land old FLAGS_FIXED)
    /\ (Z.land DP_CENSOR FLAGS_ISOLATED = 0 ->
        Z.land flags FLAGS_ISOLATED = Z.land old FLAGS_ISOLATED).
Proof.
  intros old HD Hv Hdata. eexists. split.
  - unfold censorSelected. rewrite Hv, Hdata. reflexivity.
  - cbn [value_item]. subst old. unfold attributeFlags.
    rewrite set_update by assumption.
    set (raw := Z.lor _ (if isolated layer then FLAGS_ISOLATED else 0)).
    set (ch := if censor then DP_CENSOR else 0).
    assert (Hbit : forall n, 0 <= n -> Z.testbit DP_CENSOR n = false ->
              Z.testbit (Z.lor (Z.land (Z.land raw 0xff) (Z.lnot DP_CENSOR)) ch) n
              = Z.testbit (Z.land raw 0xff) n).
    { intros n Hn Hfalse.
      rewrite Z.lor_spec, Z.land_spec, Z.lnot_spec, Hfalse by assumption.
      replace (Z.testbit ch n) with false
        by (subst ch; destruct censor; [now rewrite Hfalse | now rewrite Z.bits_0]).
      now rewrite andb_true_r, orb_false_r. }
    assert (Hother : forall b, Z.land DP_CENSOR b = 0 ->
              Z.land (Z.lor (Z.land (Z.land raw 0xff) (Z.lnot DP_CENSOR)) ch) b
              = Z.land (Z.land raw 0xff) b).
    { intros b Hb. apply Z.bits_inj'. intros n Hn.
      rewrite !(Z.land_spec _ b).
      destruct (Z.testbit b n) eqn:Eb; [| now rewrite !andb_false_r].
      rewrite !andb_true_r. apply Hbit; [assumption |].
      assert (H := Z.land_spec DP_CENSOR b n).
      rewrite Hb, Z.bits_0, Eb, andb_true_r in H. now symmetry. }
    repeat split.
    + apply Z.bits_inj'. intros n Hn.
      rewrite Z.land_spec, Z.lor_spec, Z.land_spec, Z.lnot_spec by assumption.
      subst ch. destruct censor, (Z.testbit DP_CENSOR n) eqn:E;
        rewrite ?E, ?Z.bits_0, ?andb_false_r, ?andb_true_r, ?orb_false_r,
                ?orb_true_r; reflexivity.
    + intros n Hfalse. destruct (Z.leb_spec 0 n) as [Hn | Hn].
      * now apply Hbit.
      * now rewrite !Z.testbit_neg_r by assumption.
    + apply Hother.
    + apply Hother.
Qed.

End Flags.

(** The sample dock with the protocol's flag values 1, 2 and 4: marking
    the fixed layer A as censored keeps its fixed bit. *)
Lemma censorSelected_read_modify_write_witness :
  exists flags,
    censorSelected 1 2 4 1 (fun _ => 255) Sample.dock_abc true
    = Some [[makeLayerAttributes 1 0x0101 0 flags 255 1]]
    /\ Z.land flags 2 = 2.
Proof.
  destruct (censorSelected_read_modify_write 1 2 4 1 (fun _ => 255)
              Sample.dock_abc true (Sample.layer 0x0101 "A" 0))
    as (flags & H & _ & _ & _ & Hfixed & _);
    [lia | reflexivity | reflexivity |].
  exists flags. split; [exact H | exact (Hfixed eq_refl)].
Defined.

End LayerDockFacts.

(** ** The text writer *)

Module TextWriterFacts.
Import TextWriter.

Lemma on_output_write (w : DP_TextWriter) (buffer : list ascii) (size : nat) :
  writable (output w) = true ->
  on_output (fun o => DP_output_write o buffer size) w
  = (true, put w (firstn size buffer)).
Proof.
  intros H. unfold on_output, DP_output_write. now rewrite H.
Qed.

Lemma format_argument_ok (w : DP_TextWriter) (text : list ascii) :
  writable (output w) = true ->
  format_argument text w = (true, put w text).
Proof.
  intros H. unfold format_argument, DP_output_print.
  rewrite on_output_write by assumption. now rewrite firstn_all.
Qed.

Lemma buffered_buffered (w : DP_TextWriter) (a b : list ascii) :
  buffered (buffered w a) b = buffered w (a ++ b).
Proof. unfold buffered. simpl. now rewrite app_assoc. Qed.

Lemma buffer_line_ok (w : DP_TextWriter) (mo : DP_Output)
      (key value : list ascii) (len : nat) :
  multiline_output w = Some mo -> writable mo = true ->
  buffer_line key value len w = (true, buffered w (line_of key (firstn len value))).
Proof.
  intros Hmo Hw.
  unfold buffer_line, and_then, on_multiline, DP_output_print, DP_output_write,
    buffered, multiline_buffer, line_of.
  rewrite Hmo, Hw. simpl. rewrite firstn_all, <- app_assoc. simpl.
  now rewrite <- app_assoc.
Qed.

(** The wrapping loop writes the rest of the value, from [start] on, as
    lines of [line_width] characters and a last line that is not empty
    and not longer. *)
Lemma wrapped_loop_lines (key value : list ascii) (line_width : nat) :
  (0 < line_width)%nat ->
  forall (remaining start end_ : nat) (w : DP_TextWriter) (mo : DP_Output),
    multiline_output w = Some mo -> writable mo = true ->
    (start <= end_)%nat -> (end_ - start <= line_width)%nat ->
    (end_ + remaining)%nat = List.length value ->
    (start < end_ \/ 0 < remaining)%nat ->
    exists lines,
      wrapped_loop key value line_width remaining start end_ w
      = (true, buffered w (flat_map (line_of key) lines))
      /\ List.concat lines = skipn start value
      /\ Forall (fun line => List.length line = line_width) (removelast lines)
      /\ (1 <= List.length (last lines []) <= line_width)%nat.
Proof.
  intros Hlw. induction remaining as [| r IH];
    intros start end_ w mo Hmo Hw Hse Hle Hlen Hprog.
  - exists [skipn start value]. simpl.
    rewrite (buffer_line_ok _ _ _ _ _ Hmo Hw).
    rewrite firstn_all2 by (rewrite length_skipn; lia).
    rewrite !app_nil_r. repeat split; auto.
    + rewrite length_skipn. lia.
    + rewrite length_skipn. lia.
  - simpl. destruct (Nat.eqb_spec (end_ - start) line_width) as [E | E].
    + unfold and_then. rewrite (buffer_line_ok _ _ _ _ _ Hmo Hw).
      destruct (IH end_ (S end_)
                   (buffered w (line_of key (firstn (end_ - start) (skipn start value))))
                   {| written := multiline_buffer w
                                 ++ line_of key (firstn (end_ - start) (skipn start value));
                      writable := true |})
        as (lines & Hrun & Hcat & Hfull & Hlast);
        [reflexivity | reflexivity | lia | lia | lia | lia |].
      exists (firstn (end_ - start) (skipn start value) :: lines).
      rewrite Hrun, buffered_buffered. split; [reflexivity |].
      assert (Hne : lines <> []) by (intros ->; simpl in Hlast; lia).
      split; [| split].
      * simpl. rewrite Hcat.
        replace end_ with ((end_ - start) + start)%nat at 2 by lia.
        rewrite <- skipn_skipn. apply firstn_skipn.
      * destruct lines as [| l ls]; [contradiction |].
        change (removelast (?a :: l :: ls)) with (a :: removelast (l :: ls)).
        constructor; [| assumption].
        rewrite length_firstn, length_skipn. lia.
      * destruct lines as [| l ls]; [contradiction |]. exact Hlast.
    + destruct (IH start (S end_) w mo) as (lines & H); try assumption; try lia.
      exists lines. exact H.
Qed.

Section Base64.

Variable DP_base64_encode : list ascii -> nat -> list ascii.

(** C7.  A base64 field of length 0 or less is written on the command
    line as [ key=]; one whose encoded text has at most 70 characters
    as [ key=value]; a longer one goes to the multi-line block as
    lines, each a newline, a tab, [key=] and a piece of the encoded
    text, where every piece has exactly 70 characters except the last,
    which has between 1 and 70. *)
Theorem write_base64_wrapping (key value : list ascii) (length : Z)
        (writer : DP_TextWriter) :
  let base64 := DP_base64_encode value (Z.to_nat length) in
  writable (output writer) = true ->
  (forall mo, multiline_output writer = Some mo -> writable mo = true) ->
  (length <= 0 ->
   DP_text_writer_write_base64 DP_base64_encode key value length writer
   = (true, put writer (" " :: key ++ ["="])%char))
  /\ (0 < length -> (List.length base64 <= 70)%nat ->
      DP_text_writer_write_base64 DP_base64_encode key value length writer
      = (true, put writer (" " :: key ++ "=" :: base64)%char))
  /\ (0 < length -> (70 < List.length base64)%nat ->
      exists lines,
        DP_text_writer_write_base64 DP_base64_encode key value length writer
        = (true, buffered writer
                   (flat_map (fun line => "010" :: "009" :: key ++ "=" :: line)%char
                             lines))
        /\ List.concat lines = base64
        /\ Forall (fun line => List.length line = 70%nat) (removelast lines)
        /\ (1 <= List.length (last lines []) <= 70)%nat).
Proof.
  intros base64 Hout Hmulti. unfold DP_text_writer_write_base64. fold base64.
  split; [| split].
  - intros Hlen. destruct (Z.leb_spec length 0); [| lia].
    now apply format_argument_ok.
  - intros Hpos Hshort. destruct (Z.leb_spec length 0); [lia |].
    unfold BASE64_LINE_WIDTH.
    destruct (Nat.leb_spec (List.length base64) 70); [| lia].
    now apply format_argument_ok.
  - intros Hpos Hlong. destruct (Z.leb_spec length 0); [lia |].
    unfold BASE64_LINE_WIDTH.
    destruct (Nat.leb_spec (List.length base64) 70); [lia |].
    unfold buffer_wrapped_argument.
    destruct (multiline_output writer) as [mo |] eqn:Hmo.
    + destruct (wrapped_loop_lines key base64 70 ltac:(lia)
                  (List.length base64) 0 0 writer mo Hmo (Hmulti mo eq_refl))
        as (lines & Hrun & Hcat & Hrest); [lia | lia | lia | lia |].
      exists lines. rewrite Hrun. split; [reflexivity |].
      split; [exact Hcat | exact Hrest].
    + destruct (wrapped_loop_lines key base64 70 ltac:(lia)
                  (List.length base64) 0 0
                  {| output := output writer;
                     multiline_output := Some DP_mem_output_new |}
                  DP_mem_output_new eq_refl eq_refl)
        as (lines & Hrun & Hcat & Hrest); [lia | lia | lia | lia |].
      exists lines. rewrite Hrun. split; [| split; [exact Hcat | exact Hrest]].
      unfold buffered, multiline_buffer. simpl. now rewrite Hmo.
Qed.

End Base64.

Lemma write_base64_wrapping_witness :
  DP_text_writer_write_base64 Sample.plain (cstr "img") (cstr "iVBORw0KGgo=") 12
                              Sample.writer
  = (true, put Sample.writer (cstr " img=iVBORw0KGgo=")).
Proof.
  apply (write_base64_wrapping Sample.plain (cstr "img") (cstr "iVBORw0KGgo=") 12
                               Sample.writer);
    [reflexivity | discriminate | lia | simpl; lia].
Defined.

(** A value of 150 characters is wrapped into lines of 70, 70 and 10. *)
Example write_base64_three_lines :
  let value := List.concat (repeat (cstr "0123456789") 15) in
  snd (DP_text_writer_write_base64 Sample.plain (cstr "k") value 150 Sample.writer)
  = buffered Sample.writer
      (line_of (cstr "k") (firstn 70 value)
       ++ line_of (cstr "k") (firstn 70 value)
       ++ line_of (cstr "k") (cstr "0123456789")).
Proof. reflexivity. Qed.

Section Messages.

Variable DP_MSG_UNDO_POINT : Z.

(** C2, as the code has it.  [DP_text_writer_finish_message] adds the
    multi-line block in braces, if there is one, and ends the command
    with one newline; it adds one further newline, which leaves a
    blank line, exactly when the message is an undo point. *)
Theorem finish_message_terminator (writer : DP_TextWriter) (msg : DP_Message) :
  let block :=
    match multiline_buffer writer with
    | [] => []
    | buffer => (" " :: "{" :: buffer ++ [ "010"; "}" ])%char
    end in
  let extra :=
    if DP_message_type msg =? DP_MSG_UNDO_POINT then [ "010"%char ] else [] in
  writable (output writer) = true ->
  exists writer',
    DP_text_writer_finish_message DP_MSG_UNDO_POINT writer msg = (true, writer')
    /\ written (output writer')
       = written (output writer) ++ block ++ [ "010"%char ] ++ extra
    /\ multiline_buffer writer' = [].
Proof.
  intros block extra Hout. unfold DP_text_writer_finish_message.
  subst block extra. unfold multiline_size, multiline_buffer.
  destruct (multiline_output writer) as [mo |] eqn:Hmo.
  - destruct (written mo) as [| c buffer] eqn:Hbuf; cbn [List.length].
    + rewrite on_output_write by assumption. eexists. split; [reflexivity |].
      simpl. rewrite Hmo, Hbuf.
      split; [| reflexivity].
      destruct (_ =? _); reflexivity.
    + unfold and_then.
      rewrite on_output_write by assumption.
      rewrite on_output_write by reflexivity.
      rewrite on_output_write by reflexivity.
      unfold on_multiline. simpl multiline_output. rewrite Hmo.
      eexists. split; [reflexivity |]. split; [| reflexivity].
      change (S (List.length buffer)) with (List.length (c :: buffer)).
      rewrite firstn_all. simpl.
      destruct (_ =? _); simpl; rewrite <- !app_assoc; reflexivity.
  - rewrite on_output_write by assumption. eexists. split; [reflexivity |].
    simpl. rewrite Hmo. split; [| reflexivity].
    destruct (_ =? _); reflexivity.
Qed.

End Messages.

Lemma finish_message_terminator_witness :
  exists writer',
    DP_text_writer_finish_message Sample.undo_point Sample.writer Sample.penup
    = (true, writer')
    /\ written (output writer') = cstr "1 penup" ++ [ "010"%char ].
Proof.
  destruct (finish_message_terminator Sample.undo_point Sample.writer Sample.penup)
    as (writer' & H & Hw & _); [reflexivity |].
  exists writer'. split; [exact H | exact Hw].
Defined.

(** C2, as stated, fails: a pen-up command, which is no undo point, ends
    with its newline alone; no blank line follows it. *)
Lemma finish_message_no_blank_line :
  written (output (snd (DP_text_writer_finish_message
                          Sample.undo_point Sample.writer Sample.penup)))
  <> written (output Sample.writer) ++ Stated.terminator false.
Proof. vm_compute. discriminate. Qed.

End TextWriterFacts.

(** ** Strings and numbers *)

Module QStringFacts.
Import Qt.

Lemma takeWhile_dropWhile {A} (p : A -> bool) (l : list A) :
  takeWhile p l ++ dropWhile p l = l.
Proof.
  induction l as [| x l IH]; [reflexivity |].
  simpl. destruct (p x); [simpl; now rewrite IH | reflexivity].
Qed.

Lemma takeWhile_all {A} (p : A -> bool) (l : list A) :
  forallb p (takeWhile p l) = true.
Proof.
  induction l as [| x l IH]; [reflexivity |].
  simpl. destruct (p x) eqn:E; [simpl; now rewrite E | reflexivity].
Qed.

Lemma takeWhile_stop {A} (p : A -> bool) (l1 l2 : list A) (x : A) :
  forallb p l1 = true -> p x = false ->
  takeWhile p (l1 ++ x :: l2) = l1.
Proof.
  intros H Hx. induction l1 as [| a l1 IH]; simpl in *.
  - now rewrite Hx.
  - apply andb_true_iff in H as [Ha H]. rewrite Ha. now rewrite IH.
Qed.

Lemma forallb_rev {A} (p : A -> bool) (l : list A) :
  forallb p (rev l) = forallb p l.
Proof.
  induction l as [| a l IH]; [reflexivity |].
  simpl. rewrite forallb_app, IH. simpl. rewrite andb_true_r. apply andb_comm.
Qed.

Lemma digit_not_newline (c : ascii) :
  isDigit c = true -> (code c =? 10) = false.
Proof.
  unfold isDigit. intros H. apply andb_true_iff in H as [H _].
  apply Z.leb_le in H. apply Z.eqb_neq. lia.
Qed.

(** A string is its chopped body, or that body and a line feed. *)
Lemma chop_final_newline_spec (s : QString) :
  s = chop_final_newline s \/ s = chop_final_newline s ++ [ "010"%char ].
Proof.
  unfold chop_final_newline.
  destruct (rev s) as [| c r] eqn:E; [now left |].
  destruct (Z.eqb_spec (code c) 10) as [H | H]; [| now left].
  right. rewrite <- (rev_involutive s), E. simpl.
  f_equal. f_equal. unfold code in H.
  rewrite <- (ascii_N_embedding c).
  replace (N_of_ascii c) with 10%N by lia. reflexivity.
Qed.

Lemma chop_final_newline_digit (pre digits : QString) :
  digits <> [] -> forallb isDigit digits = true ->
  chop_final_newline (pre ++ digits) = pre ++ digits.
Proof.
  intros Hne Hd. unfold chop_final_newline. rewrite rev_app_distr.
  destruct (rev digits) as [| c r] eqn:E.
  - apply (f_equal (@rev ascii)) in E. rewrite rev_involutive in E.
    contradiction.
  - simpl. rewrite digit_not_newline; [reflexivity |].
    rewrite <- forallb_rev, E in Hd. simpl in Hd.
    now apply andb_true_iff in Hd as [Hc _].
Qed.

Lemma trailing_digits_after (pre digits : QString) (c : ascii) :
  isDigit c = false -> forallb isDigit digits = true ->
  trailing_digits (pre ++ c :: digits) = digits.
Proof.
  intros Hc Hd. unfold trailing_digits.
  rewrite rev_app_distr. simpl. rewrite <- app_assoc. simpl.
  rewrite takeWhile_stop; [apply rev_involutive | | assumption].
  now rewrite forallb_rev.
Qed.

(** What a match of the suffix expression says about the subject. *)
Lemma suffixNumRe_match_spec (s : QString) (start : nat) (digits : QString) :
  suffixNumRe_match s = Some (start, digits) ->
  digits <> [] /\ forallb isDigit digits = true
  /\ (s = firstn start s ++ digits
      \/ s = firstn start s ++ digits ++ [ "010"%char ]).
Proof.
  unfold suffixNumRe_match.
  set (body := chop_final_newline s).
  destruct (trailing_digits body) as [| d ds] eqn:E; [discriminate |].
  intros H. injection H as <- <-.
  assert (Hbody : body = rev (dropWhile isDigit (rev body)) ++ d :: ds).
  { rewrite <- E. unfold trailing_digits. rewrite <- rev_app_distr.
    now rewrite takeWhile_dropWhile, rev_involutive. }
  set (pre := rev (dropWhile isDigit (rev body))) in Hbody.
  assert (Hstart : (List.length body - List.length (d :: ds))%nat = List.length pre).
  { rewrite Hbody at 1. rewrite length_app. lia. }
  simpl List.length in Hstart. rewrite Hstart.
  split; [discriminate |]. split.
  - rewrite <- E. unfold trailing_digits. rewrite forallb_rev.
    apply takeWhile_all.
  - destruct (chop_final_newline_spec s) as [Hs | Hs]; fold body in Hs.
    + left. rewrite Hs, Hbody at 1. rewrite Hs, Hbody at 1.
      now rewrite QtFacts.firstn_length_app.
    + right. rewrite Hs, Hbody at 1. rewrite Hs, Hbody at 1.
      rewrite <- !app_assoc. now rewrite QtFacts.firstn_length_app.
Qed.

(** The match on a name that ends in a space and a number. *)
Lemma suffixNumRe_match_numbered (stem digits : QString) :
  digits <> [] -> forallb isDigit digits = true ->
  suffixNumRe_match (stem ++ " "%char :: digits)
  = Some (S (List.length stem), digits).
Proof.
  intros Hne Hd. unfold suffixNumRe_match.
  replace (stem ++ " "%char :: digits) with ((stem ++ [ " "%char ]) ++ digits)
    by (now rewrite <- app_assoc).
  rewrite chop_final_newline_digit by assumption.
  rewrite <- app_assoc. simpl.
  rewrite trailing_digits_after by (assumption || reflexivity).
  destruct digits as [| d ds]; [contradiction |].
  f_equal. f_equal. rewrite length_app. simpl. lia.
Qed.

Lemma startsWith_app (stem rest : QString) :
  startsWith (stem ++ rest) stem = true.
Proof.
  induction stem as [| a stem IH]; [now destruct rest |].
  simpl. now rewrite Ascii.eqb_refl.
Qed.

Lemma digit_char_spec (d : Z) :
  0 <= d <= 9 ->
  isDigit (digit_char d) = true /\ code (digit_char d) - 48 = d.
Proof.
  intros H.
  assert (d = 0 \/ d = 1 \/ d = 2 \/ d = 3 \/ d = 4 \/ d = 5 \/ d = 6
          \/ d = 7 \/ d = 8 \/ d = 9) as Hd by lia.
  repeat (destruct Hd as [-> | Hd]; [split; reflexivity |]).
  subst. split; reflexivity.
Qed.

Lemma digits_value_app (s : QString) (c : ascii) :
  digits_value (s ++ [c]) = 10 * digits_value s + (code c - 48).
Proof. unfold digits_value. now rewrite fold_left_app. Qed.

Lemma digits_value_nonneg (s : QString) :
  forallb isDigit s = true -> 0 <= digits_value s.
Proof.
  induction s as [| c s IH] using rev_ind; intros H; [reflexivity |].
  rewrite forallb_app in H. apply andb_true_iff in H as [Hs Hc].
  simpl in Hc. rewrite andb_true_r in Hc. unfold isDigit in Hc.
  apply andb_true_iff in Hc as [Hc _]. apply Z.leb_le in Hc.
  rewrite digits_value_app. specialize (IH Hs). lia.
Qed.

(** With enough fuel, [digits_of] puts before [acc] the decimal digits
    of [n]: at least one, all digits, and they spell [n]. *)
Lemma digits_of_spec (fuel : nat) :
  forall (n : Z) (acc : QString),
    0 <= n < 10 ^ Z.of_nat fuel -> (0 < fuel)%nat ->
    exists ds,
      digits_of fuel n acc = ds ++ acc
      /\ ds <> [] /\ forallb isDigit ds = true /\ digits_value ds = n.
Proof.
  induction fuel as [| f IH]; intros n acc Hn Hf; [lia |].
  simpl digits_of.
  assert (Hmod : 0 <= n mod 10 <= 9) by (pose proof (Z.mod_pos_bound n 10); lia).
  destruct (digit_char_spec _ Hmod) as [Hd Hv].
  destruct (Z.ltb_spec n 10) as [Hsmall | Hbig].
  - exists [digit_char (n mod 10)]. repeat split.
    + discriminate.
    + simpl. now rewrite Hd.
    + unfold digits_value. simpl. rewrite Hv. apply Z.mod_small. lia.
  - assert (Hf' : (0 < f)%nat).
    { destruct f; [| lia]. change (10 ^ Z.of_nat 1) with 10 in Hn. lia. }
    destruct (IH (n / 10) (digit_char (n mod 10) :: acc)) as (ds & E & Hne & Hall & Hval).
    + rewrite Nat2Z.inj_succ, Z.pow_succ_r in Hn by lia.
      split; [apply Z.div_pos; lia |].
      apply Z.div_lt_upper_bound; lia.
    + assumption.
    + exists (ds ++ [digit_char (n mod 10)]). repeat split.
      * rewrite E, <- app_assoc. reflexivity.
      * destruct ds; discriminate.
      * rewrite forallb_app, Hall. simpl. now rewrite Hd.
      * rewrite digits_value_app, Hval, Hv.
        pose proof (Z.div_mod n 10). lia.
Qed.

(** [number] writes a non-negative number with its decimal digits. *)
Lemma number_spec (n : Z) :
  0 <= n ->
  number n <> [] /\ forallb isDigit (number n) = true
  /\ digits_value (number n) = n.
Proof.
  intros Hn. unfold number. destruct (Z.ltb_spec n 0); [lia |].
  destruct (digits_of_spec (S (Z.to_nat (Z.log2 n))) n []) as (ds & E & Hds);
    [| lia |].
  - split; [assumption |].
    destruct (Z.eq_dec n 0) as [-> | Hz]; [reflexivity |].
    pose proof (Z.log2_nonneg n).
    rewrite Nat2Z.inj_succ, Z2Nat.id by assumption.
    assert (n < 2 ^ Z.succ (Z.log2 n)) by (apply Z.log2_spec; lia).
    assert (2 ^ Z.succ (Z.log2 n) <= 10 ^ Z.succ (Z.log2 n))
      by (apply Z.pow_le_mono_l; lia).
    lia.
  - rewrite E, app_nil_r. exact Hds.
Qed.

Lemma toInt_number (n : Z) : 0 <= n <= INT_MAX -> toInt (number n) = n.
Proof.
  intros Hn. destruct (number_spec n) as (Hne & Hall & Hval); [lia |].
  unfold toInt. destruct (number n) as [| c s] eqn:E; [contradiction |].
  rewrite Hall, Hval. destruct (Z.leb_spec n INT_MAX); [reflexivity | lia].
Qed.

Lemma toInt_range (s : QString) : 0 <= toInt s <= INT_MAX.
Proof.
  unfold toInt, INT_MAX. destruct s as [| c s]; [lia |].
  destruct (forallb isDigit (c :: s)) eqn:E; [| lia].
  destruct (Z.leb_spec (digits_value (c :: s)) 2147483647); [| lia].
  split; [now apply digits_value_nonneg | assumption].
Qed.

Lemma wrap_int_small (x : Z) : - 2 ^ 31 <= x <= INT_MAX -> wrap_int x = x.
Proof.
  unfold wrap_int, INT_MAX. intros H. rewrite Z.mod_small; lia.
Qed.

End QStringFacts.

(** ** Layer names *)

Module LayerNameFacts.
Import Qt LayerList QStringFacts.

Lemma qMax_spec (a b : Z) : qMax a b = Z.max a b.
Proof. unfold qMax. destruct (Z.ltb_spec a b); lia. Qed.

(** The loop over the layers, from any starting value: the result is at
    least the start and every number read, and it is the start or one of
    the numbers read. *)
Lemma suffix_loop_spec (basename : QString) (items : list LayerListItem) :
  forall acc,
    let r := fold_left
               (fun suffix l =>
                  match suffixNumRe_match (title l) with
                  | Some (_, captured1) =>
                      if startsWith (title l) basename
                      then qMax suffix (toInt captured1)
                      else suffix
                  | None => suffix
                  end) items acc in
    acc <= r
    /\ (forall l v, In l items -> counted_suffix basename l = Some v -> v <= r)
    /\ (r = acc \/ exists l, In l items /\ counted_suffix basename l = Some r).
Proof.
  induction items as [| a items IH]; intros acc; simpl.
  - split; [lia |]. split; [intros l v [] | now left].
  - match goal with |- context [fold_left ?f items ?x] => set (acc' := x) end.
    destruct (IH acc') as (Hge & Hall & Hatt).
    assert (Hstep : acc <= acc'
                    /\ (forall v, counted_suffix basename a = Some v -> v <= acc')
                    /\ (acc' = acc \/ counted_suffix basename a = Some acc')).
    { subst acc'. unfold counted_suffix.
      destruct (suffixNumRe_match (title a)) as [[start captured1] |];
        [| split; [lia | split; [discriminate | now left]]].
      destruct (startsWith (title a) basename);
        [| split; [lia | split; [discriminate | now left]]].
      rewrite qMax_spec. split; [lia |]. split.
      - intros v H. injection H as <-. lia.
      - destruct (Z.max_spec acc (toInt captured1)) as [[_ ->] | [_ ->]];
          [now right | now left]. }
    destruct Hstep as (H1 & H2 & H3).
    split; [lia |]. split.
    + intros l v [<- | Hin] Hc; [specialize (H2 v Hc); lia | eauto].
    + destruct Hatt as [E | (l & Hin & Hc)].
      * destruct H3 as [E' | Hc]; [left; congruence |].
        right. exists a. split; [now left |]. now rewrite E.
      * right. exists l. split; [now right | assumption].
Qed.

Lemma counted_suffix_range (basename : QString) (l : LayerListItem) (v : Z) :
  counted_suffix basename l = Some v -> 0 <= v <= INT_MAX.
Proof.
  unfold counted_suffix.
  destruct (suffixNumRe_match (title l)) as [[start captured1] |]; [| discriminate].
  destruct (startsWith (title l) basename); [| discriminate].
  intros H. injection H as <-. apply toInt_range.
Qed.

(** What [getAvailableLayerName] does in general.  It takes the run of
    digits that ends the basename off it and trims what is before them
    (a basename without such digits is left as it is), and returns this
    stem, a space and [suffix + 1], where [suffix] is the largest number
    that [QString::toInt] reads from the digits ending a title that
    starts with the stem, as long as [suffix] is below [INT_MAX]; the
    name returned then differs from every existing title. *)
Lemma getAvailableLayerName_next_suffix (m : LayerListModel) (basename : QString) :
  let stem := strip_suffix_number basename in
  let suffix := biggest_suffix stem (m_items m) in
  (suffixNumRe_match basename = None -> stem = basename)
  /\ (forall start digits,
         suffixNumRe_match basename = Some (start, digits) ->
         stem = trimmed (firstn start basename)
         /\ digits <> [] /\ forallb isDigit digits = true
         /\ (basename = firstn start basename ++ digits
             \/ basename = firstn start basename ++ digits ++ [ "010"%char ]))
  /\ 0 <= suffix <= INT_MAX
  /\ (forall l v, In l (m_items m) -> counted_suffix stem l = Some v -> v <= suffix)
  /\ (suffix = 0
      \/ exists l, In l (m_items m) /\ counted_suffix stem l = Some suffix)
  /\ (suffix < INT_MAX ->
      getAvailableLayerName m basename = stem ++ " "%char :: number (suffix + 1)
      /\ forall l, In l (m_items m) -> title l <> getAvailableLayerName m basename).
Proof.
  intros stem suffix.
  destruct (suffix_loop_spec stem (m_items m) 0) as (Hge & Hall & Hatt).
  fold (biggest_suffix stem (m_items m)) in Hge, Hall, Hatt. fold suffix in Hge, Hall, Hatt.
  assert (Hrange : 0 <= suffix <= INT_MAX).
  { destruct Hatt as [-> | (l & _ & Hc)]; [unfold INT_MAX; lia |].
    now apply counted_suffix_range in Hc. }
  split; [| split; [| split; [| split; [| split]]]].
  - intros H. subst stem. unfold strip_suffix_number. now rewrite H.
  - intros start digits H. split.
    + subst stem. unfold strip_suffix_number, mid0. now rewrite H.
    + now apply suffixNumRe_match_spec.
  - exact Hrange.
  - exact Hall.
  - exact Hatt.
  - intros Hlt.
    assert (Hname : getAvailableLayerName m basename
                    = stem ++ " "%char :: number (suffix + 1)).
    { unfold getAvailableLayerName. fold stem suffix.
      now rewrite wrap_int_small by (unfold INT_MAX in *; lia). }
    split; [exact Hname |].
    intros l Hin Heq. rewrite Hname in Heq.
    destruct (number_spec (suffix + 1)) as (Hne & Hdigits & _); [lia |].
    assert (Hc : counted_suffix stem l = Some (suffix + 1)).
    { unfold counted_suffix. rewrite Heq.
      rewrite suffixNumRe_match_numbered by assumption.
      rewrite startsWith_app. f_equal. apply toInt_number. lia. }
    specialize (Hall l _ Hin Hc). lia.
Qed.

Example getAvailableLayerName_numbered :
  getAvailableLayerName Sample.numbered (qs "Layer 3") = qs "Layer 13"
  /\ forall l, In l (m_items Sample.numbered) ->
               title l <> getAvailableLayerName Sample.numbered (qs "Layer 3").
Proof.
  apply (getAvailableLayerName_next_suffix Sample.numbered (qs "Layer 3")).
  vm_compute. reflexivity.
Qed.

(** C9.  The code at the failing input.  Next to a layer called
    [Layer 4294967296] the new name is [Layer 1], not [Layer 4294967297],
    one more than the biggest suffix, as the comment at
    layerlist.cpp:356-357 and the claim have it: [toInt] answers 0 for
    digits beyond the range of [int], and line 375 does not look at
    whether the conversion went well. *)
Theorem getAvailableLayerName_not_largest :
  getAvailableLayerName Sample.huge_suffix (qs "Layer") = qs "Layer 1"
  /\ Stated.layer_name (m_items Sample.huge_suffix) (qs "Layer")
     = qs "Layer 4294967297"
  /\ getAvailableLayerName Sample.huge_suffix (qs "Layer")
     <> Stated.layer_name (m_items Sample.huge_suffix) (qs "Layer").
Proof.
  split; [reflexivity |]. split; [reflexivity |]. vm_compute. discriminate.
Qed.

End LayerNameFacts.

(** ** The TCP client *)

Module TcpSocketClientFacts.
Import TcpSocketClient.

(** C10.  The scheme of a drawing-session endpoint is [drawpile] and its
    default port is [27750]. *)
Theorem endpoint_convention :
  DP_TCP_SOCKET_CLIENT_SCHEME = "drawpile"%string
  /\ DP_TCP_SOCKET_CLIENT_DEFAULT_PORT = "27750"%string.
Proof. split; reflexivity. Qed.

End TcpSocketClientFacts.

(** ** The rest of the layer list model *)

Module LayerModelFacts.
Import Qt LayerList LayerModel QtFacts.

Lemma indexOf_from_spec (items : list LayerListItem) (x : Z) :
  forall i,
    (indexOf_from items x i = -1 /\ (forall item, In item items -> id item <> x)
     \/ exists pre item post,
         items = pre ++ item :: post /\ id item = x
         /\ (forall item', In item' pre -> id item' <> x)
         /\ indexOf_from items x i = i + Z.of_nat (List.length pre))
    .
Proof.
  induction items as [| a items IH]; intros i.
  - left. split; [reflexivity | intros item []].
  - simpl. destruct (Z.eqb_spec (id a) x) as [E | E].
    + right. exists [], a, items. simpl. repeat split; [assumption | | lia].
      intros item' [].
    + destruct (IH (i + 1)) as [[H1 H2] | (pre & item & post & -> & Hid & Hpre & H)].
      * left. split; [assumption |]. intros item [<- | Hin]; auto.
      * right. exists (a :: pre), item, post. simpl.
        repeat split; [assumption | | lia].
        intros item' [<- | Hin]; auto.
Qed.

(** X1.  [indexOf] answers the position of the first layer with the id, and
    [-1] exactly when no layer has it. *)
Theorem indexOf_first (m : LayerListModel) (x : Z) :
  (indexOf m x = -1 <-> forall item, In item (m_items m) -> id item <> x)
  /\ (indexOf m x <> -1 ->
      0 <= indexOf m x < Z.of_nat (List.length (m_items m))
      /\ exists item,
          at_ (m_items m) (indexOf m x) = Some item /\ id item = x
          /\ forall j item', 0 <= j < indexOf m x ->
                             at_ (m_items m) j = Some item' -> id item' <> x).
Proof.
  unfold indexOf.
  destruct (indexOf_from_spec (m_items m) x 0)
    as [[H1 H2] | (pre & item & post & E & Hid & Hpre & H)].
  - split; [split; auto |]. intros Hne. contradiction.
  - rewrite Z.add_0_l in H. rewrite H, E. split.
    + split; [lia |]. intros Hall. exfalso.
      apply (Hall item); [| assumption].
      apply in_or_app. right. now left.
    + intros _. rewrite length_app. simpl. split; [lia |].
      exists item. repeat split; [| assumption |].
      * unfold at_. destruct (Z.ltb_spec (Z.of_nat (List.length pre)) 0); [lia |].
        rewrite Nat2Z.id. apply nth_error_middle.
      * intros j item' Hj Hat. unfold at_ in Hat.
        destruct (Z.ltb_spec j 0); [lia |].
        rewrite nth_error_app1 in Hat by lia.
        apply Hpre. eapply nth_error_In. eassumption.
Qed.

(** X2.  [layerIndex] and [data] go round: for an id that a layer has,
    [layerIndex] is a valid index and [data] reads the id back from it;
    for an id that no layer has, it is the invalid index. *)
Theorem layerIndex_data (m : LayerListModel) (x : Z) :
  (forall item, In item (m_items m) -> 0 <= relIndex item) ->
  ((exists item, In item (m_items m) /\ id item = x) ->
   exists idx,
     layerIndex m x = Some idx /\ isValid idx = true
     /\ data m idx IdRole = Some (QVariant_int x))
  /\ ((forall item, In item (m_items m) -> id item <> x) ->
      layerIndex m x = Some Invalid).
Proof.
  intros Hrel. unfold layerIndex.
  destruct (indexOf_first m x) as [Hnone Hsome]. split.
  - intros (item & Hin & Hid).
    assert (Hne : indexOf m x <> -1).
    { intros E. exact (proj1 Hnone E item Hin Hid). }
    destruct (Hsome Hne) as (Hrange & found & Hat & Hfound & _).
    destruct (Z.geb_spec (indexOf m x) 0); [| lia].
    rewrite Hat. eexists. split; [reflexivity |].
    assert (Hr : 0 <= relIndex found).
    { apply Hrel. unfold at_ in Hat.
      destruct (indexOf m x <? 0); [discriminate |].
      eapply nth_error_In. eassumption. }
    assert (Hv : isValid (createIndex (relIndex found) 0 (indexOf m x)) = true).
    { simpl. apply andb_true_iff. split; [apply Z.leb_le; assumption | reflexivity]. }
    split; [exact Hv |].
    unfold data. rewrite Hv, Hat. simpl. now rewrite Hfound.
  - intros Hall. rewrite (proj2 Hnone Hall). reflexivity.
Qed.

Lemma layerIndex_data_witness :
  exists idx,
    layerIndex Sample.abc 0x0102 = Some idx /\ isValid idx = true
    /\ data Sample.abc idx IdRole = Some (QVariant_int 0x0102).
Proof.
  apply (layerIndex_data Sample.abc 0x0102).
  - intros item Hin. simpl in Hin.
    destruct Hin as [<- | [<- | [<- | []]]]; simpl; lia.
  - exists (Sample.layer 0x0102 "B" 1). split; [simpl; tauto | reflexivity].
Defined.

Lemma handleMoveLayer_negative (m : LayerListModel) (oldIdx newIdx : Z) :
  oldIdx < 0 -> handleMoveLayer m oldIdx newIdx = (m, []).
Proof.
  intros H. unfold handleMoveLayer.
  destruct (_ <? 2); [reflexivity |].
  destruct (Z.ltb_spec oldIdx 0); [reflexivity | lia].
Qed.

(** X3.  A drop is never reported as accepted and never changes the model; data
    that is no layer of this model, or the id of a layer that is gone,
    emits no command. *)
Theorem dropMimeData_rejects (m : LayerListModel) (data : QMimeData) (row : Z) :
  fst (dropMimeData m data row) = false
  /\ fst (snd (dropMimeData m data row)) = m
  /\ ((forall x, data = LayerMimeData true x ->
                 forall item, In item (m_items m) -> id item <> x) ->
      snd (snd (dropMimeData m data row)) = []).
Proof.
  destruct data as [[|] x |]; simpl;
    (split; [reflexivity |]);
    (split; [try reflexivity; apply LayerListFacts.handleMoveLayer_model |]);
    try reflexivity.
  intros H. specialize (H x eq_refl).
  rewrite (proj2 (proj1 (indexOf_first m x)) H).
  now rewrite handleMoveLayer_negative by lia.
Qed.

Lemma dropMimeData_rejects_witness :
  snd (snd (dropMimeData Sample.abc (LayerMimeData true 0x0201) 0)) = [].
Proof.
  apply (dropMimeData_rejects Sample.abc (LayerMimeData true 0x0201) 0).
  intros x E item Hin. injection E as <-. simpl in Hin.
  destruct Hin as [<- | [<- | [<- | []]]]; discriminate.
Defined.

Lemma at_In {A} (v : list A) (i : Z) (x : A) : at_ v i = Some x -> In x v.
Proof.
  unfold at_. destruct (i <? 0); [discriminate |]. apply nth_error_In.
Qed.

Lemma at_range {A} (v : list A) (i : Z) (x : A) :
  at_ v i = Some x -> 0 <= i < Z.of_nat (List.length v).
Proof.
  unfold at_. destruct (Z.ltb_spec i 0); [discriminate |]. intros Hnth.
  assert (Z.to_nat i < List.length v)%nat by (apply nth_error_Some; congruence).
  lia.
Qed.

(** With distinct layer ids, [indexOf] finds a layer where it is. *)
Lemma indexOf_at (m : LayerListModel) (i : Z) (item : LayerListItem) :
  NoDup (map id (m_items m)) ->
  at_ (m_items m) i = Some item ->
  indexOf m (id item) = i.
Proof.
  intros Hnd Hat.
  destruct (indexOf_first m (id item)) as [Hnone Hsome].
  assert (Hne : indexOf m (id item) <> -1).
  { intros E. exact (proj1 Hnone E item (at_In _ _ _ Hat) eq_refl). }
  destruct (Hsome Hne) as (Hrange & found & Hfound & Hid & _).
  pose proof (at_range _ _ _ Hat) as Hi.
  unfold at_ in Hat, Hfound.
  destruct (Z.ltb_spec i 0); [lia |].
  destruct (Z.ltb_spec (indexOf m (id item)) 0); [lia |].
  assert (E : Z.to_nat (indexOf m (id item)) = Z.to_nat i).
  { apply (proj1 (NoDup_nth_error (map id (m_items m)))); [assumption | |].
    - rewrite length_map. lia.
    - rewrite !nth_error_map, Hat, Hfound. simpl. now rewrite Hid. }
  lia.
Qed.

(** X4.  Drag and drop go round: with distinct layer ids, the data that
    [mimeData] makes for the layer at position [i] makes [dropMimeData]
    move the layer from [i], to the end of the list when the drop is on
    the empty area (row -1). *)
Theorem drag_and_drop (m : LayerListModel) (r i row : Z) (item : LayerListItem) :
  NoDup (map id (m_items m)) ->
  0 <= r ->
  at_ (m_items m) i = Some item ->
  exists data,
    mimeData m (createIndex r 0 i) = Some data
    /\ dropMimeData m data row
       = (false,
          handleMoveLayer m i
            (if row <? 0 then Z.of_nat (List.length (m_items m)) else row)).
Proof.
  intros Hnd Hr Hat. unfold mimeData, data.
  assert (Hv : isValid (createIndex r 0 i) = true)
    by (simpl; apply andb_true_iff; split; [now apply Z.leb_le | reflexivity]).
  rewrite Hv, Hat. simpl negb. cbv iota.
  eexists. split; [reflexivity |].
  simpl. now rewrite (indexOf_at m i item Hnd Hat).
Qed.

Lemma drag_and_drop_witness :
  exists data,
    mimeData Sample.abc (createIndex 2 0 2) = Some data
    /\ dropMimeData Sample.abc data (-1) = (false, handleMoveLayer Sample.abc 2 3).
Proof.
  apply (drag_and_drop Sample.abc 2 2 (-1) (Sample.layer 0x0103 "C" 2)).
  - simpl. repeat constructor; simpl; intuition discriminate.
  - lia.
  - reflexivity.
Defined.

(** X5.  A layer dropped where it is, or on the row right after it, still
    emits a layer-order command: the order the list has, bottom layer
    first, a 0 entry before each id. *)
Theorem handleMoveLayer_same_place (m : LayerListModel) (oldIdx newIdx : Z) :
  2 <= Z.of_nat (List.length (m_items m)) ->
  0 <= oldIdx < Z.of_nat (List.length (m_items m)) ->
  newIdx = oldIdx \/ newIdx = oldIdx + 1 ->
  handleMoveLayer m oldIdx newIdx
  = (m, [write_layerorder (localUserId (m_aclstate m))
                          (flat_map (fun li => [0; id li]) (rev (m_items m)))]).
Proof.
  intros Hcount Hold Hnew. unfold handleMoveLayer.
  destruct (Z.ltb_spec (Z.of_nat (List.length (m_items m))) 2); [lia |].
  assert (Hadj : (if newIdx >? oldIdx then newIdx - 1 else newIdx) = oldIdx).
  { destruct Hnew as [-> | ->].
    - destruct (Z.gtb_spec oldIdx oldIdx); lia.
    - destruct (Z.gtb_spec (oldIdx + 1) oldIdx); lia. }
  rewrite Hadj.
  destruct (Z.ltb_spec oldIdx 0); [lia |].
  destruct (Z.geb_spec oldIdx (Z.of_nat (List.length (m_items m)))); [lia |].
  cbn [orb]. unfold QVector_move. rewrite !Nat.eqb_refl.
  now rewrite LayerListFacts.rev_id_pairs.
Qed.

Lemma handleMoveLayer_same_place_witness :
  handleMoveLayer Sample.abc 1 2
  = (Sample.abc, [write_layerorder 1 [0; 0x0103; 0; 0x0102; 0; 0x0101]]).
Proof.
  apply (handleMoveLayer_same_place Sample.abc 1 2); simpl; lia.
Defined.

Lemma parent_seek_spec (items : list LayerListItem) (right_ : Z) :
  forall seek,
    (seek <= List.length items)%nat ->
    (parent_seek items right_ seek = Some Invalid
     /\ forall j item, (j < seek)%nat -> nth_error items j = Some item ->
                       right item <= right_)
    \/ exists p itp,
        parent_seek items right_ seek
        = Some (createIndex (relIndex itp) 0 (Z.of_nat p))
        /\ (p < seek)%nat /\ nth_error items p = Some itp /\ right_ < right itp
        /\ forall j item, (p < j < seek)%nat -> nth_error items j = Some item ->
                          right item <= right_.
Proof.
  induction seek as [| s IH]; intros Hlen.
  - left. split; [reflexivity | intros; lia].
  - simpl. destruct (nth_error items s) as [it |] eqn:E;
      [| apply nth_error_None in E; lia].
    destruct (Z.gtb_spec (right it) right_) as [Hgt | Hle].
    + right. exists s, it. repeat split; try assumption; try lia.
    + destruct IH as [[H1 H2] | (p & itp & H1 & Hp & Hat & Hr & Hbetween)]; [lia | |].
      * left. split; [assumption |]. intros j item Hj Hnth.
        destruct (Nat.eq_dec j s) as [-> | Hne]; [congruence |].
        apply (H2 j); [lia | assumption].
      * right. exists p, itp. repeat split; try assumption; try lia.
        intros j item Hj Hnth.
        destruct (Nat.eq_dec j s) as [-> | Hne]; [congruence |].
        apply (Hbetween j); [lia | assumption].
Qed.

(** X6.  [parent] never fails on an index that points into the list.  It
    answers the nearest item before the index whose [right] is greater,
    with that item's [relIndex] as row, or the invalid index when no item
    before has a greater [right]. *)
Theorem parent_nearest (m : LayerListModel) (r c i : Z) (item : LayerListItem) :
  isValid (createIndex r c i) = true ->
  at_ (m_items m) i = Some item ->
  (parent m (createIndex r c i) = Some Invalid
   /\ forall j before, 0 <= j < i -> at_ (m_items m) j = Some before ->
                       right before <= right item)
  \/ exists p itp,
      parent m (createIndex r c i) = Some (createIndex (relIndex itp) 0 p)
      /\ 0 <= p < i /\ at_ (m_items m) p = Some itp /\ right item < right itp
      /\ forall j between, p < j < i -> at_ (m_items m) j = Some between ->
                           right between <= right item.
Proof.
  intros Hv Hat. unfold parent. rewrite Hv, Hat. simpl negb. cbv iota.
  pose proof (at_range _ _ _ Hat) as Hi.
  destruct (parent_seek_spec (m_items m) (right item) (Z.to_nat i))
    as [[H1 H2] | (p & itp & H1 & Hp & Hnth & Hr & Hbetween)]; [lia | |].
  - left. split; [assumption |]. intros j before Hj Hb. unfold at_ in Hb.
    destruct (Z.ltb_spec j 0); [lia |]. apply (H2 (Z.to_nat j)); [lia | assumption].
  - right. exists (Z.of_nat p), itp. repeat split; try assumption; try lia.
    + unfold at_. destruct (Z.ltb_spec (Z.of_nat p) 0); [lia |]. now rewrite Nat2Z.id.
    + intros j between Hj Hb. unfold at_ in Hb.
      destruct (Z.ltb_spec j 0); [lia |].
      apply (Hbetween (Z.to_nat j)); [lia | assumption].
Qed.

Lemma parent_nearest_witness :
  parent Sample.abc (createIndex 1 0 1) = Some Invalid
  /\ forall j before, 0 <= j < 1 -> at_ (m_items Sample.abc) j = Some before ->
                      right before <= right (Sample.layer 0x0102 "B" 1).
Proof.
  destruct (parent_nearest Sample.abc 1 0 1 (Sample.layer 0x0102 "B" 1)
                           eq_refl eq_refl)
    as [H | (p & itp & H & _)]; [exact H | discriminate H].
Defined.

(** X7.  A valid index that [index] returns has the asked row and column 0,
    the row is below [rowCount] of the parent, and it points at an item of
    the list whose [relIndex] is the row; so [data] never fails on it. *)
Theorem index_in_range (m : LayerListModel) (row column : Z)
        (p idx : QModelIndex) :
  index m row column p = Some idx ->
  isValid idx = true ->
  exists cursor item n,
    idx = createIndex row 0 cursor /\ column = 0
    /\ at_ (m_items m) cursor = Some item /\ relIndex item = row
    /\ rowCount m p = Some n /\ 0 <= row < n
    /\ forall role, exists v, data m idx role = Some v.
Proof.
  unfold index. intros H Hv.
  destruct (m_items m) as [| first rest] eqn:Eitems;
    [injection H as <-; discriminate |].
  rewrite <- Eitems in *. clear first rest Eitems.
  destruct (Z.ltb_spec row 0) as [| Hrow]; [injection H as <-; discriminate |].
  destruct (Z.eqb_spec column 0) as [-> | Hcol];
    [| injection H as <-; discriminate].
  cbn [orb negb] in H.
  assert (Hfirst :
            forall cursor0,
              match at_ (m_items m) cursor0 with
              | Some it =>
                  match index_rows (m_items m) (Z.to_nat row) cursor0 (right it + 1) with
                  | Some (Some cursor) =>
                      match at_ (m_items m) cursor with
                      | Some it' =>
                          if relIndex it' =? row
                          then Some (createIndex row 0 cursor)
                          else None
                      | None => None
                      end
                  | Some None => Some Invalid
                  | None => None
                  end
              | None => None
              end = Some idx ->
              exists cursor item,
                idx = createIndex row 0 cursor
                /\ at_ (m_items m) cursor = Some item /\ relIndex item = row).
  { intros cursor0 H0.
    destruct (at_ (m_items m) cursor0) as [it |]; [| discriminate].
    destruct (index_rows _ _ _ _) as [[cursor |] |]; try discriminate;
      [| injection H0 as <-; discriminate].
    destruct (at_ (m_items m) cursor) as [it' |] eqn:E; [| discriminate].
    destruct (Z.eqb_spec (relIndex it') row); [| discriminate].
    injection H0 as <-. exists cursor, it'. repeat split; assumption. }
  assert (Hdata : forall cursor item,
             idx = createIndex row 0 cursor ->
             at_ (m_items m) cursor = Some item ->
             forall role, exists v, data m idx role = Some v).
  { intros cursor item -> Hat role. unfold data. rewrite Hv, Hat.
    simpl. eexists. reflexivity. }
  unfold rowCount.
  destruct p as [| pr pc pcursor].
  - destruct (Z.geb_spec row (m_rootLayerCount m));
      [injection H as <-; discriminate |].
    destruct (Hfirst 0 H) as (cursor & item & -> & Hat & Hrel).
    exists cursor, item, (m_rootLayerCount m).
    repeat split; try assumption; try lia. now apply (Hdata cursor item).
  - destruct (isValid (createIndex pr pc pcursor)).
    + destruct (at_ (m_items m) pcursor) as [pitem |]; [| discriminate].
      destruct (Z.geb_spec row (children pitem));
        [injection H as <-; discriminate |].
      destruct (Hfirst (pcursor + 1) H) as (cursor & item & -> & Hat & Hrel).
      exists cursor, item, (children pitem).
      repeat split; try assumption; try lia. now apply (Hdata cursor item).
    + destruct (Z.geb_spec row (m_rootLayerCount m));
        [injection H as <-; discriminate |].
      destruct (Hfirst 0 H) as (cursor & item & -> & Hat & Hrel).
      exists cursor, item, (m_rootLayerCount m).
      repeat split; try assumption; try lia. now apply (Hdata cursor item).
Qed.

Lemma index_in_range_witness :
  exists cursor item n,
    createIndex 1 0 1 = createIndex 1 0 cursor /\ 0 = 0
    /\ at_ (m_items Sample.abc) cursor = Some item /\ relIndex item = 1
    /\ rowCount Sample.abc Invalid = Some n /\ 0 <= 1 < n
    /\ forall role, exists v, data Sample.abc (createIndex 1 0 1) role = Some v.
Proof.
  apply (index_in_range Sample.abc 1 0 Invalid (createIndex 1 0 1)); reflexivity.
Defined.

Lemma count_roots_bounds (rest : list LayerListItem) :
  forall next n,
    n <= count_roots rest next n <= n + Z.of_nat (List.length rest).
Proof.
  induction rest as [| a rest IH]; intros next n; simpl; [lia |].
  destruct (left a =? next).
  - specialize (IH (right a + 1) (n + 1)). lia.
  - specialize (IH next n). lia.
Qed.

Lemma count_roots_flat (rest : list LayerListItem) :
  forall next rel n,
    flat_from next rel rest ->
    count_roots rest next n = n + Z.of_nat (List.length rest).
Proof.
  induction rest as [| a rest IH]; intros next rel n Hflat; simpl; [lia |].
  destruct Hflat as (Hl & _ & _ & Hrest).
  rewrite Hl, Z.eqb_refl, (IH _ _ _ Hrest). lia.
Qed.

Lemma isNew_spec (old : list LayerListItem) (newItem : LayerListItem) :
  isNew old newItem = true <->
  forall oldItem, In oldItem old -> id oldItem <> id newItem.
Proof.
  induction old as [| a old IH]; simpl.
  - split; [intros _ oldItem [] | reflexivity].
  - destruct (Z.eqb_spec (id a) (id newItem)) as [E | E].
    + split; [discriminate |]. intros H. exfalso. apply (H a); auto.
    + rewrite IH. split.
      * intros H oldItem [<- | Hin]; auto.
      * intros H oldItem Hin. apply H. now right.
Qed.

Lemma autoselect_loop_spec (m : LayerListModel) (localUser : Z)
      (items : list LayerListItem) :
  autoselect_loop m localUser items = -1
  \/ exists newItem,
      autoselect_loop m localUser items = id newItem
      /\ In newItem items
      /\ (forall oldItem, In oldItem (m_items m) -> id oldItem <> id newItem)
      /\ (creatorId newItem = localUser
          \/ m_autoselectAny m = true
             /\ (m_defaultLayer m = 0 \/ id newItem = m_defaultLayer m)).
Proof.
  induction items as [| a items IH]; simpl; [now left |].
  destruct (isNew (m_items m) a) eqn:Hnew; simpl.
  - destruct (_ || _) eqn:Hsel.
    + right. exists a. split; [reflexivity |]. split; [now left |].
      split; [now apply isNew_spec |].
      apply orb_true_iff in Hsel as [H | H]; [left; now apply Z.eqb_eq |].
      right. apply andb_true_iff in H as [Hany H]. split; [assumption |].
      apply orb_true_iff in H as [H | H].
      * apply andb_true_iff in H as [_ H]. right. now apply Z.eqb_eq.
      * left. now apply Z.eqb_eq.
    + destruct IH as [H | (newItem & H1 & H2 & H3)]; [now left |].
      right. exists newItem. split; [assumption |]. split; [now right | assumption].
  - destruct IH as [H | (newItem & H1 & H2 & H3)]; [now left |].
    right. exists newItem. split; [assumption |]. split; [now right | assumption].
Qed.

(** X8.  [setLayers] installs the new items and keeps the other members; the
    root-layer count it stores, which [rowCount] answers for the root, is
    0 for no items and otherwise between 1 and the number of items.  It
    asks for a selection at most once, never when the list has not grown,
    and only for the id of an item that is new to the list and was made
    by the local user or falls under the select-any rule. *)
Theorem setLayers_resets (m : LayerListModel) (items : list LayerListItem) :
  let m' := fst (setLayers m items) in
  let requests := snd (setLayers m items) in
  m_items m' = items
  /\ m_aclstate m' = m_aclstate m /\ m_defaultLayer m' = m_defaultLayer m
  /\ m_autoselectAny m' = m_autoselectAny m
  /\ rowCount m' Invalid = Some (m_rootLayerCount m')
  /\ (items = [] -> m_rootLayerCount m' = 0)
  /\ (items <> [] ->
      1 <= m_rootLayerCount m' <= Z.of_nat (List.length items))
  /\ ((List.length items <= List.length (m_items m))%nat -> requests = [])
  /\ (requests = []
      \/ exists newItem,
          requests = [id newItem] /\ In newItem items
          /\ (forall oldItem, In oldItem (m_items m) -> id oldItem <> id newItem)
          /\ (creatorId newItem = localUserId (m_aclstate m)
              \/ m_autoselectAny m = true
                 /\ (m_defaultLayer m = 0 \/ id newItem = m_defaultLayer m))).
Proof.
  intros m' requests. subst m' requests. unfold setLayers. cbn [fst snd m_items
    m_aclstate m_defaultLayer m_autoselectAny m_rootLayerCount rowCount].
  repeat split.
  - intros ->. reflexivity.
  - destruct items as [| a items]; [contradiction |].
    pose proof (count_roots_bounds items (right a + 1) 1). lia.
  - destruct items as [| a items]; [contradiction |].
    pose proof (count_roots_bounds items (right a + 1) 1).
    simpl List.length. lia.
  - intros Hlen.
    destruct (Z.ltb_spec (Z.of_nat (List.length (m_items m)))
                         (Z.of_nat (List.length items))); [lia | reflexivity].
  - destruct (_ <? _); [| now left].
    destruct (autoselect_loop_spec m (localUserId (m_aclstate m)) items)
      as [-> | (newItem & -> & H)]; [now left |].
    destruct (id newItem >=? 0); [| now left].
    right. exists newItem. split; [reflexivity | exact H].
Qed.

Lemma setLayers_resets_witness :
  snd (setLayers Sample.abc [Sample.layer 0x0101 "A" 0]) = [].
Proof.
  apply (setLayers_resets Sample.abc [Sample.layer 0x0101 "A" 0]).
  simpl. lia.
Defined.

Lemma flat_nth (items : list LayerListItem) :
  forall left_ rel j a,
    flat_from left_ rel items ->
    nth_error items j = Some a ->
    relIndex a = rel + Z.of_nat j /\ left_ <= left a <= right a
    /\ forall k b, (j < k)%nat -> nth_error items k = Some b -> right a < right b.
Proof.
  induction items as [| x items IH]; intros left_ rel j a Hflat Hnth;
    [destruct j; discriminate |].
  destruct Hflat as (Hl & Hle & Hrel & Hrest).
  destruct j as [| j]; simpl in Hnth.
  - injection Hnth as <-. repeat split; try lia.
    intros k b Hk Hb. destruct k as [| k]; [lia |]. simpl in Hb.
    destruct (IH _ _ k b Hrest Hb) as (_ & H & _). lia.
  - destruct (IH _ _ j a Hrest Hnth) as (H1 & H2 & H3).
    repeat split; try lia.
    intros k b Hk Hb. destruct k as [| k]; [lia |]. simpl in Hb.
    apply (H3 k); [lia | assumption].
Qed.

Lemma index_rows_flat (rows : nat) :
  forall (pre : list LayerListItem) (it : LayerListItem) (suf : list LayerListItem)
         (rel : Z),
    flat_from (left it) rel (it :: suf) ->
    (rows <= List.length suf)%nat ->
    index_rows (pre ++ it :: suf) rows (Z.of_nat (List.length pre)) (right it + 1)
    = Some (Some (Z.of_nat (List.length pre) + Z.of_nat rows)).
Proof.
  induction rows as [| rows IH]; intros pre it suf rel Hflat Hrows.
  - simpl. f_equal. f_equal. lia.
  - destruct suf as [| it' suf]; [simpl in Hrows; lia |].
    destruct Hflat as (_ & Hle & _ & Hl' & Hle' & Hrel' & Hrest).
    cbn [index_rows]. rewrite Nat2Z.id, skipn_length_app.
    cbn [skip_left].
    destruct (Z.ltb_spec (left it) (right it + 1)); [| lia].
    destruct (Z.ltb_spec (left it') (right it + 1)); [lia |].
    destruct (Z.eqb_spec (Z.of_nat (List.length pre) + 1)
                         (Z.of_nat (List.length (pre ++ it :: it' :: suf))))
      as [E | _]; [rewrite length_app in E; simpl in E; lia |].
    replace (Z.of_nat (List.length pre) + 1)
      with (Z.of_nat (List.length (pre ++ [it])))
      by (rewrite length_app; simpl; lia).
    replace (pre ++ it :: it' :: suf) with ((pre ++ [it]) ++ it' :: suf)
      by (now rewrite <- app_assoc).
    unfold at_. destruct (Z.ltb_spec (Z.of_nat (List.length (pre ++ [it]))) 0); [lia |].
    rewrite Nat2Z.id, nth_error_middle.
    destruct (Z.gtb_spec (left it') (right it + 1)); [lia |].
    rewrite (IH (pre ++ [it]) it' suf (rel + 1)).
    + f_equal. f_equal. rewrite length_app. simpl. lia.
    + simpl. repeat split; try assumption; lia.
    + simpl in Hrows. lia.
Qed.

(** X9.  After [setLayers] installs a flat list of layers, the rows of the
    root are the items in order: [index] of a row below the length is
    that item, its [parent] is the root, and its [sibling] one row below
    is the next item, or the invalid index after the last. *)
Theorem setLayers_flat_rows (m : LayerListModel) (items : list LayerListItem)
        (left_ row : Z) :
  let m' := fst (setLayers m items) in
  flat_from left_ 0 items ->
  0 <= row < Z.of_nat (List.length items) ->
  rowCount m' Invalid = Some (Z.of_nat (List.length items))
  /\ index m' row 0 Invalid = Some (createIndex row 0 row)
  /\ parent m' (createIndex row 0 row) = Some Invalid
  /\ sibling m' (createIndex row 0 row) (row + 1) 0
     = Some (if row + 1 <? Z.of_nat (List.length items)
             then createIndex (row + 1) 0 (row + 1) else Invalid).
Proof.
  intros m' Hflat Hrow.
  assert (Hitems : m_items m' = items) by reflexivity.
  assert (Hroot : m_rootLayerCount m' = Z.of_nat (List.length items)).
  { subst m'. unfold setLayers. cbn [fst m_rootLayerCount].
    destruct items as [| a rest]; [reflexivity |].
    destruct Hflat as (_ & _ & _ & Hrest).
    rewrite (count_roots_flat _ _ _ 1 Hrest). simpl List.length. lia. }
  assert (Hindex : forall r, 0 <= r < Z.of_nat (List.length items) ->
             index m' r 0 Invalid = Some (createIndex r 0 r)).
  { intros r Hr. unfold index. rewrite Hitems, Hroot.
    destruct items as [| a rest] eqn:E; [simpl in Hr; lia |]. rewrite <- E in *.
    destruct (Z.ltb_spec r 0); [lia |]. cbn [orb negb Z.eqb].
    destruct (Z.geb_spec r (Z.of_nat (List.length items))); [lia |].
    rewrite E at 1. cbn [at_ Z.ltb Z.compare Z.to_nat nth_error].
    assert (Hrows : index_rows items (Z.to_nat r) 0 (right a + 1) = Some (Some r)).
    { rewrite E.
      pose proof (index_rows_flat (Z.to_nat r) [] a rest 0) as Hrun.
      cbn [app List.length Z.of_nat] in Hrun. rewrite Hrun.
      - f_equal. f_equal. lia.
      - rewrite E in Hflat. destruct Hflat as (Hl & Hf). simpl.
        split; [reflexivity |]. rewrite <- Hl in Hf. exact Hf.
      - rewrite E in Hr. simpl List.length in Hr. lia. }
    rewrite Hrows.
    destruct (at_ items r) as [it |] eqn:Hat.
    - unfold at_ in Hat. destruct (r <? 0); [discriminate |].
      destruct (flat_nth items _ _ _ _ Hflat Hat) as (Hrel & _).
      replace (relIndex it =? r) with true; [reflexivity |].
      symmetry. apply Z.eqb_eq. lia.
    - unfold at_ in Hat. destruct (Z.ltb_spec r 0); [lia |].
      apply nth_error_None in Hat. lia. }
  assert (Hparent : parent m' (createIndex row 0 row) = Some Invalid).
  { destruct (at_ (m_items m') row) as [it |] eqn:Hat.
    - assert (Hv : isValid (createIndex row 0 row) = true)
        by (simpl; apply andb_true_iff; split; [apply Z.leb_le; lia | reflexivity]).
      destruct (parent_nearest m' row 0 row it Hv Hat)
        as [[H _] | (p & itp & _ & Hp & Hatp & Hr & _)]; [exact H |].
      exfalso. unfold at_ in Hat, Hatp.
      destruct (Z.ltb_spec row 0); [lia |]. destruct (Z.ltb_spec p 0); [lia |].
      rewrite Hitems in Hat, Hatp.
      destruct (flat_nth items _ _ _ _ Hflat Hatp) as (_ & _ & Hmono).
      specialize (Hmono (Z.to_nat row) it ltac:(lia) Hat). lia.
    - rewrite Hitems in Hat. unfold at_ in Hat. destruct (Z.ltb_spec row 0); [lia |].
      apply nth_error_None in Hat. lia. }
  split; [unfold rowCount; now rewrite Hroot |].
  split; [now apply Hindex |]. split; [exact Hparent |].
  unfold sibling. destruct (Z.eqb_spec row (row + 1)); [lia |].
  cbn [andb]. rewrite Hparent.
  destruct (Z.ltb_spec (row + 1) (Z.of_nat (List.length items))).
  - apply Hindex. lia.
  - unfold index. rewrite Hitems, Hroot.
    destruct items as [| a rest] eqn:E; [reflexivity |]. rewrite <- E in *.
    destruct (Z.ltb_spec (row + 1) 0); [lia |]. cbn [orb negb Z.eqb].
    destruct (Z.geb_spec (row + 1) (Z.of_nat (List.length items))); [reflexivity | lia].
Qed.

Lemma setLayers_flat_rows_witness :
  sibling (fst (setLayers Sample.abc (m_items Sample.abc))) (createIndex 2 0 2) 3 0
  = Some Invalid.
Proof.
  apply (setLayers_flat_rows Sample.abc (m_items Sample.abc) 1 2).
  - simpl. repeat split; lia.
  - simpl. lia.
Defined.

End LayerModelFacts.

(** ** The layer actions of the dock *)

Module LayerActionsFacts.
Import Qt LayerList LayerModel LayerDock LayerActions QtFacts.

(** A sibling on another row is found through [parent], which reads the
    item of the index. *)
Lemma sibling_reads_item (m : LayerListModel) (r c i row : Z) (below : QModelIndex) :
  isValid (createIndex r c i) = true -> row <> r ->
  sibling m (createIndex r c i) row 0 = Some below ->
  exists item, at_ (m_items m) i = Some item.
Proof.
  intros Hv Hrow. unfold sibling.
  destruct (Z.eqb_spec r row); [congruence |]. cbn [andb].
  unfold parent. rewrite Hv. simpl negb. cbv iota.
  destruct (at_ (m_items m) i) as [item |]; [eauto | discriminate].
Qed.

(** Where [canMergeCurrent] answers true, [mergeSelected] emits its
    command, and the merge target is a layer of the list that is not
    locked. *)
Lemma canMerge_then_merge (d : LayerListDock) :
  canMergeCurrent d = Some true ->
  exists selected item,
    mergeSelected d
    = Some [[makeUndoPoint (canvas_localUserId (m_canvas d));
             makeLayerDelete (canvas_localUserId (m_canvas d))
                             (Z.land (id selected) 0xffff)
                             (Z.land (id item) 0xffff)]]
    /\ In item (m_items (layerlist (m_canvas d)))
    /\ isLayerLocked (aclState (m_canvas d)) (id item) = false.
Proof.
  unfold canMergeCurrent, mergeSelected.
  set (layers := layerlist (m_canvas d)). set (index := currentSelection d).
  destruct (sibling layers index (row_of index + 1) 0) as [below |] eqn:Hs;
    [| discriminate].
  destruct (isValid index) eqn:Hi; simpl; [| discriminate].
  destruct (isValid below) eqn:Hb; simpl; [| discriminate].
  destruct (data layers below IsGroupRole) as [g |] eqn:Hg; [| discriminate].
  destruct (LayerDockFacts.data_valid _ _ _ _ Hb Hg) as (item & HD & HI & HG).
  rewrite HI. rewrite HG in Hg. injection Hg as <-. simpl.
  intros H. injection H as H. apply negb_true_iff in H.
  assert (Hin : In item (m_items layers)).
  { destruct below as [| r c i]; [discriminate |].
    unfold data in HD. rewrite Hb in HD. simpl in HD.
    destruct (at_ (m_items layers) i) as [it |] eqn:Hat; [| discriminate].
    injection HD as <-. eapply LayerModelFacts.at_In. eassumption. }
  destruct index as [| r c i] eqn:Eidx; [discriminate |].
  destruct (sibling_reads_item layers r c i (r + 1) below Hi ltac:(lia) Hs)
    as (selected & Hat).
  unfold data at 1. rewrite Hi, Hat. simpl.
  exists selected, item. repeat split; assumption.
Qed.

(** X10.  When [updateLockedControls] enables the merge action, it has enabled
    the delete, duplicate and properties actions and the lock button, a
    layer is selected, and triggering the action emits an undo point and
    a layer delete whose merge target is a layer of the list that is not
    locked. *)
Theorem merge_enabled_then_emits (v : LayerListView) (before after : Enabled) :
  hasEditActions v = true ->
  updateLockedControls v before = Some after ->
  mergeLayerAction after = true ->
  deleteLayerAction after = true /\ duplicateLayerAction after = true
  /\ propertiesAction after = true /\ lockButton after = true
  /\ m_selectedId v <> 0
  /\ exists selected item,
      mergeSelected (dock v)
      = Some [[makeUndoPoint (canvas_localUserId (m_canvas (dock v)));
               makeLayerDelete (canvas_localUserId (m_canvas (dock v)))
                               (Z.land (id selected) 0xffff)
                               (Z.land (id item) 0xffff)]]
      /\ In item (m_items (layerlist (m_canvas (dock v))))
      /\ isLayerLocked (aclState (m_canvas (dock v))) (id item) = false.
Proof.
  intros Hact H Hmerge. unfold updateLockedControls in H. rewrite Hact in H.
  set (enabled := negb (m_selectedId v =? 0) && _) in H.
  destruct enabled eqn:Hen.
  - destruct (canMergeCurrent (dock v)) as [merge |] eqn:Hcan; [| discriminate].
    injection H as <-. simpl in Hmerge. subst merge. simpl.
    repeat split.
    + subst enabled. apply andb_true_iff in Hen as [Hsel _].
      apply negb_true_iff in Hsel. now apply Z.eqb_neq.
    + now apply canMerge_then_merge.
  - injection H as <-. discriminate.
Qed.

Lemma merge_enabled_then_emits_witness :
  m_selectedId (ActionSample.view Sample.dock_abc 0x0101 true false) <> 0
  /\ exists selected item,
      mergeSelected Sample.dock_abc
      = Some [[makeUndoPoint 1;
               makeLayerDelete 1 (Z.land (id selected) 0xffff)
                               (Z.land (id item) 0xffff)]]
      /\ In item (m_items Sample.abc)
      /\ isLayerLocked (Sample.acl 1) (id item) = false.
Proof.
  destruct (merge_enabled_then_emits
              (ActionSample.view Sample.dock_abc 0x0101 true false)
              ActionSample.all_off ActionSample.all_on
              eq_refl eq_refl eq_refl) as (_ & _ & _ & _ & H).
  exact H.
Defined.

Lemma shiftr_land_ff00 (x : Z) :
  Z.shiftr (Z.land x 0xff00) 8 = Z.land (Z.shiftr x 8) 0xff.
Proof.
  apply Z.bits_inj'. intros n Hn.
  rewrite Z.shiftr_spec, !Z.land_spec, Z.shiftr_spec, testbit_ff00 by assumption.
  change 0xff with (Z.ones 8). rewrite Z.testbit_ones by lia.
  f_equal.
  destruct (Z.leb_spec 8 (n + 8)), (Z.ltb_spec (n + 8) 16),
           (Z.leb_spec 0 n), (Z.ltb_spec n 8); simpl; lia.
Qed.

Lemma creatorId_shift (item : LayerListItem) :
  creatorId item = Z.land (Z.shiftr (id item) 8) 0xff.
Proof.
  unfold creatorId. rewrite shiftr_land_ff00.
  change 0xff with (Z.ones 8). rewrite !Z.land_ones by lia.
  apply Z.mod_mod. discriminate.
Qed.

(** X11.  The dock and the layer item agree on who made a layer: the user that
    [layerCreatorName] looks up is [creatorId] of the layer, and for a
    16-bit id the user that [updateLockedControls] compares with the
    local user, [id >> 8], is [creatorId] too. *)
Theorem creator_expressions_agree (item : LayerListItem) :
  (forall (name : Type) (getUsername : Z -> name),
      layerCreatorName getUsername (id item) = getUsername (creatorId item))
  /\ (0 <= id item < 65536 -> Z.shiftr (id item) 8 = creatorId item).
Proof.
  split.
  - intros name getUsername. unfold layerCreatorName. now rewrite creatorId_shift.
  - intros Hid. rewrite creatorId_shift. symmetry. apply land_ff_small.
    rewrite Z.shiftr_div_pow2 by lia. change (2 ^ 8) with 256.
    split; [apply Z.div_pos; lia | apply Z.div_lt_upper_bound; lia].
Qed.

Lemma creator_expressions_agree_witness :
  Z.shiftr 0x0102 8 = creatorId (Sample.layer 0x0102 "B" 1).
Proof.
  apply (creator_expressions_agree (Sample.layer 0x0102 "B" 1)). simpl. lia.
Defined.

Lemma first_free_not_taken (prefix : Z) (takenIds : list Z) (n : nat) :
  forall i,
    first_free prefix takenIds n i = 0
    \/ contains takenIds (first_free prefix takenIds n i) = false.
Proof.
  induction n as [| n IH]; intros i; [now left |].
  simpl. destruct (contains takenIds (Z.lor prefix i)) eqn:E; simpl.
  - apply IH.
  - now right.
Qed.

Lemma shiftr_id (u i : Z) :
  0 <= u < 256 -> 0 <= i < 256 -> Z.shiftr (Z.lor (Z.shiftl u 8) i) 8 = u.
Proof.
  intros Hu Hi. rewrite Z.shiftr_lor, Z.shiftr_shiftl_l, Z.sub_diag by lia.
  rewrite Z.shiftl_0_r, (Z.shiftr_div_pow2 i) by lia.
  change (2 ^ 8) with 256. rewrite Z.div_small by lia. apply Z.lor_0_r.
Qed.

(** A nonzero id of [getAvailableLayerId] is in the local user's range
    and is the id of no layer. *)
Lemma getAvailableLayerId_fresh (m : LayerListModel) :
  0 <= localUserId (m_aclstate m) < 256 ->
  getAvailableLayerId m <> 0 ->
  (exists i, 0 <= i < 256
             /\ getAvailableLayerId m
                = Z.lor (Z.shiftl (localUserId (m_aclstate m)) 8) i)
  /\ forall item, In item (m_items m) -> id item <> getAvailableLayerId m.
Proof.
  intros Hu Hnz. unfold getAvailableLayerId in *.
  set (prefix := Z.shiftl (localUserId (m_aclstate m)) 8) in *.
  set (takenIds := map id (filter _ (m_items m))) in *.
  destruct (LayerListFacts.first_free_shape prefix takenIds 256 0)
    as [H | (k & Hk & H)]; [contradiction |].
  destruct (first_free_not_taken prefix takenIds 256 0) as [H0 | Hfree];
    [contradiction |].
  split; [exists k; split; [simpl in Hk; lia | exact H] |].
  intros item Hin E. rewrite H in Hfree, E.
  assert (Htaken : contains takenIds (Z.lor prefix k) = true).
  { apply (LayerListFacts.taken_iff m k); [assumption | simpl in Hk; lia |].
    exists item. split; assumption. }
  congruence.
Qed.

Lemma shiftr_creatorId (item : LayerListItem) :
  0 <= id item < 65536 -> Z.shiftr (id item) 8 = creatorId item.
Proof.
  intros Hid. rewrite creatorId_shift. symmetry. apply land_ff_small.
  rewrite Z.shiftr_div_pow2 by lia. change (2 ^ 8) with 256.
  split; [apply Z.div_pos; lia | apply Z.div_lt_upper_bound; lia].
Qed.

(** X12.  With the own-layers permission alone, and the selected id that
    of the selected layer, as [updateUiFromSelection] leaves it: for a
    layer that the local user made the lock button and the delete,
    duplicate and properties actions are enabled, and the merge action
    where [canMergeCurrent] says so; for a layer that another user made
    they are all disabled, while the add actions stay enabled. *)
Theorem own_layers_controls (v : LayerListView) (before : Enabled)
        (item : LayerListItem) :
  let layers := layerlist (m_canvas (dock v)) in
  let user := canvas_localUserId (m_canvas (dock v)) in
  canUseFeature v DP_FEATURE_EDIT_LAYERS = false ->
  canUseFeature v DP_FEATURE_OWN_LAYERS = true ->
  data layers (currentSelection (dock v)) DisplayRole = Some (QVariant_item item) ->
  m_selectedId v = id item ->
  0 < id item < 65536 ->
  (creatorId item = user ->
   updateLockedControls v before
   = if hasEditActions v
     then option_map
            (fun merge =>
               {| addLayerAction := true; addGroupAction := true;
                  lockButton := true; duplicateLayerAction := true;
                  propertiesAction := true; deleteLayerAction := true;
                  mergeLayerAction := merge |})
            (canMergeCurrent (dock v))
     else Some {| addLayerAction := addLayerAction before;
                  addGroupAction := addGroupAction before;
                  lockButton := true;
                  duplicateLayerAction := duplicateLayerAction before;
                  propertiesAction := propertiesAction before;
                  deleteLayerAction := deleteLayerAction before;
                  mergeLayerAction := mergeLayerAction before |})
  /\ (creatorId item <> user ->
      updateLockedControls v before
      = Some (if hasEditActions v
              then {| addLayerAction := true; addGroupAction := true;
                      lockButton := false; duplicateLayerAction := false;
                      propertiesAction := false; deleteLayerAction := false;
                      mergeLayerAction := false |}
              else {| addLayerAction := addLayerAction before;
                      addGroupAction := addGroupAction before;
                      lockButton := false;
                      duplicateLayerAction := duplicateLayerAction before;
                      propertiesAction := propertiesAction before;
                      deleteLayerAction := deleteLayerAction before;
                      mergeLayerAction := mergeLayerAction before |})).
Proof.
  intros layers user Hedit Hown _ Hsel Hid.
  unfold updateLockedControls. rewrite Hedit, Hown, Hsel. fold user.
  rewrite (shiftr_creatorId item) by lia.
  destruct (Z.eqb_spec (id item) 0) as [E | _]; [lia |].
  cbn [orb andb negb]. split.
  - intros ->. rewrite Z.eqb_refl.
    destruct (hasEditActions v); [| reflexivity].
    destruct (canMergeCurrent (dock v)) as [merge |]; reflexivity.
  - intros Hne. destruct (Z.eqb_spec (creatorId item) user); [contradiction |].
    destruct (hasEditActions v); reflexivity.
Qed.

Lemma own_layers_controls_witness :
  updateLockedControls (ActionSample.view Sample.dock_abc 0x0101 false true)
                       ActionSample.all_off
  = Some ActionSample.all_on.
Proof.
  exact (proj1 (own_layers_controls
                  (ActionSample.view Sample.dock_abc 0x0101 false true)
                  ActionSample.all_off (Sample.layer 0x0101 "A" 0)
                  eq_refl eq_refl eq_refl eq_refl ltac:(simpl; lia))
               eq_refl).
Defined.

Section CreateFacts.

Variables GROUP INTO LOCKED : Z.
Variables tr_Group tr_Layer : QString.

(** [layerIndex] answers for every id: the invalid index for an id that
    no layer has, and otherwise an index at the first layer with the id,
    on which [data] answers. *)
Lemma layerIndex_total (m : LayerListModel) (x : Z) :
  (forall item, In item (m_items m) -> 0 <= relIndex item) ->
  (layerIndex m x = Some Invalid
   /\ forall item, In item (m_items m) -> id item <> x)
  \/ exists item i,
      layerIndex m x = Some (createIndex (relIndex item) 0 i)
      /\ isValid (createIndex (relIndex item) 0 i) = true
      /\ at_ (m_items m) i = Some item
      /\ In item (m_items m) /\ id item = x.
Proof.
  intros Hrel. unfold layerIndex, indexOf.
  destruct (LayerModelFacts.indexOf_from_spec (m_items m) x 0)
    as [[H1 H2] | (pre & item & post & E & Hid & Hpre & H)].
  - left. rewrite H1. split; [reflexivity | exact H2].
  - right. rewrite Z.add_0_l in H. rewrite H.
    assert (Hat : at_ (m_items m) (Z.of_nat (List.length pre)) = Some item).
    { rewrite E. unfold at_.
      destruct (Z.ltb_spec (Z.of_nat (List.length pre)) 0); [lia |].
      rewrite Nat2Z.id. apply nth_error_middle. }
    assert (Hin : In item (m_items m))
      by (eapply LayerModelFacts.at_In; eassumption).
    exists item, (Z.of_nat (List.length pre)).
    destruct (Z.geb_spec (Z.of_nat (List.length pre)) 0); [| lia].
    rewrite Hat. repeat split; try assumption.
    simpl. apply andb_true_iff. split; [| reflexivity].
    apply Z.leb_le. now apply Hrel.
Qed.

(** X13.  [addLayerOrGroup] always comes to an end.  It emits nothing exactly
    when [getAvailableLayerId] is 0, which for local user 0 is also the
    case when id 0 is free.  Otherwise it emits an undo point and a layer
    create whose id is in the local user's range and is the id of no
    existing layer; the target is the selected id when a layer has it,
    and 0, with the flags of the kind alone, otherwise. *)
Theorem addLayerOrGroup_fresh_id (v : LayerListView) (group_ : bool) :
  let layers := layerlist (m_canvas (dock v)) in
  let user := localUserId (m_aclstate layers) in
  let selected := Z.land (m_selectedId v) 0xffff in
  let flags := Z.land (if group_ then GROUP else 0) 0xff in
  0 <= user < 256 ->
  (forall item, In item (m_items layers) -> 0 <= relIndex item) ->
  exists signals,
    addLayerOrGroup GROUP INTO tr_Group tr_Layer v group_ = Some signals
    /\ (signals = [] <-> getAvailableLayerId layers = 0)
    /\ (user = 0 -> (forall item, In item (m_items layers) -> id item <> 0) ->
        signals = [])
    /\ (signals <> [] ->
        exists target flags',
          signals
          = [[message (makeUndoPoint (canvas_localUserId (m_canvas (dock v))));
              makeLayerCreate (canvas_localUserId (m_canvas (dock v)))
                (getAvailableLayerId layers) 0 target 0 flags'
                (getAvailableLayerName layers
                                       (if group_ then tr_Group else tr_Layer))]]
          /\ Z.shiftr (getAvailableLayerId layers) 8 = user
          /\ (forall item, In item (m_items layers) ->
                           id item <> getAvailableLayerId layers)
          /\ (target = 0 /\ flags' = flags
              /\ (forall item, In item (m_items layers) -> id item <> selected)
              \/ target = selected
                 /\ (exists item, In item (m_items layers) /\ id item = selected)
                 /\ (flags' = flags
                     \/ flags' = Z.land (Z.lor flags INTO) 0xff))).
Proof.
  intros layers user selected flags Hu Hrel.
  unfold addLayerOrGroup. fold layers selected flags.
  destruct (Z.eqb_spec (getAvailableLayerId layers) 0) as [E0 | Hnz].
  { exists []. repeat split; auto. intros Hne. contradiction. }
  destruct (getAvailableLayerId_fresh layers Hu Hnz) as ((i & Hi & Eid) & Hfresh).
  assert (Hzero : user = 0 ->
                  (forall item, In item (m_items layers) -> id item <> 0) -> False).
  { intros Hzero Hfree. apply Hnz.
    unfold getAvailableLayerId. fold user. rewrite Hzero. simpl.
    destruct (contains _ 0) eqn:Hc; [| reflexivity].
    apply contains_In, in_map_iff in Hc as (item & E & Hin).
    apply filter_In in Hin as [Hin _]. exfalso. exact (Hfree item Hin E). }
  assert (Hcreator : Z.shiftr (getAvailableLayerId layers) 8 = user)
    by (rewrite Eid; now apply shiftr_id).
  destruct (layerIndex_total layers selected Hrel)
    as [[-> Hnone] | (item & pos & -> & Hv & Hat & Hin & Hid)].
  - cbn [isValid]. eexists. split; [reflexivity |].
    split; [split; [discriminate | contradiction] |].
    split; [intros Hz Hf; destruct (Hzero Hz Hf) |].
    intros _. do 2 eexists. split; [reflexivity |].
    split; [exact Hcreator |]. split; [exact Hfresh |].
    left. repeat split. exact Hnone.
  - rewrite Hv. unfold data. rewrite Hv, Hat. cbn [negb].
    eexists. split; [reflexivity |].
    split; [split; [discriminate | contradiction] |].
    split; [intros Hz Hf; destruct (Hzero Hz Hf) |].
    intros _. do 2 eexists. split; [reflexivity |].
    split; [exact Hcreator |]. split; [exact Hfresh |].
    right. split; [reflexivity |]. split; [exists item; split; assumption |].
    destruct (toBool _ && _); [now right | now left].
Qed.

(** X14.  [duplicateLayer] does not ask whether a layer is selected.  With a
    layer selected it emits, unless no id is free, an undo point and a
    layer create with a fresh id in the local user's range whose source
    and target are both the selected layer; with nothing selected it
    emits the same command with source and target 0 and an empty
    basename. *)
Theorem duplicateLayer_source (v : LayerListView) :
  let layers := layerlist (m_canvas (dock v)) in
  let user := localUserId (m_aclstate layers) in
  let ctx := canvas_localUserId (m_canvas (dock v)) in
  0 <= user < 256 ->
  getAvailableLayerId layers <> 0 ->
  Z.shiftr (getAvailableLayerId layers) 8 = user
  /\ (forall item, In item (m_items layers) -> id item <> getAvailableLayerId layers)
  /\ (forall layer,
         data layers (currentSelection (dock v)) DisplayRole
         = Some (QVariant_item layer) ->
         duplicateLayer v
         = Some [[message (makeUndoPoint ctx);
                  makeLayerCreate ctx (getAvailableLayerId layers)
                    (id layer) (id layer) 0 0
                    (getAvailableLayerName layers (title layer))]])
  /\ (isValid (currentSelection (dock v)) = false ->
      duplicateLayer v
      = Some [[message (makeUndoPoint ctx);
               makeLayerCreate ctx (getAvailableLayerId layers) 0 0 0 0
                 (getAvailableLayerName layers [])]]).
Proof.
  intros layers user ctx Hu Hnz.
  destruct (getAvailableLayerId_fresh layers Hu Hnz) as ((i & Hi & Eid) & Hfresh).
  split; [rewrite Eid; now apply shiftr_id |]. split; [exact Hfresh |].
  unfold duplicateLayer. fold layers ctx.
  destruct (Z.eqb_spec (getAvailableLayerId layers) 0); [contradiction |].
  split.
  - intros layer ->. reflexivity.
  - intros Hinv.
    replace (data layers (currentSelection (dock v)) DisplayRole)
      with (Some QVariant_null); [reflexivity |].
    unfold data. destruct (currentSelection (dock v)); [reflexivity |].
    now rewrite Hinv.
Qed.

(** X15.  The flags byte that [changeLayerAcl] sends holds the lock and the
    tier side by side: when the tier is a byte that does not use the lock
    bit, the lock bit of the flags is set exactly for a lock, and the
    flags without the lock bit are the tier.  Without a selection nothing
    is sent. *)
Theorem changeLayerAcl_flags (v : LayerListView) (lock : bool) (tier : Z)
        (exclusive : list Z) :
  0 <= LOCKED < 256 -> 0 <= tier < 256 -> Z.land tier LOCKED = 0 ->
  (isValid (currentSelection (dock v)) = false ->
   changeLayerAcl LOCKED v lock tier exclusive = Some [])
  /\ (forall layer,
         isValid (currentSelection (dock v)) = true ->
         data (layerlist (m_canvas (dock v))) (currentSelection (dock v)) DisplayRole
         = Some (QVariant_item layer) ->
         exists flags,
           changeLayerAcl LOCKED v lock tier exclusive
           = Some [[makeLayerAcl (canvas_localUserId (m_canvas (dock v)))
                      (Z.land (id layer) 0xffff) flags exclusive]]
           /\ Z.land flags LOCKED = (if lock then LOCKED else 0)
           /\ Z.land flags (Z.lnot LOCKED) = tier).
Proof.
  intros HL Ht Hdisj. split.
  - intros Hinv. unfold changeLayerAcl. now rewrite Hinv.
  - intros layer Hv Hdata. unfold changeLayerAcl. rewrite Hv.
    destruct (LayerDockFacts.data_item _ _ _ Hdata) as [-> _].
    eexists. split; [reflexivity |].
    rewrite (land_ff_small tier Ht).
    assert (Hbyte : Z.land (Z.lor (if lock then LOCKED else 0) tier) 0xff
                    = Z.lor (if lock then LOCKED else 0) tier).
    { apply Z.bits_inj'. intros n Hn.
      rewrite Z.land_spec, LayerDockFacts.testbit_ff by assumption.
      destruct (Z.ltb_spec n 8); [apply andb_true_r |].
      rewrite andb_false_r, Z.lor_spec.
      rewrite (testbit_small tier 8 n) by (change (2 ^ 8) with 256; lia).
      destruct lock; [| now rewrite Z.bits_0].
      now rewrite (testbit_small LOCKED 8 n) by (change (2 ^ 8) with 256; lia). }
    rewrite Hbyte. split.
    + rewrite Z.land_lor_distr_l, Hdisj, Z.lor_0_r.
      destruct lock; [apply Z.land_diag | apply Z.land_0_l].
    + rewrite Z.land_lor_distr_l.
      assert (Htier : Z.land tier (Z.lnot LOCKED) = tier).
      { apply Z.bits_inj'. intros n Hn.
        rewrite Z.land_spec, Z.lnot_spec by assumption.
        assert (Hb := Z.land_spec tier LOCKED n).
        rewrite Hdisj, Z.bits_0 in Hb.
        destruct (Z.testbit tier n), (Z.testbit LOCKED n); simpl in *; congruence. }
      rewrite Htier.
      destruct lock; [| now rewrite Z.land_0_l].
      replace (Z.land LOCKED (Z.lnot LOCKED)) with 0; [reflexivity |].
      symmetry. apply Z.bits_inj'. intros n Hn.
      rewrite Z.land_spec, Z.lnot_spec, Z.bits_0 by assumption.
      now destruct (Z.testbit LOCKED n).
Qed.

End CreateFacts.

Lemma addLayerOrGroup_fresh_id_witness :
  exists signals,
    addLayerOrGroup 1 2 (qs "Group") (qs "Layer")
                    (ActionSample.view Sample.dock_abc 0x0101 true false) false
    = Some signals
    /\ (signals = [] <-> getAvailableLayerId Sample.abc = 0).
Proof.
  destruct (addLayerOrGroup_fresh_id 1 2 (qs "Group") (qs "Layer")
              (ActionSample.view Sample.dock_abc 0x0101 true false) false
              ltac:(simpl; lia)
              ltac:(intros item Hin; simpl in Hin;
                    destruct Hin as [<- | [<- | [<- | []]]]; simpl; lia))
    as (signals & Hrun & Hempty & _).
  exists signals. split; [exact Hrun | exact Hempty].
Defined.

Lemma duplicateLayer_source_witness :
  duplicateLayer (ActionSample.view ActionSample.dock_unselected 0 true false)
  = Some [[message (makeUndoPoint 1);
           makeLayerCreate 1 0x0100 0 0 0 0 (qs " 1")]].
Proof.
  exact (proj2 (proj2 (proj2
           (duplicateLayer_source
              (ActionSample.view ActionSample.dock_unselected 0 true false)
              ltac:(simpl; lia) ltac:(discriminate)))) eq_refl).
Defined.

Lemma changeLayerAcl_flags_witness :
  exists flags,
    changeLayerAcl 0x80 (ActionSample.view Sample.dock_abc 0x0101 true false)
                   true 2 [3]
    = Some [[makeLayerAcl 1 0x0101 flags [3]]]
    /\ Z.land flags 0x80 = 0x80 /\ Z.land flags (Z.lnot 0x80) = 2.
Proof.
  apply (proj2 (changeLayerAcl_flags 0x80
                  (ActionSample.view Sample.dock_abc 0x0101 true false)
                  true 2 [3] ltac:(lia) ltac:(lia) eq_refl)
               (Sample.layer 0x0101 "A" 0));
    reflexivity.
Defined.

(** X16.  [deleteSelected] and [mergeSelected] read the id of the selected layer
    in two ways, from the item of the display role and from the id role:
    where a merge deletes layer [i] into the layer below, a delete on the
    same selection deletes the same layer, with no merge target, under an
    undo point of the same user. *)
Theorem delete_and_merge_same_layer (v : LayerListView) (undo : Message)
        (c i below : Z) :
  mergeSelected (dock v) = Some [[undo; makeLayerDelete c i below]] ->
  exists i',
    deleteSelected v
    = Some [[message undo; message (makeLayerDelete c i' 0)]]
    /\ Z.land i' 0xffff = i.
Proof.
  unfold mergeSelected, deleteSelected.
  set (layers := layerlist (m_canvas (dock v))).
  set (index := currentSelection (dock v)).
  destruct (isValid index) eqn:Hv; cbn [negb]; [| discriminate].
  destruct (sibling layers index (row_of index + 1) 0) as [below' |];
    [| discriminate].
  destruct (isValid below'); cbn [negb]; [| discriminate].
  destruct (data layers index IdRole) as [indexId |] eqn:Hid; [| discriminate].
  destruct (data layers below' IdRole) as [belowId |]; [| discriminate].
  destruct (LayerDockFacts.data_valid layers index IdRole indexId Hv Hid)
    as (item & Hitem & Hid' & _).
  rewrite Hid' in Hid. injection Hid as <-. rewrite Hitem.
  intros [= <- <- <- <-]. exists (id item). split; reflexivity.
Qed.

Lemma delete_and_merge_same_layer_witness :
  exists i',
    deleteSelected (ActionSample.view Sample.dock_abc 0x0101 true false)
    = Some [[message (makeUndoPoint 1); message (makeLayerDelete 1 i' 0)]]
    /\ Z.land i' 0xffff = 257.
Proof.
  apply (delete_and_merge_same_layer
           (ActionSample.view Sample.dock_abc 0x0101 true false)
           (makeUndoPoint 1) 1 257 258).
  reflexivity.
Defined.

End LayerActionsFacts.

(** ** The other fields of the text writer *)

Module TextFieldsFacts.
Import TextWriter TextFields TextWriterFacts.

Lemma put_put (w : DP_TextWriter) (a b : list ascii) :
  put (put w a) b = put w (a ++ b).
Proof. unfold put. simpl. now rewrite app_assoc. Qed.

Lemma format_put (w : DP_TextWriter) (a text : list ascii) :
  format_argument text (put w a) = (true, put w (a ++ text)).
Proof.
  rewrite format_argument_ok by reflexivity. now rewrite put_put.
Qed.

Lemma is_newline_eq (c : ascii) : is_newline c = true -> c = "010"%char.
Proof.
  unfold is_newline, Qt.code. intros H. apply Z.eqb_eq in H.
  rewrite <- (ascii_N_embedding c).
  replace (N_of_ascii c) with 10%N by lia. reflexivity.
Qed.

Lemma app3_length_skip {A} (pre cur rest : list A) :
  firstn (List.length pre + List.length cur - List.length pre)
         (skipn (List.length pre) (pre ++ cur ++ rest)) = cur.
Proof.
  rewrite QtFacts.skipn_length_app.
  replace (List.length pre + List.length cur - List.length pre)%nat
    with (List.length cur) by lia.
  apply QtFacts.firstn_length_app.
Qed.

(** The loop of [buffer_multiline_argument]: with [cur] the piece of the
    line read so far and [rest] still to read, it buffers lines that,
    joined by line feeds, are [cur ++ rest]. *)
Lemma multiline_loop_lines (key : list ascii) :
  forall (rest pre cur : list ascii) (w : DP_TextWriter) (mo : DP_Output),
    multiline_output w = Some mo -> writable mo = true ->
    no_newline cur ->
    exists lines,
      multiline_loop key (pre ++ cur ++ rest) rest
                     (List.length pre) (List.length pre + List.length cur) w
      = (true, buffered w (flat_map (line_of key) lines))
      /\ join_lines lines = cur ++ rest
      /\ lines <> [] /\ Forall no_newline lines.
Proof.
  induction rest as [| c rest IH]; intros pre cur w mo Hmo Hw Hcur.
  - exists [cur]. cbn [multiline_loop].
    rewrite (buffer_line_ok _ _ _ _ _ Hmo Hw), app3_length_skip.
    simpl. rewrite !app_nil_r. repeat split; [discriminate |].
    constructor; [assumption | constructor].
  - cbn [multiline_loop]. destruct (is_newline c) eqn:Hc.
    + unfold and_then.
      rewrite (buffer_line_ok _ _ _ _ _ Hmo Hw), app3_length_skip.
      destruct (IH (pre ++ cur ++ [c]) [] (buffered w (line_of key cur))
                   {| written := multiline_buffer w ++ line_of key cur;
                      writable := true |} eq_refl eq_refl eq_refl)
        as (lines & Hrun & Hjoin & Hne & Hall).
      replace ((pre ++ cur ++ [c]) ++ [] ++ rest) with (pre ++ cur ++ c :: rest)
        in Hrun by (now rewrite <- !app_assoc).
      replace (List.length (pre ++ cur ++ [c]))
        with (S (List.length pre + List.length cur)) in Hrun
        by (rewrite !length_app; simpl; lia).
      simpl List.length in Hrun. rewrite Nat.add_0_r in Hrun.
      rewrite Hrun, buffered_buffered.
      exists (cur :: lines). split; [reflexivity |].
      split; [| split; [discriminate | now constructor]].
      destruct lines as [| l ls]; [contradiction |].
      change (join_lines (cur :: l :: ls))
        with (cur ++ "010"%char :: join_lines (l :: ls)).
      rewrite Hjoin. simpl. now rewrite (is_newline_eq c Hc).
    + destruct (IH pre (cur ++ [c]) w mo Hmo Hw) as (lines & Hrun & Hjoin & Hrest).
      { unfold no_newline in *. rewrite forallb_app, Hcur. simpl. now rewrite Hc. }
      replace (pre ++ (cur ++ [c]) ++ rest) with (pre ++ cur ++ c :: rest)
        in Hrun by (now rewrite <- !app_assoc).
      replace (List.length pre + List.length (cur ++ [c]))%nat
        with (S (List.length pre + List.length cur)) in Hrun
        by (rewrite length_app; simpl; lia).
      exists lines. split; [exact Hrun |].
      rewrite <- app_assoc in Hjoin. split; [exact Hjoin | exact Hrest].
Qed.

(** X17.  A string value without whitespace is written on the command line as
    [ key=value].  A value with whitespace leaves the command line as it
    is and goes to the multi-line block, cut at its line feeds: the lines
    hold no line feed and, joined by line feeds, give the value back. *)
Theorem write_string_lines (key value : list ascii) (writer : DP_TextWriter) :
  writable (output writer) = true ->
  (forall mo, multiline_output writer = Some mo -> writable mo = true) ->
  (contains_whitespace value = false ->
   DP_text_writer_write_string key value writer
   = (true, put writer (" " :: key ++ "=" :: value)%char))
  /\ (contains_whitespace value = true ->
      exists lines,
        DP_text_writer_write_string key value writer
        = (true, buffered writer
                   (flat_map (fun line => "010" :: "009" :: key ++ "=" :: line)%char
                             lines))
        /\ join_lines lines = value
        /\ lines <> []
        /\ Forall (fun line => forallb (fun c => negb (is_newline c)) line = true)
                  lines).
Proof.
  intros Hout Hmulti. unfold DP_text_writer_write_string. split.
  - intros ->. now apply format_argument_ok.
  - intros ->. unfold buffer_multiline_argument.
    destruct (multiline_output writer) as [mo |] eqn:Hmo.
    + destruct (multiline_loop_lines key value [] [] writer mo Hmo
                                     (Hmulti mo eq_refl) eq_refl)
        as (lines & Hrun & Hrest).
      exists lines. split; [exact Hrun | exact Hrest].
    + destruct (multiline_loop_lines key value [] []
                  {| output := output writer;
                     multiline_output := Some DP_mem_output_new |}
                  DP_mem_output_new eq_refl eq_refl eq_refl)
        as (lines & Hrun & Hrest).
      exists lines. simpl in Hrun. rewrite Hrun. split; [| exact Hrest].
      unfold buffered, multiline_buffer. simpl. now rewrite Hmo.
Qed.

Lemma write_string_lines_witness :
  exists lines,
    DP_text_writer_write_string (cstr "text") (cstr "two words") Sample.writer
    = (true, buffered Sample.writer
               (flat_map (fun line => "010" :: "009" :: cstr "text" ++ "=" :: line)%char
                         lines))
    /\ join_lines lines = cstr "two words"
    /\ lines <> []
    /\ Forall (fun line => forallb (fun c => negb (is_newline c)) line = true) lines.
Proof.
  apply (write_string_lines (cstr "text") (cstr "two words") Sample.writer);
    [reflexivity | discriminate | reflexivity].
Defined.

Lemma flags_loop_more (key : list ascii) (value : Z) (args : list (list ascii * Z)) :
  forall (w : DP_TextWriter) (a : list ascii),
    flags_loop key value args false (put w a)
    = (true,
       put w (a ++ flat_map (fun name => ","%char :: name)
                            (map fst (filter (fun arg => negb (Z.land value (snd arg) =? 0))
                                             args)))).
Proof.
  induction args as [| [name mask] args IH]; intros w a; simpl.
  - now rewrite app_nil_r.
  - destruct (Z.land value mask =? 0); simpl; [apply IH |].
    unfold and_then. rewrite format_put, IH. now rewrite <- app_assoc.
Qed.

Lemma join_commas_cons (item : list ascii) (items : list (list ascii)) :
  join_commas (item :: items)
  = item ++ flat_map (fun name => ","%char :: name) items.
Proof.
  revert item. induction items as [| b items IH]; intros item.
  - simpl. now rewrite app_nil_r.
  - change (join_commas (item :: b :: items))
      with (item ++ ","%char :: join_commas (b :: items)).
    now rewrite IH.
Qed.

(** X18.  [DP_text_writer_write_flags] writes the names of the flags that the
    value has set, in the order of the arguments and joined by commas,
    after [ key=]; when the value has none of the flags it writes
    nothing, not even the key. *)
Theorem write_flags_names (key : list ascii) (value : Z)
        (args : list (list ascii * Z)) (writer : DP_TextWriter) :
  let names :=
    map fst (filter (fun arg => negb (Z.land value (snd arg) =? 0)) args) in
  writable (output writer) = true ->
  (names = [] -> DP_text_writer_write_flags key value args writer = (true, writer))
  /\ (names <> [] ->
      DP_text_writer_write_flags key value args writer
      = (true, put writer (" " :: key ++ "=" :: join_commas names)%char)).
Proof.
  intros names Hout. subst names. unfold DP_text_writer_write_flags.
  induction args as [| [name mask] args IH]; cbn [flags_loop filter snd].
  - split; [reflexivity | contradiction].
  - destruct (Z.land value mask =? 0); cbn [negb map fst]; [exact IH |].
    split; [discriminate |]. intros _. unfold and_then.
    rewrite format_argument_ok by assumption.
    rewrite flags_loop_more, join_commas_cons.
    f_equal. f_equal. cbn [app]. now rewrite <- app_assoc.
Qed.

Lemma write_flags_names_witness :
  DP_text_writer_write_flags (cstr "flags") 5
    [(cstr "censor", 1); (cstr "fixed", 2); (cstr "isolated", 4)] Sample.writer
  = (true, put Sample.writer (cstr " flags=censor,isolated")).
Proof.
  apply (write_flags_names (cstr "flags") 5
           [(cstr "censor", 1); (cstr "fixed", 2); (cstr "isolated", 4)]
           Sample.writer eq_refl).
  discriminate.
Defined.

Lemma list_loop_more (fmt : Z -> list ascii) (value : list Z) (n : nat) :
  forall (i : nat) (w : DP_TextWriter) (a : list ascii),
    (i + n <= List.length value)%nat ->
    list_loop fmt value n i (put w a)
    = (true,
       put w (a ++ flat_map (fun item => ","%char :: item)
                            (map fmt (firstn n (skipn i value))))).
Proof.
  induction n as [| n IH]; intros i w a Hlen; simpl.
  - now rewrite app_nil_r.
  - unfold and_then. rewrite format_put, IH by lia.
    destruct (skipn i value) as [| x rest] eqn:E.
    + apply (f_equal (@List.length Z)) in E. rewrite length_skipn in E.
      simpl in E. lia.
    + assert (Hnth : nth i value 0 = x).
      { rewrite <- (firstn_skipn i value), E, app_nth2
          by (rewrite length_firstn; lia).
        rewrite length_firstn.
        replace (i - Nat.min i (List.length value))%nat with 0%nat by lia.
        reflexivity. }
      assert (Hskip : skipn (S i) value = rest).
      { replace (S i) with (1 + i)%nat by lia.
        rewrite <- skipn_skipn, E. reflexivity. }
      rewrite Hnth, Hskip. simpl. now rewrite <- app_assoc.
Qed.

(** The [WRITE_LIST] fields: given as many values as [count] says, the
    field is [ key=] and the formatted values joined by commas, and for
    no values [ key=] alone. *)
Lemma WRITE_LIST_text (fmt : Z -> list ascii) (key : list ascii)
      (value : list Z) (writer : DP_TextWriter) :
  writable (output writer) = true ->
  WRITE_LIST fmt key value (Z.of_nat (List.length value)) writer
  = (true, put writer (" " :: key ++ "=" :: join_commas (map fmt value))%char).
Proof.
  intros Hout. unfold WRITE_LIST.
  destruct value as [| x rest].
  - simpl. now apply format_argument_ok.
  - destruct (Z.eqb_spec (Z.of_nat (List.length (x :: rest))) 0) as [E | _];
      [simpl in E; lia |].
    unfold and_then. rewrite format_argument_ok by assumption.
    replace (Z.to_nat (Z.of_nat (List.length (x :: rest)) - 1))
      with (List.length rest) by (simpl List.length; lia).
    rewrite list_loop_more by (simpl; lia).
    cbn [skipn nth map]. rewrite firstn_all, join_commas_cons.
    f_equal. f_equal. simpl. now rewrite <- app_assoc.
Qed.

(** Two texts, each a run of digits followed by nothing or by a
    character that is no digit, are equal only piece by piece. *)
Lemma digits_then_rest (d1 : list ascii) :
  forall d2 t1 t2,
    forallb Qt.isDigit d1 = true -> forallb Qt.isDigit d2 = true ->
    (t1 = [] \/ exists c r, t1 = c :: r /\ Qt.isDigit c = false) ->
    (t2 = [] \/ exists c r, t2 = c :: r /\ Qt.isDigit c = false) ->
    d1 ++ t1 = d2 ++ t2 -> d1 = d2 /\ t1 = t2.
Proof.
  induction d1 as [| a d1 IH]; intros d2 t1 t2 H1 H2 Ht1 Ht2 E.
  - destruct d2 as [| b d2]; [now split |]. exfalso. simpl in *.
    apply andb_true_iff in H2 as [Hb _].
    destruct Ht1 as [-> | (c & r & -> & Hc)]; [discriminate |].
    injection E as -> _. congruence.
  - destruct d2 as [| b d2]; simpl in *.
    + exfalso. apply andb_true_iff in H1 as [Ha _].
      destruct Ht2 as [-> | (c & r & -> & Hc)]; [discriminate |].
      injection E as <- _. congruence.
    + injection E as -> E.
      apply andb_true_iff in H1 as [_ H1]. apply andb_true_iff in H2 as [_ H2].
      destruct (IH d2 t1 t2 H1 H2 Ht1 Ht2 E) as [-> ->]. now split.
Qed.

Lemma number_inj (a b : Z) :
  0 <= a -> 0 <= b -> Qt.number a = Qt.number b -> a = b.
Proof.
  intros Ha Hb E.
  destruct (QStringFacts.number_spec a Ha) as (_ & _ & <-).
  destruct (QStringFacts.number_spec b Hb) as (_ & _ & <-).
  now rewrite E.
Qed.

Lemma join_commas_numbers_inj (l1 : list Z) :
  forall l2,
    Forall (fun v => 0 <= v) l1 -> Forall (fun v => 0 <= v) l2 ->
    join_commas (map Qt.number l1) = join_commas (map Qt.number l2) ->
    l1 = l2.
Proof.
  assert (Htail : forall l : list Z,
             let t := flat_map (fun item => ","%char :: item) (map Qt.number l) in
             t = [] \/ exists c r, t = c :: r /\ Qt.isDigit c = false).
  { intros [| x l]; [now left |]. right. simpl. eauto. }
  assert (Hnil : forall l : list Z,
             flat_map (fun item => ","%char :: item) (map Qt.number l) = [] ->
             l = []).
  { intros [| x l]; [reflexivity | discriminate]. }
  induction l1 as [| a l1 IH]; intros l2 H1 H2 E.
  - destruct l2 as [| b l2]; [reflexivity |]. exfalso.
    change (map Qt.number (b :: l2)) with (Qt.number b :: map Qt.number l2) in E.
    rewrite join_commas_cons in E. simpl in E.
    inversion H2 as [| ? ? Hb _]; subst.
    destruct (QStringFacts.number_spec b Hb) as (Hne & _).
    destruct (Qt.number b); [contradiction | discriminate].
  - destruct l2 as [| b l2].
    + exfalso.
      change (map Qt.number (a :: l1)) with (Qt.number a :: map Qt.number l1) in E.
      rewrite join_commas_cons in E. simpl in E.
      inversion H1 as [| ? ? Ha _]; subst.
      destruct (QStringFacts.number_spec a Ha) as (Hne & _).
      destruct (Qt.number a); [contradiction | discriminate].
    + change (map Qt.number (a :: l1)) with (Qt.number a :: map Qt.number l1) in E.
      change (map Qt.number (b :: l2)) with (Qt.number b :: map Qt.number l2) in E.
      rewrite !join_commas_cons in E.
      inversion H1 as [| ? ? Ha H1']; subst. inversion H2 as [| ? ? Hb H2']; subst.
      destruct (QStringFacts.number_spec a Ha) as (_ & Hda & _).
      destruct (QStringFacts.number_spec b Hb) as (_ & Hdb & _).
      destruct (digits_then_rest _ _ _ _ Hda Hdb (Htail l1) (Htail l2) E)
        as [Hnum Hrest].
      apply number_inj in Hnum; [| assumption | assumption]. subst b. f_equal.
      destruct l1 as [| x l1], l2 as [| y l2]; try reflexivity; try discriminate.
      apply IH; [assumption | assumption |].
      change (map Qt.number (x :: l1)) with (Qt.number x :: map Qt.number l1).
      change (map Qt.number (y :: l2)) with (Qt.number y :: map Qt.number l2).
      rewrite !join_commas_cons.
      simpl in Hrest. now injection Hrest.
Qed.

(** X19.  A list of unsigned values is written as [ key=] and their decimal
    forms joined by commas, and the field tells the list: two lists that
    leave the same text are the same list. *)
Theorem write_uint_list_text (key : list ascii) (value : list Z)
        (writer : DP_TextWriter) :
  writable (output writer) = true ->
  Forall (fun v => 0 <= v < 2 ^ 32) value ->
  DP_text_writer_write_uint_list key value (Z.of_nat (List.length value)) writer
  = (true, put writer (" " :: key ++ "=" :: join_commas (map Qt.number value))%char)
  /\ forall other,
      Forall (fun v => 0 <= v < 2 ^ 32) other ->
      DP_text_writer_write_uint_list key other (Z.of_nat (List.length other)) writer
      = DP_text_writer_write_uint_list key value (Z.of_nat (List.length value)) writer ->
      other = value.
Proof.
  intros Hout Hrange.
  assert (Htext : forall l, Forall (fun v => 0 <= v < 2 ^ 32) l ->
             DP_text_writer_write_uint_list key l (Z.of_nat (List.length l)) writer
             = (true, put writer
                        (" " :: key ++ "=" :: join_commas (map Qt.number l))%char)).
  { intros l Hl. unfold DP_text_writer_write_uint_list.
    rewrite WRITE_LIST_text by assumption.
    do 6 f_equal.
    apply map_ext_in. intros v Hv. unfold to_unsigned.
    rewrite Forall_forall in Hl. now rewrite Z.mod_small by (apply Hl; assumption). }
  split; [now apply Htext |].
  intros other Hother E. rewrite !Htext in E by assumption.
  injection E as E. apply app_inv_head in E.
  injection E as E. apply app_inv_head in E. injection E as E.
  apply join_commas_numbers_inj; [| | assumption].
  - eapply Forall_impl; [| exact Hother]. simpl. intros; lia.
  - eapply Forall_impl; [| exact Hrange]. simpl. intros; lia.
Qed.

Lemma write_uint_list_text_witness :
  DP_text_writer_write_uint_list (cstr "users") [3; 14; 15] 3 Sample.writer
  = (true, put Sample.writer (cstr " users=3,14,15")).
Proof.
  apply (write_uint_list_text (cstr "users") [3; 14; 15] Sample.writer eq_refl).
  repeat constructor; simpl; lia.
Defined.

Lemma hex_char_spec (d : Z) :
  0 <= d <= 15 ->
  is_hex_digit (hex_char d) = true /\ hex_digit_value (hex_char d) = d.
Proof.
  intros H.
  assert (d = 0 \/ d = 1 \/ d = 2 \/ d = 3 \/ d = 4 \/ d = 5 \/ d = 6 \/ d = 7
          \/ d = 8 \/ d = 9 \/ d = 10 \/ d = 11 \/ d = 12 \/ d = 13 \/ d = 14
          \/ d = 15) as Hd by lia.
  repeat (destruct Hd as [-> | Hd]; [split; reflexivity |]).
  subst. split; reflexivity.
Qed.

Lemma hex_value_app (s : list ascii) (c : ascii) :
  hex_value (s ++ [c]) = 16 * hex_value s + hex_digit_value c.
Proof. unfold hex_value. now rewrite fold_left_app. Qed.

(** With enough fuel, [hex_of] puts before [acc] the hexadecimal digits of
    [n]: they spell [n], and a number below [16^k] has at most [k]. *)
Lemma hex_of_spec (fuel : nat) :
  forall (n : Z) (acc : list ascii),
    0 <= n < 16 ^ Z.of_nat fuel -> (0 < fuel)%nat ->
    exists ds,
      hex_of fuel n acc = ds ++ acc
      /\ forallb is_hex_digit ds = true /\ hex_value ds = n
      /\ forall k, (0 < k)%nat -> n < 16 ^ Z.of_nat k ->
                   (1 <= List.length ds <= k)%nat.
Proof.
  induction fuel as [| f IH]; intros n acc Hn Hf; [lia |].
  simpl hex_of.
  assert (Hmod : 0 <= n mod 16 <= 15) by (pose proof (Z.mod_pos_bound n 16); lia).
  destruct (hex_char_spec _ Hmod) as [Hd Hv].
  destruct (Z.ltb_spec n 16) as [Hsmall | Hbig].
  - exists [hex_char (n mod 16)]. repeat split.
    + simpl. now rewrite Hd.
    + unfold hex_value. simpl. rewrite Hv. apply Z.mod_small. lia.
    + simpl. lia.
    + simpl. lia.
  - assert (Hf' : (0 < f)%nat).
    { destruct f; [| lia]. change (16 ^ Z.of_nat 1) with 16 in Hn. lia. }
    destruct (IH (n / 16) (hex_char (n mod 16) :: acc))
      as (ds & E & Hall & Hval & Hlen).
    + rewrite Nat2Z.inj_succ, Z.pow_succ_r in Hn by lia.
      split; [apply Z.div_pos; lia |].
      apply Z.div_lt_upper_bound; lia.
    + assumption.
    + exists (ds ++ [hex_char (n mod 16)]). repeat split.
      * rewrite E, <- app_assoc. reflexivity.
      * rewrite forallb_app, Hall. simpl. now rewrite Hd.
      * rewrite hex_value_app, Hval, Hv.
        pose proof (Z.div_mod n 16). lia.
      * rewrite length_app. simpl. lia.
      * rewrite length_app. simpl.
        destruct k as [| [| k]]; [lia | change (16 ^ Z.of_nat 1) with 16 in H0; lia |].
        assert (n / 16 < 16 ^ Z.of_nat (S k)).
        { rewrite (Nat2Z.inj_succ (S k)), Z.pow_succ_r in H0 by lia.
          apply Z.div_lt_upper_bound; lia. }
        specialize (Hlen (S k) ltac:(lia) ltac:(assumption)). lia.
Qed.

Lemma hex_value_zeros (j : nat) (ds : list ascii) :
  hex_value (repeat "0"%char j ++ ds) = hex_value ds.
Proof.
  unfold hex_value. rewrite fold_left_app.
  replace (fold_left (fun acc c => 16 * acc + hex_digit_value c)
                     (repeat "0"%char j) 0) with 0; [reflexivity |].
  induction j as [| j IH]; [reflexivity |]. simpl. exact IH.
Qed.

(** [%0<width>x] of a number below [16^width]: exactly [width]
    hexadecimal digits, which spell the number. *)
Lemma printf_0x_spec (width : nat) (n : Z) :
  (0 < width)%nat -> 0 <= n < 16 ^ Z.of_nat width ->
  List.length (printf_0x width n) = width
  /\ forallb is_hex_digit (printf_0x width n) = true
  /\ hex_value (printf_0x width n) = n.
Proof.
  intros Hw Hn. unfold printf_0x.
  destruct (hex_of_spec (S (Z.to_nat (Z.log2 n))) n [])
    as (ds & E & Hall & Hval & Hlen); [| lia |].
  - split; [lia |].
    destruct (Z.eq_dec n 0) as [-> | Hz]; [reflexivity |].
    pose proof (Z.log2_nonneg n).
    rewrite Nat2Z.inj_succ, Z2Nat.id by assumption.
    assert (n < 2 ^ Z.succ (Z.log2 n)) by (apply Z.log2_spec; lia).
    assert (2 ^ Z.succ (Z.log2 n) <= 16 ^ Z.succ (Z.log2 n))
      by (apply Z.pow_le_mono_l; lia).
    lia.
  - rewrite E, app_nil_r. specialize (Hlen width Hw ltac:(lia)).
    split; [| split].
    + rewrite length_app, repeat_length. lia.
    + rewrite forallb_app, Hall, andb_true_r.
      apply forallb_forall. intros c Hc. apply repeat_spec in Hc. now subst.
    + now rewrite hex_value_zeros.
Qed.

Lemma testbit_alpha (n : Z) :
  Z.testbit ALPHA_MASK n = (24 <=? n) && (n <? 32).
Proof.
  change ALPHA_MASK with (Z.shiftl (Z.ones 8) 24).
  destruct (Z.leb_spec 0 n) as [Hn | Hn].
  - rewrite Z.shiftl_spec by assumption. rewrite Z.testbit_ones by lia.
    destruct (Z.leb_spec 0 (n - 24)), (Z.leb_spec 24 n),
             (Z.ltb_spec (n - 24) 8), (Z.ltb_spec n 32); simpl; lia.
  - rewrite Z.testbit_neg_r by assumption.
    destruct (Z.leb_spec 24 n); simpl; lia.
Qed.

Lemma rgb_range (bgra : Z) : 0 <= Z.land bgra RGB_MASK < 16 ^ 6.
Proof.
  change RGB_MASK with (Z.ones 24). rewrite Z.land_ones by lia.
  change (16 ^ 6) with (2 ^ 24). apply Z.mod_pos_bound. lia.
Qed.

Lemma opaque_colour (bgra : Z) :
  0 <= bgra < 2 ^ 32 -> Z.land bgra ALPHA_MASK = ALPHA_MASK ->
  Z.lor ALPHA_MASK (Z.land bgra RGB_MASK) = bgra.
Proof.
  intros Hr Ha. apply Z.bits_inj'. intros n Hn.
  assert (Hbit := Z.land_spec bgra ALPHA_MASK n). rewrite Ha in Hbit.
  rewrite Z.lor_spec, Z.land_spec. rewrite testbit_alpha in *.
  change RGB_MASK with (Z.ones 24). rewrite Z.testbit_ones_nonneg by lia.
  destruct (Z.leb_spec 24 n), (Z.ltb_spec n 32), (Z.ltb_spec n 24);
    simpl in *; try lia.
  - now destruct (Z.testbit bgra n).
  - rewrite andb_false_r. symmetry. apply (QtFacts.testbit_small bgra 32); lia.
  - now rewrite andb_true_r.
Qed.

(** X20.  A colour whose alpha is [ff] is written as [#] and six hexadecimal
    digits, every other colour as [#] and eight, and the digits give the
    colour back: six digits spell its red, green and blue under an alpha
    of [ff], eight digits the whole value. *)
Theorem write_argb_color_digits (key : list ascii) (bgra : Z)
        (writer : DP_TextWriter) :
  writable (output writer) = true -> 0 <= bgra < 2 ^ 32 ->
  exists digits,
    DP_text_writer_write_argb_color key bgra writer
    = (true, put writer (" " :: key ++ "=" :: "#" :: digits)%char)
    /\ forallb is_hex_digit digits = true
    /\ (Z.land bgra ALPHA_MASK = ALPHA_MASK /\ List.length digits = 6%nat
        /\ Z.lor ALPHA_MASK (hex_value digits) = bgra
        \/ Z.land bgra ALPHA_MASK <> ALPHA_MASK /\ List.length digits = 8%nat
           /\ hex_value digits = bgra).
Proof.
  intros Hout Hr. unfold DP_text_writer_write_argb_color.
  destruct (Z.eqb_spec (Z.land bgra ALPHA_MASK) ALPHA_MASK) as [Ha | Ha].
  - destruct (printf_0x_spec 6 (Z.land bgra RGB_MASK) ltac:(lia) (rgb_range bgra))
      as (Hlen & Hall & Hval).
    eexists. split; [now apply format_argument_ok |]. split; [exact Hall |].
    left. split; [exact Ha |]. split; [exact Hlen |].
    rewrite Hval. now apply opaque_colour.
  - destruct (printf_0x_spec 8 bgra ltac:(lia)) as (Hlen & Hall & Hval).
    { change (16 ^ Z.of_nat 8) with (2 ^ 32). exact Hr. }
    eexists. split; [now apply format_argument_ok |]. split; [exact Hall |].
    right. split; [exact Ha |]. split; [exact Hlen | exact Hval].
Qed.

Lemma write_argb_color_digits_witness :
  exists digits,
    DP_text_writer_write_argb_color (cstr "color") 0xff00aa10 Sample.writer
    = (true, put Sample.writer (" " :: cstr "color" ++ "=" :: "#" :: digits)%char)
    /\ forallb is_hex_digit digits = true
    /\ (Z.land 0xff00aa10 ALPHA_MASK = ALPHA_MASK /\ List.length digits = 6%nat
        /\ Z.lor ALPHA_MASK (hex_value digits) = 0xff00aa10
        \/ Z.land 0xff00aa10 ALPHA_MASK <> ALPHA_MASK /\ List.length digits = 8%nat
           /\ hex_value digits = 0xff00aa10).
Proof.
  apply (write_argb_color_digits (cstr "color") 0xff00aa10 Sample.writer eq_refl).
  lia.
Defined.

(** X21.  An id from 0 to [0xffff] is written as [0x] and exactly four
    hexadecimal digits that spell it, alone and in an id list, where the
    ids are joined by commas. *)
Theorem write_id_four_digits (key : list ascii) (writer : DP_TextWriter) :
  writable (output writer) = true ->
  (forall value, 0 <= value < 65536 ->
     exists digits,
       DP_text_writer_write_id key value writer
       = (true, put writer (" " :: key ++ "=" :: "0" :: "x" :: digits)%char)
       /\ List.length digits = 4%nat /\ forallb is_hex_digit digits = true
       /\ hex_value digits = value)
  /\ (forall values, Forall (fun v => 0 <= v < 65536) values ->
        exists texts,
          DP_text_writer_write_id_list key values (Z.of_nat (List.length values)) writer
          = (true, put writer (" " :: key ++ "=" :: join_commas texts)%char)
          /\ Forall2 (fun v text =>
                        exists digits,
                          text = ("0" :: "x" :: digits)%char
                          /\ List.length digits = 4%nat
                          /\ forallb is_hex_digit digits = true
                          /\ hex_value digits = v)
                     values texts).
Proof.
  intros Hout.
  assert (Hone : forall value, 0 <= value < 65536 ->
             List.length (printf_0x 4 (to_unsigned value)) = 4%nat
             /\ forallb is_hex_digit (printf_0x 4 (to_unsigned value)) = true
             /\ hex_value (printf_0x 4 (to_unsigned value)) = value).
  { intros value Hv. unfold to_unsigned. rewrite Z.mod_small by lia.
    apply printf_0x_spec; [lia |]. change (16 ^ Z.of_nat 4) with 65536. exact Hv. }
  split.
  - intros value Hv. eexists. split; [now apply format_argument_ok |].
    now apply Hone.
  - intros values Hvs. eexists. split.
    + unfold DP_text_writer_write_id_list. now apply WRITE_LIST_text.
    + induction Hvs as [| v vs Hv Hvs IH]; simpl; constructor; [| exact IH].
      eexists. split; [reflexivity |]. now apply Hone.
Qed.

Lemma write_id_four_digits_witness :
  exists digits,
    DP_text_writer_write_id (cstr "layer") 0x0102 Sample.writer
    = (true, put Sample.writer (" " :: cstr "layer" ++ "=" :: "0" :: "x" :: digits)%char)
    /\ List.length digits = 4%nat /\ forallb is_hex_digit digits = true
    /\ hex_value digits = 0x0102.
Proof.
  apply (proj1 (write_id_four_digits (cstr "layer") Sample.writer eq_refl) 0x0102).
  lia.
Defined.

Section HeaderFacts.

Variable double : Type.
Variable format_f : double -> list ascii.

Lemma print_header_field_ok (key text : list ascii) (w : DP_TextWriter) :
  writable (output w) = true ->
  print_header_field key text w
  = (true, put w ("!" :: key ++ "=" :: text ++ [ "010" ])%char).
Proof.
  intros Hout. unfold print_header_field, and_then, DP_output_print.
  rewrite on_output_write by assumption.
  repeat (rewrite on_output_write by reflexivity; cbn [negb]).
  rewrite !firstn_all, !put_put. reflexivity.
Qed.

Lemma header_loop_ok (header : list (list ascii * JSON_Value double)) :
  forall (w : DP_TextWriter) (a : list ascii),
    Forall (fun field => header_text double format_f (snd field) <> None) header ->
    header_loop double format_f header (put w a)
    = (true, put w (a ++ flat_map (header_line format_f) header)).
Proof.
  induction header as [| [key value] rest IH]; intros w a Hall; simpl.
  - now rewrite app_nil_r.
  - inversion Hall as [| ? ? Hv Hrest]; subst. simpl in Hv.
    unfold write_header_field, header_line. simpl.
    destruct (header_text double format_f value) as [text |]; [| contradiction].
    rewrite print_header_field_ok, put_put by reflexivity.
    rewrite IH by assumption. now rewrite <- app_assoc.
Qed.

Lemma header_loop_stops (pre : list (list ascii * JSON_Value double)) :
  forall (w : DP_TextWriter) (a : list ascii) key bad post,
    Forall (fun field => header_text double format_f (snd field) <> None) pre ->
    header_text double format_f bad = None ->
    header_loop double format_f (pre ++ (key, bad) :: post) (put w a)
    = (false, put w (a ++ flat_map (header_line format_f) pre)).
Proof.
  induction pre as [| [k v] pre IH]; intros w a key bad post Hall Hbad; simpl.
  - unfold write_header_field. rewrite Hbad. now rewrite app_nil_r.
  - inversion Hall as [| ? ? Hv Hrest]; subst. simpl in Hv.
    unfold write_header_field, header_line. simpl.
    destruct (header_text double format_f v) as [text |]; [| contradiction].
    rewrite print_header_field_ok, put_put by reflexivity.
    rewrite IH by assumption. now rewrite <- app_assoc.
Qed.

Lemma put_nil_written (w : DP_TextWriter) :
  written (output (put w [])) = written (output w)
  /\ multiline_output (put w []) = multiline_output w.
Proof. unfold put. simpl. now rewrite app_nil_r. Qed.

(** X22.  A header of null, string, number and boolean fields is written as one
    line [!key=value] per field, in order, and an empty line.  At the
    first field of another type the writer stops and reports failure: the
    lines of the fields before it have been written, and nothing more,
    not the empty line either. *)
Theorem write_header_stops (header : list (list ascii * JSON_Value double))
        (writer : DP_TextWriter) :
  writable (output writer) = true ->
  (Forall (fun field => header_text double format_f (snd field) <> None) header ->
   exists writer',
     DP_text_writer_write_header double format_f header writer = (true, writer')
     /\ written (output writer')
        = written (output writer)
          ++ flat_map (header_line format_f) header ++ [ "010"%char ]
     /\ multiline_output writer' = multiline_output writer)
  /\ (forall pre key bad post,
         header = pre ++ (key, bad) :: post ->
         Forall (fun field => header_text double format_f (snd field) <> None) pre ->
         header_text double format_f bad = None ->
         exists writer',
           DP_text_writer_write_header double format_f header writer = (false, writer')
           /\ written (output writer')
              = written (output writer) ++ flat_map (header_line format_f) pre
           /\ multiline_output writer' = multiline_output writer).
Proof.
  intros Hout.
  assert (Hstart : forall l,
             header_loop double format_f l writer
             = match l with
               | [] => (true, writer)
               | (key, value) :: rest =>
                   match header_text double format_f value with
                   | Some text =>
                       header_loop double format_f rest
                         (put writer ("!" :: key ++ "=" :: text ++ [ "010" ])%char)
                   | None => (false, writer)
                   end
               end).
  { intros [| [key value] rest]; [reflexivity |]. simpl.
    unfold write_header_field.
    destruct (header_text double format_f value) as [text |]; [| reflexivity].
    now rewrite print_header_field_ok by assumption. }
  assert (Hline : forall key value text,
             header_text double format_f value = Some text ->
             header_line format_f (key, value)
             = ("!" :: key ++ "=" :: text ++ [ "010" ])%char).
  { intros key value text Ht. unfold header_line. simpl. now rewrite Ht. }
  unfold DP_text_writer_write_header. split.
  - intros Hall. rewrite Hstart.
    destruct header as [| [key value] rest].
    + rewrite on_output_write by assumption. eexists. split; [reflexivity |].
      split; reflexivity.
    + inversion Hall as [| ? ? Hv Hrest]; subst. simpl in Hv.
      destruct (header_text double format_f value) as [text |] eqn:Ht;
        [| contradiction].
      rewrite header_loop_ok by assumption.
      rewrite on_output_write by reflexivity. eexists. split; [reflexivity |].
      split; [| reflexivity]. cbn [flat_map]. rewrite (Hline _ _ _ Ht).
      unfold put. cbn [output written firstn]. now rewrite <- !app_assoc.
  - intros pre key bad post -> Hall Hbad. rewrite Hstart.
    destruct pre as [| [k v] pre].
    + simpl. rewrite Hbad. eexists. split; [reflexivity |].
      split; [now rewrite app_nil_r | reflexivity].
    + inversion Hall as [| ? ? Hv Hrest]; subst. simpl in Hv.
      cbn [app]. cbv beta iota.
      destruct (header_text double format_f v) as [text |] eqn:Ht;
        [| contradiction].
      rewrite header_loop_stops by assumption.
      eexists. split; [reflexivity |]. split; [| reflexivity].
      cbn [flat_map]. rewrite (Hline _ _ _ Ht). reflexivity.
Qed.

End HeaderFacts.

Lemma write_header_stops_witness :
  exists writer',
    DP_text_writer_write_header Z
      (fun n : Z => Qt.number n)
      [(cstr "version", JSONString (cstr "dp:4.21.2")); (cstr "tags", JSONArray);
       (cstr "width", JSONNumber 800)]
      Sample.writer
    = (false, writer')
    /\ written (output writer')
       = written (output Sample.writer) ++ cstr "!version=dp:4.21.2" ++ [ "010"%char ]
    /\ multiline_output writer' = multiline_output Sample.writer.
Proof.
  apply (proj2 (write_header_stops Z (fun n : Z => Qt.number n)
                  [(cstr "version", JSONString (cstr "dp:4.21.2"));
                   (cstr "tags", JSONArray); (cstr "width", JSONNumber 800)]
                  Sample.writer eq_refl)
               [(cstr "version", JSONString (cstr "dp:4.21.2"))]
               (cstr "tags") JSONArray [(cstr "width", JSONNumber 800)]);
    [reflexivity | | reflexivity].
  constructor; [discriminate | constructor].
Defined.

Lemma buffer_multiline_ok (key value : list ascii) (w : DP_TextWriter) :
  (forall mo, multiline_output w = Some mo -> writable mo = true) ->
  exists lines,
    buffer_multiline_argument key value w
    = (true, buffered w (flat_map (line_of key) lines))
    /\ join_lines lines = value /\ lines <> [] /\ Forall no_newline lines.
Proof.
  intros Hmulti. unfold buffer_multiline_argument.
  destruct (multiline_output w) as [mo |] eqn:Hmo.
  - exact (multiline_loop_lines key value [] [] w mo Hmo (Hmulti mo eq_refl) eq_refl).
  - destruct (multiline_loop_lines key value [] []
                {| output := output w;
                   multiline_output := Some DP_mem_output_new |}
                DP_mem_output_new eq_refl eq_refl eq_refl)
      as (lines & Hrun & Hrest).
    exists lines. simpl in Hrun. rewrite Hrun. split; [| exact Hrest].
    unfold buffered, multiline_buffer. simpl. now rewrite Hmo.
Qed.

Lemma finish_message_block (undo : Z) (w : DP_TextWriter) (mo : DP_Output)
      (msg : DP_Message) :
  writable (output w) = true ->
  multiline_output w = Some mo -> written mo <> [] ->
  DP_text_writer_finish_message undo w msg
  = (true,
     {| output :=
          {| written := written (output w) ++ cstr " {" ++ written mo
                        ++ [ "010"; "}"; "010" ]%char
                        ++ (if DP_message_type msg =? undo
                            then [ "010"%char ] else []);
             writable := true |};
        multiline_output := Some {| written := []; writable := writable mo |} |}).
Proof.
  intros Hout Hmo Hne.
  unfold DP_text_writer_finish_message, multiline_size, multiline_buffer.
  rewrite Hmo. destruct (written mo) as [| c buf] eqn:Hbuf; [contradiction |].
  cbn [List.length]. unfold and_then.
  rewrite on_output_write by assumption.
  rewrite on_output_write by reflexivity.
  rewrite on_output_write by reflexivity.
  rewrite !put_put. unfold on_multiline, put. cbn [multiline_output output].
  rewrite Hmo. unfold DP_output_clear. rewrite <- Hbuf.
  replace (S (List.length buf)) with (List.length (written mo))
    by (now rewrite Hbuf).
  rewrite firstn_all.
  destruct (DP_message_type msg =? undo); reflexivity.
Qed.

Section MessageFacts.

Variable DP_MSG_UNDO_POINT : Z.
Variable DP_message_name : DP_Message -> list ascii.

(** X23.  The text of a message follows the kind of its arguments, not the
    order of the calls: when a string with whitespace is written before
    an integer, the integer still comes first, on the command line, and
    the lines of the string come after it in the braces, behind what the
    block held already.  Finishing the message leaves the block buffer
    empty for the next one. *)
Theorem message_block_after_arguments (msg : DP_Message)
        (key value key' : list ascii) (n : Z) (writer : DP_TextWriter) :
  writable (output writer) = true ->
  (forall mo, multiline_output writer = Some mo -> writable mo = true) ->
  contains_whitespace value = true ->
  exists lines writer',
    (DP_text_writer_start_message DP_message_name msg
     &&> DP_text_writer_write_string key value
     &&> DP_text_writer_write_int key' n
     &&> (fun w => DP_text_writer_finish_message DP_MSG_UNDO_POINT w msg)) writer
    = (true, writer')
    /\ written (output writer')
       = written (output writer)
         ++ Qt.number (DP_message_context_id msg)
         ++ (" " :: DP_message_name msg)%char
         ++ (" " :: key' ++ "=" :: Qt.number n)%char
         ++ cstr " {" ++ multiline_buffer writer
         ++ flat_map (fun line => "010" :: "009" :: key ++ "=" :: line)%char lines
         ++ [ "010"; "}"; "010" ]%char
         ++ (if DP_message_type msg =? DP_MSG_UNDO_POINT
             then [ "010"%char ] else [])
    /\ join_lines lines = value
    /\ multiline_buffer writer' = [].
Proof.
  intros Hout Hmulti Hws.
  unfold and_then at 1. unfold DP_text_writer_start_message, DP_output_print.
  rewrite on_output_write by assumption. rewrite firstn_all.
  set (a := Qt.number (DP_message_context_id msg)
            ++ (" " :: DP_message_name msg)%char).
  unfold and_then at 1. unfold DP_text_writer_write_string. rewrite Hws.
  destruct (buffer_multiline_ok key value (put writer a) Hmulti)
    as (lines & Hrun & Hjoin & Hne & _).
  rewrite Hrun. unfold and_then. unfold DP_text_writer_write_int.
  rewrite format_argument_ok by reflexivity.
  set (L := flat_map (line_of key) lines) in *.
  rewrite (finish_message_block DP_MSG_UNDO_POINT _
             {| written := multiline_buffer writer ++ L; writable := true |});
    [| reflexivity | reflexivity |].
  - exists lines. eexists. split; [reflexivity |].
    split; [| split; [exact Hjoin | reflexivity]].
    cbn [output written put buffered]. unfold a.
    rewrite <- !app_assoc. reflexivity.
  - cbn [written]. subst L. destruct lines as [| l ls]; [contradiction |].
    simpl. intros Habs. apply app_eq_nil in Habs. destruct Habs as [_ Habs].
    discriminate.
Qed.

End MessageFacts.

Lemma message_block_after_arguments_witness :
  exists lines writer',
    (DP_text_writer_start_message (fun _ => cstr "puttext") Sample.penup
     &&> DP_text_writer_write_string (cstr "text") (cstr "two words")
     &&> DP_text_writer_write_int (cstr "x") 12
     &&> (fun w => DP_text_writer_finish_message Sample.undo_point w Sample.penup))
      Sample.writer
    = (true, writer')
    /\ written (output writer')
       = written (output Sample.writer)
         ++ Qt.number (DP_message_context_id Sample.penup)
         ++ (" " :: cstr "puttext")%char
         ++ (" " :: cstr "x" ++ "=" :: Qt.number 12)%char
         ++ cstr " {" ++ multiline_buffer Sample.writer
         ++ flat_map (fun line => "010" :: "009" :: cstr "text" ++ "=" :: line)%char
                     lines
         ++ [ "010"; "}"; "010" ]%char
         ++ (if DP_message_type Sample.penup =? Sample.undo_point
             then [ "010"%char ] else [])
    /\ join_lines lines = cstr "two words"
    /\ multiline_buffer writer' = [].
Proof.
  apply (message_block_after_arguments
           Sample.undo_point (fun _ => cstr "puttext") Sample.penup
           (cstr "text") (cstr "two words") (cstr "x") 12 Sample.writer);
    [reflexivity | discriminate | reflexivity].
Defined.

End TextFieldsFacts.

(** ** libclient/brushes/pixelbrushpainter.cpp *)

Module PixelBrushFacts.
Import QArith PixelBrush.
Local Open Scope Z_scope.

(** The test of the inner loop, in integers. *)
Lemma inside_int (diameter x y : Z) :
  Qle_bool (square (inject_Z y - inject_Z diameter / 2 + offset)
            + square (inject_Z x - inject_Z diameter / 2 + offset))%Q
           (square (inject_Z diameter / 2)%Q)
  = ((2 * x - diameter + 1) * (2 * x - diameter + 1)
     + (2 * y - diameter + 1) * (2 * y - diameter + 1)
     <=? diameter * diameter).
Proof.
  apply Bool.eq_iff_eq_true. rewrite Qle_bool_iff, Z.leb_le.
  cbv - [Z.mul Z.add Z.sub Z.opp Z.le]. lia.
Qed.

Lemma poke_app (pre : list Z) (old value : Z) (post : list Z) :
  poke (List.length pre) value (pre ++ old :: post) = pre ++ value :: post.
Proof. induction pre as [| p pre IH]; simpl; [reflexivity | now rewrite IH]. Qed.

Lemma x_loop_row (radius rr yy : qreal) (opacity : Z) (xs : list Z) :
  forall pre post : list Z,
    x_loop xs radius rr yy opacity (List.length pre)
           (pre ++ repeat 0 (List.length xs) ++ post)
    = ((List.length pre + List.length xs)%nat,
       pre ++ map (fun x =>
                     if Qle_bool (yy + square (inject_Z x - radius + offset))%Q rr
                     then opacity else 0) xs
           ++ post).
Proof.
  induction xs as [| x xs IH]; intros pre post.
  - simpl. now rewrite Nat.add_0_r.
  - cbn [x_loop List.length repeat map app].
    set (c := Qle_bool _ _).
    replace (if c then poke (List.length pre) opacity
                            (pre ++ 0 :: repeat 0 (List.length xs) ++ post)
             else pre ++ 0 :: repeat 0 (List.length xs) ++ post)
      with ((pre ++ [if c then opacity else 0])
              ++ repeat 0 (List.length xs) ++ post).
    + replace (S (List.length pre))
        with (List.length (pre ++ [if c then opacity else 0]))
        by (rewrite length_app; simpl; lia).
      rewrite IH, length_app, <- app_assoc. simpl. f_equal. lia.
    + rewrite <- app_assoc. simpl. destruct c; [now rewrite poke_app | reflexivity].
Qed.

Lemma range_length (n : Z) : List.length (range n) = Z.to_nat n.
Proof. unfold range. now rewrite length_map, length_seq. Qed.

Lemma y_loop_rows (diameter : Z) (radius rr : qreal) (opacity : Z) (ys : list Z) :
  forall pre post : list Z,
    y_loop ys diameter radius rr opacity (List.length pre)
           (pre ++ repeat 0 (List.length ys * Z.to_nat diameter) ++ post)
    = ((List.length pre + List.length ys * Z.to_nat diameter)%nat,
       pre ++ flat_map
                (fun y =>
                   map (fun x =>
                          if Qle_bool (square (inject_Z y - radius + offset)
                                       + square (inject_Z x - radius + offset))%Q rr
                          then opacity else 0) (range diameter)) ys
           ++ post).
Proof.
  induction ys as [| y ys IH]; intros pre post.
  - simpl. now rewrite Nat.add_0_r.
  - cbn [y_loop List.length flat_map Nat.mul].
    rewrite repeat_app, <- app_assoc, <- (range_length diameter).
    rewrite x_loop_row.
    set (row := map _ (range diameter)).
    replace (List.length pre + List.length (range diameter))%nat
      with (List.length (pre ++ row))
      by (unfold row; now rewrite length_app, length_map).
    rewrite app_assoc, range_length, IH.
    rewrite length_app. unfold row at 1. rewrite length_map, range_length.
    rewrite <- !app_assoc. f_equal. lia.
Qed.

(** The data of the round mask, row by row. *)
Lemma round_data (diameter opacity : Z) :
  0 <= diameter ->
  mask_data (makeRoundPixelBrushMask diameter opacity)
  = flat_map
      (fun y =>
         map (fun x =>
                if (2 * x - diameter + 1) * (2 * x - diameter + 1)
                   + (2 * y - diameter + 1) * (2 * y - diameter + 1)
                   <=? diameter * diameter
                then opacity else 0) (range diameter))
      (range diameter).
Proof.
  intros Hd. unfold makeRoundPixelBrushMask, mask_data, square_int.
  replace (Z.to_nat (diameter * diameter))
    with (List.length (range diameter) * Z.to_nat diameter)%nat
    by (rewrite range_length; nia).
  pose proof (y_loop_rows diameter (inject_Z diameter / 2)%Q
                (square (inject_Z diameter / 2)%Q) opacity (range diameter) [] [])
    as H.
  rewrite !app_nil_r in H. simpl app in H. simpl List.length in H.
  rewrite H. simpl snd.
  apply flat_map_ext. intros y. apply map_ext. intros x.
  now rewrite inside_int.
Qed.

Lemma range_nth (n i : Z) :
  0 <= i < n -> nth (Z.to_nat i) (range n) 0 = i.
Proof.
  intros H. unfold range.
  change 0 with (Z.of_nat 0). rewrite map_nth, seq_nth by lia. simpl. lia.
Qed.

Lemma rows_nth (row : Z -> list Z) (n : nat) (ys : list Z) :
  (forall y, List.length (row y) = n) ->
  forall (j i : nat),
    (j < List.length ys)%nat -> (i < n)%nat ->
    nth (j * n + i) (flat_map row ys) 0 = nth i (row (nth j ys 0)) 0.
Proof.
  intros Hrow. induction ys as [| y ys IH]; intros j i Hj Hi; simpl in Hj.
  - lia.
  - simpl flat_map. destruct j as [| j].
    + simpl. rewrite app_nth1 by (rewrite Hrow; lia). reflexivity.
    + rewrite app_nth2 by (rewrite Hrow; simpl; lia).
      rewrite Hrow. replace (S j * n + i - n)%nat with (j * n + i)%nat
        by (simpl; lia).
      rewrite IH by lia. reflexivity.
Qed.

(** The byte at column [x] of row [y] of the round mask. *)
Lemma round_pixel (diameter opacity x y : Z) :
  0 <= x < diameter -> 0 <= y < diameter ->
  pixel (makeRoundPixelBrushMask diameter opacity) x y
  = if (2 * x - diameter + 1) * (2 * x - diameter + 1)
       + (2 * y - diameter + 1) * (2 * y - diameter + 1)
       <=? diameter * diameter
    then opacity else 0.
Proof.
  intros Hx Hy. unfold pixel. rewrite round_data by lia.
  change (mask_diameter (makeRoundPixelBrushMask diameter opacity)) with diameter.
  replace (Z.to_nat (y * diameter + x))
    with (Z.to_nat y * Z.to_nat diameter + Z.to_nat x)%nat by nia.
  rewrite (rows_nth _ (Z.to_nat diameter));
    [| intros; now rewrite length_map, range_length
     | rewrite range_length; lia | lia].
  rewrite (range_nth diameter y Hy).
  set (f := fun x0 : Z => _).
  rewrite (nth_indep _ 0 (f 0)) by (rewrite length_map, range_length; lia).
  rewrite map_nth, (range_nth diameter x Hx). reflexivity.
Qed.

(** X24.  With the loops written in integers: the round mask has one byte for
    each place of the square of its diameter, and the byte at column [x]
    of row [y] is the opacity where the centre of the place lies in the
    circle of that diameter around the centre of the square, and 0
    elsewhere. *)
Theorem round_mask_disc (diameter opacity : Z) :
  0 <= diameter <= 46340 ->
  List.length (mask_data (makeRoundPixelBrushMask diameter opacity))
  = Z.to_nat (diameter * diameter)
  /\ forall x y,
      0 <= x < diameter -> 0 <= y < diameter ->
      pixel (makeRoundPixelBrushMask diameter opacity) x y
      = if (2 * x - diameter + 1) * (2 * x - diameter + 1)
           + (2 * y - diameter + 1) * (2 * y - diameter + 1)
           <=? diameter * diameter
        then opacity else 0.
Proof.
  intros Hd. split; [| intros x y; apply round_pixel].
  rewrite round_data by lia.
  assert (Hlen : forall (row : Z -> list Z) (n : nat) (ys : list Z),
             (forall y, List.length (row y) = n) ->
             List.length (flat_map row ys) = (List.length ys * n)%nat).
  { intros row n ys Hrow. induction ys as [| y ys IH]; simpl; [reflexivity |].
    now rewrite length_app, Hrow, IH. }
  rewrite (Hlen _ (Z.to_nat diameter));
    [| intros; now rewrite length_map, range_length].
  rewrite range_length. nia.
Qed.

Lemma round_mask_disc_witness :
  List.length (mask_data (makeRoundPixelBrushMask 5 255)) = Z.to_nat (5 * 5)
  /\ forall x y,
      0 <= x < 5 -> 0 <= y < 5 ->
      pixel (makeRoundPixelBrushMask 5 255) x y
      = if (2 * x - 5 + 1) * (2 * x - 5 + 1) + (2 * y - 5 + 1) * (2 * y - 5 + 1)
           <=? 5 * 5
        then 255 else 0.
Proof. apply (round_mask_disc 5 255). lia. Defined.

(** X25.  The round mask is the same seen in a mirror, left to right or top to
    bottom, and with rows and columns exchanged. *)
Theorem round_mask_symmetric (diameter opacity x y : Z) :
  0 <= diameter <= 46340 ->
  0 <= x < diameter -> 0 <= y < diameter ->
  pixel (makeRoundPixelBrushMask diameter opacity) (diameter - 1 - x) y
  = pixel (makeRoundPixelBrushMask diameter opacity) x y
  /\ pixel (makeRoundPixelBrushMask diameter opacity) x (diameter - 1 - y)
     = pixel (makeRoundPixelBrushMask diameter opacity) x y
  /\ pixel (makeRoundPixelBrushMask diameter opacity) y x
     = pixel (makeRoundPixelBrushMask diameter opacity) x y.
Proof.
  intros Hd Hx Hy. rewrite !round_pixel by lia.
  repeat split.
  all: match goal with
       | |- (if ?a <=? _ then _ else _) = (if ?b <=? _ then _ else _) =>
           replace a with b by ring
       end; reflexivity.
Qed.

Lemma round_mask_symmetric_witness :
  pixel (makeRoundPixelBrushMask 5 255) (5 - 1 - 0) 1
  = pixel (makeRoundPixelBrushMask 5 255) 0 1
  /\ pixel (makeRoundPixelBrushMask 5 255) 0 (5 - 1 - 1)
     = pixel (makeRoundPixelBrushMask 5 255) 0 1
  /\ pixel (makeRoundPixelBrushMask 5 255) 1 0
     = pixel (makeRoundPixelBrushMask 5 255) 0 1.
Proof. apply (round_mask_symmetric 5 255 0 1); lia. Defined.

(** X26.  Up to a diameter of 3 the round mask is the square mask.  From 4 on
    its four corners are empty, while its middle row and middle column
    are filled from edge to edge, so the mask is as wide and as high as
    its diameter. *)
Theorem round_mask_shape (diameter opacity : Z) :
  0 <= diameter <= 46340 ->
  (diameter <= 3 ->
   makeRoundPixelBrushMask diameter opacity
   = makeSquarePixelBrushMask diameter opacity)
  /\ (4 <= diameter ->
      pixel (makeRoundPixelBrushMask diameter opacity) 0 0 = 0
      /\ pixel (makeRoundPixelBrushMask diameter opacity) (diameter - 1) 0 = 0
      /\ pixel (makeRoundPixelBrushMask diameter opacity) 0 (diameter - 1) = 0
      /\ pixel (makeRoundPixelBrushMask diameter opacity)
               (diameter - 1) (diameter - 1) = 0)
  /\ (forall i,
         0 <= i < diameter ->
         pixel (makeRoundPixelBrushMask diameter opacity) i (diameter / 2)
         = opacity
         /\ pixel (makeRoundPixelBrushMask diameter opacity) (diameter / 2) i
            = opacity).
Proof.
  intros Hd. split; [| split].
  - intros Hsmall.
    assert (Hcases : diameter = 0 \/ diameter = 1 \/ diameter = 2 \/ diameter = 3)
      by lia.
    destruct Hcases as [-> | [-> | [-> | ->]]]; reflexivity.
  - intros Hbig. rewrite !round_pixel by lia.
    repeat split.
    all: match goal with
         | |- (if ?c then _ else _) = _ => destruct c eqn:Hc; [| reflexivity]
         end.
    all: apply Z.leb_le in Hc; nia.
  - intros i Hi.
    assert (Hmid : 0 <= diameter / 2 < diameter)
      by (split; [apply Z.div_pos; lia | apply Z.div_lt_upper_bound; lia]).
    assert (Hhalf : 2 * (diameter / 2) - diameter + 1 = 0
                    \/ 2 * (diameter / 2) - diameter + 1 = 1).
    { pose proof (Z.div_mod diameter 2 ltac:(lia)) as Hdm.
      pose proof (Z.mod_pos_bound diameter 2 ltac:(lia)). lia. }
    rewrite !round_pixel by lia.
    split.
    all: match goal with
         | |- (if ?c then _ else _) = _ => destruct c eqn:Hc; [reflexivity |]
         end.
    all: apply Z.leb_gt in Hc; destruct Hhalf as [Hh | Hh]; rewrite Hh in Hc; nia.
Qed.

Lemma round_mask_shape_witness :
  (makeRoundPixelBrushMask 3 255 = makeSquarePixelBrushMask 3 255)
  /\ pixel (makeRoundPixelBrushMask 4 255) 0 0 = 0
  /\ pixel (makeRoundPixelBrushMask 4 255) 1 (4 / 2) = 255.
Proof.
  split; [| split].
  - apply (proj1 (round_mask_shape 3 255 ltac:(lia))). lia.
  - apply (proj1 (proj2 (round_mask_shape 4 255 ltac:(lia)))). lia.
  - apply (proj1 (proj2 (proj2 (round_mask_shape 4 255 ltac:(lia))) 1 ltac:(lia))).
Defined.

End PixelBrushFacts.

(** ** libclient/export/canvassaverrunnable.cpp *)

Module CanvasSaverFacts.
Import Qt CanvasSaver.

Section RunFacts.

Variable tr : string -> QString.
Variable arg : QString -> QString -> QString -> QString.
Variable save : QString -> DP_SaveResult.
Variable rename : QString -> QString -> bool.

(** X27.  With a temporary path [run] emits [saveComplete] once on every way
    through it.  The save never writes to the target itself, and a save that
    fails leaves the target alone: the only file touched is the temporary
    one, which is removed.  The target is removed only after a successful
    save, directly before the rename; when that rename fails the target
    is gone and the image is left at the temporary path. *)
Theorem run_target_untouched_on_failure (m_filename tempPath : QString) :
  tempPath <> [] -> tempPath <> m_filename ->
  List.length (run_signals tr arg save rename m_filename tempPath) = 1%nat
  /\ ~ In (Save m_filename) (run_files tr arg save rename m_filename tempPath)
  /\ (save tempPath <> DP_SAVE_RESULT_SUCCESS ->
      run_files tr arg save rename m_filename tempPath
      = [Save tempPath; Remove tempPath]
      /\ forall op,
          In op (run_files tr arg save rename m_filename tempPath) ->
          ~ touches op m_filename)
  /\ (In (Remove m_filename) (run_files tr arg save rename m_filename tempPath) ->
      save tempPath = DP_SAVE_RESULT_SUCCESS
      /\ run_files tr arg save rename m_filename tempPath
         = [Save tempPath; Remove m_filename; Rename tempPath m_filename])
  /\ (save tempPath = DP_SAVE_RESULT_SUCCESS ->
      rename tempPath m_filename = false ->
      In (Remove m_filename) (run_files tr arg save rename m_filename tempPath)
      /\ run_signals tr arg save rename m_filename tempPath
         = [arg (tr "Error moving temporary file %1 to %2.")
                tempPath m_filename]).
Proof.
  intros Hne Hdiff. unfold run_files, run_signals, run.
  destruct tempPath as [| c rest]; [contradiction |]. cbn [isEmpty].
  set (temp := c :: rest) in *.
  assert (Hsave : Save temp <> Save m_filename) by (intros [= E]; auto).
  assert (Hrem : Remove temp <> Remove m_filename) by (intros [= E]; auto).
  destruct (is_success (save temp)) eqn:Hok; cbn [negb].
  - assert (Hs : save temp = DP_SAVE_RESULT_SUCCESS)
      by (destruct (save temp); try discriminate; reflexivity).
    destruct (rename temp m_filename) eqn:Hren; cbn [negb fst snd].
    + split; [reflexivity |]. split; [| split; [| split]].
      * simpl. intros [E | [E | [E | []]]]; [auto | discriminate | discriminate].
      * intros Hf. contradiction.
      * intros _. split; [exact Hs | reflexivity].
      * intros _ Habs. discriminate.
    + split; [reflexivity |]. split; [| split; [| split]].
      * simpl. intros [E | [E | [E | []]]]; [auto | discriminate | discriminate].
      * intros Hf. contradiction.
      * intros _. split; [exact Hs | reflexivity].
      * intros _ _. split; [simpl; auto | reflexivity].
  - assert (Hs : save temp <> DP_SAVE_RESULT_SUCCESS)
      by (intros E; rewrite E in Hok; discriminate).
    cbn [fst snd].
    split; [reflexivity |]. split; [| split; [| split]].
    + simpl. intros [E | [E | []]]; [auto | discriminate].
    + intros _. split; [reflexivity |].
      intros op [<- | [<- | []]]; simpl; auto.
    + simpl. intros [E | [E | []]]; [discriminate | exfalso; auto].
    + intros E. contradiction.
Qed.

(** X28.  An empty message, which reports success, is sent exactly when the
    save succeeded and the image is at the target: saved there directly
    for want of a temporary file, or saved to the temporary path and
    renamed.  The texts of the error messages must not be empty for
    this. *)
Theorem run_reports_success (m_filename tempPath : QString) :
  (forall text, text <> ""%string -> tr text <> []) ->
  (forall format a b, format <> [] -> arg format a b <> []) ->
  run_signals tr arg save rename m_filename tempPath = [[]]
  <-> (if isEmpty tempPath
       then save m_filename = DP_SAVE_RESULT_SUCCESS
       else save tempPath = DP_SAVE_RESULT_SUCCESS
            /\ rename tempPath m_filename = true).
Proof.
  intros Htr Harg.
  assert (Hmsg : forall result,
             result_message tr result = [] <-> result = DP_SAVE_RESULT_SUCCESS).
  { intros result. split.
    - destruct result; simpl; intros E; try reflexivity;
        exfalso; revert E; apply Htr; discriminate.
    - intros ->. reflexivity. }
  unfold run_signals, run. destruct (isEmpty tempPath) eqn:Hempty.
  - simpl. rewrite <- Hmsg. split; [intros [= E]; exact E | intros ->; reflexivity].
  - destruct (is_success (save tempPath)) eqn:Hok; cbn [negb].
    + assert (Hs : save tempPath = DP_SAVE_RESULT_SUCCESS)
        by (destruct (save tempPath); try discriminate; reflexivity).
      destruct (rename tempPath m_filename); cbn [negb snd].
      * rewrite Hs. simpl. split; [intros _; split; reflexivity | reflexivity].
      * split.
        -- intros [= E]. exfalso. revert E. apply Harg, Htr. discriminate.
        -- intros [_ E]. discriminate.
    + cbn [snd]. split.
      * intros [= E]. apply Hmsg in E. rewrite E in Hok. discriminate.
      * intros [E _]. rewrite E in Hok. discriminate.
Qed.

End RunFacts.

Lemma run_target_untouched_on_failure_witness :
  List.length (run_signals qs (fun format a b => format ++ a ++ b)
                 (fun _ => DP_SAVE_RESULT_WRITE_ERROR) (fun _ _ => true)
                 (qs "pic.ora") (qs "pic.a1B2c3.ora")) = 1%nat
  /\ run_files qs (fun format a b => format ++ a ++ b)
       (fun _ => DP_SAVE_RESULT_WRITE_ERROR) (fun _ _ => true)
       (qs "pic.ora") (qs "pic.a1B2c3.ora")
     = [Save (qs "pic.a1B2c3.ora"); Remove (qs "pic.a1B2c3.ora")].
Proof.
  pose proof (run_target_untouched_on_failure
                qs (fun format a b => format ++ a ++ b)
                (fun _ => DP_SAVE_RESULT_WRITE_ERROR) (fun _ _ => true)
                (qs "pic.ora") (qs "pic.a1B2c3.ora")
                ltac:(discriminate) ltac:(discriminate))
    as (Hone & _ & Hfail & _).
  split; [exact Hone | apply Hfail; discriminate].
Defined.

Lemma run_reports_success_witness :
  run_signals qs (fun format a b => format ++ a ++ b)
              (fun _ => DP_SAVE_RESULT_SUCCESS) (fun _ _ => true)
              (qs "pic.ora") (qs "pic.a1B2c3.ora") = [[]]
  <-> DP_SAVE_RESULT_SUCCESS = DP_SAVE_RESULT_SUCCESS /\ true = true.
Proof.
  apply (run_reports_success
           qs (fun format a b => format ++ a ++ b)
           (fun _ => DP_SAVE_RESULT_SUCCESS) (fun _ _ => true)
           (qs "pic.ora") (qs "pic.a1B2c3.ora")).
  - intros [| c text] H; [contradiction | discriminate].
  - intros [| c format] a b H; [contradiction | discriminate].
Defined.

End CanvasSaverFacts.

(** ** client/mainwindow.cpp *)

Module MainWindowFacts.
Import Qt MainWindow.

Lemma gtb_false (a b : Z) : a <= b -> (a >? b) = false.
Proof. intros H. rewrite Z.gtb_ltb. now apply Z.ltb_ge. Qed.

Lemma ltb_false (a b : Z) : b <= a -> (a <? b) = false.
Proof. intros H. now apply Z.ltb_ge. Qed.

Lemma lastIndexOf_from_none (c : ascii) (s : QString) :
  forall i found, ~ In c s -> lastIndexOf_from c s i found = found.
Proof.
  induction s as [| x s IH]; intros i found Hno; simpl; [reflexivity |].
  destruct (Ascii.eqb x c) eqn:E.
  - apply Ascii.eqb_eq in E. exfalso. apply Hno. now left.
  - apply IH. intros Hin. apply Hno. now right.
Qed.

Lemma lastIndexOf_from_last (c : ascii) (a b : QString) :
  forall i found,
    ~ In c b ->
    lastIndexOf_from c (a ++ c :: b) i found = i + size a.
Proof.
  unfold size. induction a as [| x a IH]; intros i found Hno.
  - simpl. rewrite Ascii.eqb_refl. rewrite lastIndexOf_from_none by assumption.
    lia.
  - cbn [app lastIndexOf_from]. rewrite IH by assumption.
    cbn [List.length]. lia.
Qed.

Lemma lastIndexOf_range (c : ascii) (s : QString) :
  forall i found,
    lastIndexOf_from c s i found = found
    \/ i <= lastIndexOf_from c s i found < i + size s.
Proof.
  unfold size. induction s as [| x s IH]; intros i found; simpl; [now left |].
  destruct (IH (i + 1) (if Ascii.eqb x c then i else found)) as [E | E].
  - rewrite E. destruct (Ascii.eqb x c); [right; lia | now left].
  - right. lia.
Qed.

Lemma startsWith_prefix (p b : QString) : startsWith (p ++ b) p = true.
Proof.
  induction p as [| x p IH]; simpl; [now destruct b |].
  now rewrite Ascii.eqb_refl, IH.
Qed.

Lemma startsWith_split (p : QString) :
  forall s, startsWith s p = true -> exists b, s = p ++ b.
Proof.
  induction p as [| x p IH]; intros s H.
  - exists s. reflexivity.
  - destruct s as [| y s]; simpl in H; [discriminate |].
    apply andb_prop in H. destruct H as [E H]. apply Ascii.eqb_eq in E. subst y.
    destruct (IH s H) as [b ->]. now exists b.
Qed.

(** A string that starts with [c] does not start at a place of [pre],
    when [pre] holds no [c]. *)
Lemma indexOf_str_first (c : ascii) (p pre b : QString) :
  forall i,
    ~ In c pre ->
    indexOf_str_from (c :: p) (pre ++ (c :: p) ++ b) i = i + size pre.
Proof.
  unfold size. induction pre as [| x pre IH]; intros i Hno.
  - cbn [app indexOf_str_from].
    change (c :: p ++ b) with ((c :: p) ++ b). rewrite startsWith_prefix.
    simpl. lia.
  - cbn [app indexOf_str_from].
    assert (Hx : x <> c) by (intros ->; apply Hno; now left).
    cbn [startsWith]. apply Ascii.eqb_neq in Hx.
    rewrite Ascii.eqb_sym in Hx. rewrite Hx. cbn [andb].
    rewrite IH by (intros Hin; apply Hno; now right).
    cbn [List.length]. lia.
Qed.

Lemma indexOf_str_absent (str s : QString) :
  forall i,
    (forall a b, s <> a ++ str ++ b) -> indexOf_str_from str s i = -1.
Proof.
  induction s as [| x s IH]; intros i Hno.
  - cbn [indexOf_str_from]. destruct (startsWith [] str) eqn:E; [| reflexivity].
    apply startsWith_split in E. destruct E as [b E].
    exfalso. apply (Hno [] b). exact E.
  - cbn [indexOf_str_from]. destruct (startsWith (x :: s) str) eqn:E.
    + apply startsWith_split in E. destruct E as [b E].
      exfalso. apply (Hno [] b). exact E.
    + apply IH. intros a b Hs. apply (Hno (x :: a) b). now rewrite Hs.
Qed.

Lemma find_char_first (c : ascii) (a b : QString) :
  forall i, ~ In c a -> find_char c (a ++ c :: b) i = i + size a.
Proof.
  unfold size. induction a as [| x a IH]; intros i Hno.
  - simpl. rewrite Ascii.eqb_refl. lia.
  - cbn [app find_char].
    assert (Hx : x <> c) by (intros ->; apply Hno; now left).
    apply Ascii.eqb_neq in Hx. rewrite Hx.
    rewrite IH by (intros Hin; apply Hno; now right).
    cbn [List.length]. lia.
Qed.

Lemma find_char_absent (c : ascii) (s : QString) :
  forall i, ~ In c s -> find_char c s i = -1.
Proof.
  induction s as [| x s IH]; intros i Hno; simpl; [reflexivity |].
  assert (Hx : x <> c) by (intros ->; apply Hno; now left).
  apply Ascii.eqb_neq in Hx. rewrite Hx.
  apply IH. intros Hin. apply Hno. now right.
Qed.

Lemma skipn_app_length {A} (a b : list A) : skipn (List.length a) (a ++ b) = b.
Proof. induction a; simpl; auto. Qed.

Lemma firstn_app_length {A} (a b : list A) : firstn (List.length a) (a ++ b) = a.
Proof. induction a; simpl; [now destruct b | now f_equal]. Qed.

(** X29.  A file name without a suffix gets one in [saveas].  Without a filter
    it is [.ora] or [.png].  With a filter that names a pattern [*.ext)]
    it is [.ext].  With a filter that holds no [*.], such as the one for
    all files, the text of the filter up to its first closing parenthesis
    is appended to the name, and the whole filter when it has none. *)
Theorem saveas_filter_suffix (file selfilter : QString) (needSaveOra : bool) :
  file <> [] -> suffix file = [] ->
  (selfilter = [] ->
   saveas_suffix file selfilter needSaveOra
   = file ++ (if needSaveOra then qs ".ora" else qs ".png"))
  /\ (forall pre ext post,
         selfilter = pre ++ qs "*." ++ ext ++ ")"%char :: post ->
         ~ In "*"%char pre -> ~ In ")"%char ext ->
         saveas_suffix file selfilter needSaveOra = file ++ "."%char :: ext)
  /\ (selfilter <> [] ->
      (forall a b, selfilter <> a ++ qs "*." ++ b) ->
      (forall text post,
          selfilter = text ++ ")"%char :: post -> ~ In ")"%char text ->
          saveas_suffix file selfilter needSaveOra = file ++ text)
      /\ (~ In ")"%char selfilter ->
          saveas_suffix file selfilter needSaveOra = file ++ selfilter)).
Proof.
  intros _ Hsuffix. unfold saveas_suffix. rewrite Hsuffix. cbn [is_empty].
  split; [| split].
  - intros ->. simpl. now destruct needSaveOra.
  - intros pre ext post -> Hpre Hext.
    assert (Hne : is_empty (pre ++ qs "*." ++ ext ++ ")"%char :: post) = false)
      by (destruct pre; reflexivity).
    rewrite Hne. unfold indexOf_str.
    change (qs "*.") with [ "*"%char; "."%char ].
    rewrite (indexOf_str_first "*"%char [ "."%char ] pre (ext ++ ")"%char :: post) 0 Hpre).
    unfold indexOf_char, size.
    replace (0 + Z.of_nat (List.length pre) + 1 <? 0) with false by (symmetry; apply ltb_false; lia).
    replace (Z.to_nat (0 + Z.of_nat (List.length pre) + 1))
      with (List.length (pre ++ [ "*"%char ]))
      by (rewrite length_app; simpl; lia).
    replace (pre ++ [ "*"%char; "."%char ] ++ ext ++ ")"%char :: post)
      with ((pre ++ [ "*"%char ]) ++ ("."%char :: ext) ++ ")"%char :: post)
      by (rewrite <- !app_assoc; reflexivity).
    rewrite skipn_app_length.
    rewrite (find_char_first ")"%char ("."%char :: ext) post)
      by (intros [E | Hin]; [discriminate | contradiction]).
    unfold mid, size.
    set (whole := (pre ++ [ "*"%char ]) ++ ("."%char :: ext) ++ ")"%char :: post).
    assert (Hlen : Z.of_nat (List.length whole)
                   = Z.of_nat (List.length pre) + 1
                     + Z.of_nat (List.length ("."%char :: ext))
                     + 1 + Z.of_nat (List.length post)).
    { unfold whole. rewrite !length_app. cbn [List.length]. lia. }
    replace (0 + Z.of_nat (List.length pre) + 1 >? Z.of_nat (List.length whole))
      with false by (symmetry; apply gtb_false; lia).
    replace (0 + Z.of_nat (List.length pre) + 1 <? 0)
      with false by (symmetry; apply ltb_false; lia).
    set (n := 0 + Z.of_nat (List.length pre) + 1
              + Z.of_nat (List.length ("."%char :: ext))
              - (0 + Z.of_nat (List.length pre) + 1)).
    replace ((n <? 0)
             || (n >? Z.of_nat (List.length whole)
                      - (0 + Z.of_nat (List.length pre) + 1)))
      with false
      by (symmetry; apply orb_false_intro;
          [apply ltb_false | apply gtb_false]; unfold n; lia).
    replace (Z.to_nat (0 + Z.of_nat (List.length pre) + 1))
      with (List.length (pre ++ [ "*"%char ]))
      by (rewrite length_app; simpl; lia).
    unfold whole. rewrite skipn_app_length.
    replace (Z.to_nat n) with (List.length ("."%char :: ext)) by (unfold n; lia).
    now rewrite firstn_app_length.
  - intros Hne Hno.
    assert (Hne' : is_empty selfilter = false) by (destruct selfilter; [contradiction | reflexivity]).
    rewrite Hne'. unfold indexOf_str. rewrite (indexOf_str_absent _ _ 0 Hno).
    change (-1 + 1) with 0.
    unfold indexOf_char. cbn [Z.ltb Z.compare Z.to_nat skipn].
    split.
    + intros text post -> Htext.
      rewrite (find_char_first ")"%char text post 0 Htext).
      unfold mid, size.
      replace (0 >? Z.of_nat (List.length (text ++ ")"%char :: post)))
        with false by (symmetry; apply gtb_false; lia).
      cbn [Z.ltb Z.compare].
      replace ((0 + Z.of_nat (List.length text) - 0 <? 0)
               || (0 + Z.of_nat (List.length text) - 0
                   >? Z.of_nat (List.length (text ++ ")"%char :: post)) - 0))
        with false
        by (symmetry; apply orb_false_intro;
            [apply ltb_false | apply gtb_false];
            rewrite ?length_app; cbn [List.length]; lia).
      cbn [Z.to_nat skipn].
      replace (Z.to_nat (0 + Z.of_nat (List.length text) - 0))
        with (List.length text) by lia.
      now rewrite firstn_app_length.
    + intros Hparen. rewrite (find_char_absent _ _ 0 Hparen).
      unfold mid, size.
      replace (0 >? Z.of_nat (List.length selfilter))
        with false by (symmetry; apply gtb_false; lia).
      cbn [Z.ltb Z.compare Z.sub Z.add Z.opp orb Z.to_nat skipn].
      replace (Z.to_nat (Z.of_nat (List.length selfilter) - 0))
        with (List.length selfilter) by lia.
      now rewrite firstn_all.
Qed.

Lemma saveas_filter_suffix_witness :
  saveas_suffix (qs "pic") (qs "PNG (*.png)") true = qs "pic" ++ "."%char :: qs "png"
  /\ saveas_suffix (qs "pic") (qs "All files (*)") true
     = qs "pic" ++ qs "All files (*".
Proof.
  split.
  - apply (proj1 (proj2 (saveas_filter_suffix (qs "pic") (qs "PNG (*.png)") true
                           ltac:(discriminate) eq_refl))
                 (qs "PNG (") (qs "png") []);
      [reflexivity | |]; simpl; intuition discriminate.
  - apply (proj1 (proj2 (proj2 (saveas_filter_suffix
                                  (qs "pic") (qs "All files (*)") true
                                  ltac:(discriminate) eq_refl))
                        ltac:(discriminate)
                        ltac:(intros a b H; cbn in H;
                              repeat (destruct a as [| ? a];
                                      [discriminate H | injection H as _ H]);
                              destruct a; discriminate H))
                 (qs "All files (*") []);
      [reflexivity |]; simpl; intuition discriminate.
Defined.

Lemma left_stem (stem rest : QString) :
  rest <> [] -> left (size stem) (stem ++ rest) = stem.
Proof.
  intros Hrest. unfold left, size.
  rewrite ltb_false by lia.
  replace (Z.of_nat (List.length (stem ++ rest)) <=? Z.of_nat (List.length stem))
    with false.
  - cbn [orb]. rewrite Nat2Z.id. apply firstn_app_length.
  - symmetry. apply Z.leb_gt. rewrite length_app.
    destruct rest; [contradiction | simpl; lia].
Qed.

(** X30.  When the user asks for OpenRaster in [confirmFlatten], the name is cut
    at its last dot and gets [.ora]; a name without a dot gets [.ora] at
    its end.  The last dot is looked for in the whole path: for a file
    without suffix in a directory with a dot in its name, which
    [QFileInfo::suffix] reports as having no suffix, the cut falls in the
    directory part and the file name is lost. *)
Theorem confirmFlatten_cuts_at_last_dot (file : QString) :
  (forall stem ext,
      file = stem ++ "."%char :: ext -> ~ In "."%char ext ->
      confirmFlatten SaveOra file = (true, stem ++ qs ".ora"))
  /\ (~ In "."%char file ->
      confirmFlatten SaveOra file = (true, file ++ qs ".ora"))
  /\ (forall dir rest name,
         file = dir ++ "."%char :: rest ++ "/"%char :: name ->
         ~ In "."%char rest -> ~ In "."%char name -> ~ In "/"%char name ->
         suffix file = []
         /\ confirmFlatten SaveOra file = (true, dir ++ qs ".ora")).
Proof.
  assert (Hcut : forall stem ext,
             ~ In "."%char ext ->
             confirmFlatten SaveOra (stem ++ "."%char :: ext)
             = (true, stem ++ qs ".ora")).
  { intros stem ext Hext. unfold confirmFlatten, lastIndexOf.
    rewrite lastIndexOf_from_last by assumption. cbn [Z.add].
    rewrite left_stem by discriminate. reflexivity. }
  split; [| split].
  - intros stem ext -> Hext. now apply Hcut.
  - intros Hno. unfold confirmFlatten, lastIndexOf.
    rewrite lastIndexOf_from_none by assumption. reflexivity.
  - intros dir rest name -> Hrest Hname Hslash. split.
    + unfold suffix, fileName, lastIndexOf.
      replace (dir ++ "."%char :: rest ++ "/"%char :: name)
        with ((dir ++ "."%char :: rest) ++ "/"%char :: name)
        by (now rewrite <- app_assoc).
      rewrite lastIndexOf_from_last by assumption. unfold size.
      replace (Z.to_nat (0 + Z.of_nat (List.length (dir ++ "."%char :: rest)) + 1))
        with (List.length ((dir ++ "."%char :: rest) ++ [ "/"%char ]))
        by (rewrite (length_app _ [ "/"%char ]); simpl; lia).
      replace ((dir ++ "."%char :: rest) ++ "/"%char :: name)
        with (((dir ++ "."%char :: rest) ++ [ "/"%char ]) ++ name)
        by (now rewrite <- app_assoc).
      rewrite skipn_app_length.
      rewrite lastIndexOf_from_none by assumption. reflexivity.
    + apply Hcut. intros Hin. apply in_app_or in Hin.
      destruct Hin as [Hin | [E | Hin]]; [auto | discriminate | auto].
Qed.

Lemma confirmFlatten_cuts_at_last_dot_witness :
  confirmFlatten SaveOra (qs "/home/me/pic.png") = (true, qs "/home/me/pic.ora")
  /\ confirmFlatten SaveOra (qs "pic") = (true, qs "pic.ora")
  /\ suffix (qs "/home/v1.2/pic") = []
  /\ confirmFlatten SaveOra (qs "/home/v1.2/pic") = (true, qs "/home/v1.ora").
Proof.
  split; [| split].
  - apply (proj1 (confirmFlatten_cuts_at_last_dot (qs "/home/me/pic.png"))
                 (qs "/home/me/pic") (qs "png")); [reflexivity |].
    simpl; intuition discriminate.
  - apply (proj1 (proj2 (confirmFlatten_cuts_at_last_dot (qs "pic")))).
    simpl; intuition discriminate.
  - apply (proj2 (proj2 (confirmFlatten_cuts_at_last_dot (qs "/home/v1.2/pic")))
                 (qs "/home/v1") (qs "2") (qs "pic"));
      [reflexivity | | |]; simpl; intuition discriminate.
Defined.

End MainWindowFacts.
